(** * BitX Sessions: the popup's session-state core

    A shallow embedding of [PopupService] (the session store and its
    operations) and of [mergeSessions] (the import merge) from
    [src/popup/index.ts], with the properties of the specification that
    concern them.

    Conventions of the embedding.

    - A JavaScript string is a [string]; the development covers names made
      of ASCII characters: [trim] strips the six ASCII white-space
      characters and [toLowerCase] maps [A]..[Z].
    - A JavaScript number holding a timestamp or an order is a [Z].
    - [PopupState.activeSessions], a plain object used as a dictionary, is
      a [gmap string string]; [obj[k] = v] is [<[k:=v]>], [delete obj[k]]
      is [delete k] and [obj[k] === v] is [obj !! k = Some v].
    - [PopupState.sessions] is a [list]; [Array.prototype.find] is
      [list_find], which also gives the position of the object found, so
      that a later assignment to a field of that object is an update of the
      list at that position.
    - An [async] method that may throw returns an [Outcome]: the value
      returned or the error thrown, each with the state the service is left
      in.  The answers of the outside world (the reply of the background
      script, [Date.now()], [generateId()]) are arguments.
    - Every operation of the service ends its [try] with [await
      this.saveStorageData()]; whether that write to [chrome.storage.local]
      resolves or rejects is an argument too ([WriteResult]), and a call
      whose write is rejected throws with the state as the statements
      before the write have left it.  The storage itself is not part of the
      state of the service.
    - The calls to [chrome.storage.local] that the script of the popup makes
      outside the service (export, import, "clear all") are taken to
      resolve. *)

From Stdlib Require Import ZArith String Ascii List Lia.
From stdpp Require Import base option list sorting strings gmap.

(** ** Strings: [String.prototype.trim] and [toLowerCase] on ASCII *)

Definition isWhiteSpace (c : ascii) : bool :=
  let n := nat_of_ascii c in
  (n =? 9)%nat || (n =? 10)%nat || (n =? 11)%nat ||
  (n =? 12)%nat || (n =? 13)%nat || (n =? 32)%nat.

Fixpoint trimStart (s : string) : string :=
  match s with
  | EmptyString => EmptyString
  | String c s' => if isWhiteSpace c then trimStart s' else s
  end.

Fixpoint trimEnd (s : string) : string :=
  match s with
  | EmptyString => EmptyString
  | String c s' =>
      match trimEnd s' with
      | EmptyString => if isWhiteSpace c then EmptyString else String c EmptyString
      | String d t => String c (String d t)
      end
  end.

Definition trim (s : string) : string := trimEnd (trimStart s).

Definition toLowerChar (c : ascii) : ascii :=
  let n := nat_of_ascii c in
  if (65 <=? n)%nat && (n <=? 90)%nat then ascii_of_nat (n + 32) else c.

Fixpoint toLowerCase (s : string) : string :=
  match s with
  | EmptyString => EmptyString
  | String c s' => String (toLowerChar c) (toLowerCase s')
  end.

(** The first character, if any, is not white space. *)
Definition noLeadingSpace (s : string) : Prop :=
  match s with
  | EmptyString => True
  | String c _ => isWhiteSpace c = false
  end.

(** [x.trim().toLowerCase()], the form under which names are compared. *)
Definition normalizeName (s : string) : string := toLowerCase (trim s).

(** ** Validation of a session name

    [validateSessionName] ([@shared/utils/validation]) returns the name to
    store or throws. *)

Inductive Validation : Type :=
  | Valid (validatedName : string)
  | Invalid (message : string).

(** What the conflict check relies on: the name that validation returns
    compares equal, once trimmed and lowercased, to the name it was given. *)
Definition validationKeepsName (validate : string → Validation) : Prop :=
  ∀ n v, validate n = Valid v → normalizeName v = normalizeName n.

(** Modelled from the spec: [validateSessionName] is not among the sources;
    the specification says a name is valid when it is "non-empty after trim"
    and within a "length bound".  This validator, which returns the trimmed
    name, is the instance at which the theorems below are exercised. *)
Definition validateTrimmed (maxLength : nat) (name : string) : Validation :=
  let trimmed := trim name in
  if decide (trimmed = "") then Invalid "Session name cannot be empty"
  else if decide (maxLength < String.length trimmed)%nat then Invalid "Session name is too long"
  else Valid trimmed.

(** ** Errors and replies *)

(** [new ExtensionError(handleError(error, context))]: the message of the
    error caught and the tag of the operation that wraps it. *)
Record ExtensionError : Type := mkError {
  context : string;
  message : string
}.

(** [MessageResponse<T>]: [{ success, data?, error? }]. *)
Record MessageResponse (T : Type) : Type := mkResponse {
  success : bool;
  data : option T;
  error : option string
}.
Arguments mkResponse {T} _ _ _.
Arguments success {T} _.
Arguments data {T} _.
Arguments error {T} _.

(** What [await this.saveStorageData()] comes to: the write to
    [chrome.storage.local] resolves, or it rejects with an error. *)
Inductive WriteResult : Type :=
  | Written
  | WriteFailed (reason : string).

(** [response.error || fallback]: an absent or empty message is falsy. *)
Definition errorOr (e : option string) (fallback : string) : string :=
  match e with
  | Some m => if decide (m = "") then fallback else m
  | None => fallback
  end.

(** ** What the popup service imports

    The captured payload ([StoredSession]: cookies and storage), its default
    value ([@popup/utils/defaultValue]) and [validateSessionName] are not
    among the sources.  The operations only copy the payload, and only call
    the validator, so the three are the fields of an interface. *)
Class Imports : Type := {
  StoredSession : Type;
  storedSessionDefaultValue : StoredSession;
  validateSessionName : string → Validation
}.

Section PopupService.

Context `{Imports}.

(** ** The data model *)

(** [SessionData]: a [StoredSession] with the bookkeeping fields.  [order]
    is optional (legacy sessions lack it, read as [s.order ?? 0]). *)
Record SessionData : Type := mkSession {
  id : string;
  name : string;
  domain : string;
  createdAt : Z;
  lastUsed : Z;
  order : option Z;
  payload : StoredSession
}.

(** [PopupState], without [currentTab] (only its id is used, as an argument
    of the messages). *)
Record PopupState : Type := mkState {
  currentDomain : string;
  sessions : list SessionData;
  activeSessions : gmap string string;
  currentRenameSessionId : string;
  currentDeleteSessionId : string
}.

Definition withSessions (st : PopupState) (l : list SessionData) : PopupState :=
  mkState (currentDomain st) l (activeSessions st)
          (currentRenameSessionId st) (currentDeleteSessionId st).

Definition withActiveSessions (st : PopupState) (m : gmap string string) : PopupState :=
  mkState (currentDomain st) (sessions st) m
          (currentRenameSessionId st) (currentDeleteSessionId st).

Inductive Outcome (A : Type) : Type :=
  | Returned (value : A) (st : PopupState)
  | Threw (e : ExtensionError) (st : PopupState).
Arguments Returned {A} _ _.
Arguments Threw {A} _ _.

Definition stateOf {A} (o : Outcome A) : PopupState :=
  match o with
  | Returned _ st => st
  | Threw _ st => st
  end.

Definition hasReturned {A} (o : Outcome A) : bool :=
  match o with
  | Returned _ _ => true
  | Threw _ _ => false
  end.

(** [await this.saveStorageData()], the last statement of the [try] of every
    operation, followed by the [return]: when the write is rejected the
    [catch] throws [new ExtensionError(handleError(error, ctx))], and the
    state is as the statements before the write have left it. *)
Definition awaitSave {A} (ctx : string) (written : WriteResult) (value : A)
    (st : PopupState) : Outcome A :=
  match written with
  | Written => Returned value st
  | WriteFailed m => Threw (mkError ctx m) st
  end.

(** ** Assignments to fields of a session object *)

Definition setName (v : string) (s : SessionData) : SessionData :=
  mkSession (id s) v (domain s) (createdAt s) (lastUsed s) (order s) (payload s).

Definition setLastUsed (t : Z) (s : SessionData) : SessionData :=
  mkSession (id s) (name s) (domain s) (createdAt s) t (order s) (payload s).

Definition setOrder (k : Z) (s : SessionData) : SessionData :=
  mkSession (id s) (name s) (domain s) (createdAt s) (lastUsed s) (Some k) (payload s).

(** [const o = l.find(P); if (o) o.field = ...]: the first element that
    satisfies [P] is updated where it stands. *)
Definition mutateFound (P : SessionData → Prop) `{∀ s, Decision (P s)}
    (f : SessionData → SessionData) (l : list SessionData) : list SessionData :=
  match list_find P l with
  | Some (i, s) => <[i := f s]> l
  | None => l
  end.

(** [s.order ?? 0] *)
Definition orderOrZero (s : SessionData) : Z := default 0%Z (order s).

(** [Math.max(...l)] for a non-empty [l], started from its first element. *)
Definition mathMax (x : Z) (l : list Z) : Z := foldr Z.max x l.

(** ** The operations of [PopupService] *)

(** [this.state.sessions.filter((s) => s.domain === this.state.currentDomain)] *)
Definition domainSessions (st : PopupState) : list SessionData :=
  filter (λ s, domain s = currentDomain st) (sessions st).

(** [saveCurrentSession(name)].  The name is validated, the current session
    is asked from the background script, and the new session
    [{...storedSession, id: generateId(), name: validatedName, domain:
    currentDomain, createdAt: Date.now(), lastUsed: Date.now(), order:
    maxOrder + 1}] is pushed and made active for the current domain, then
    the state is written.  The [throw]s of the validation and of the
    capture precede the first assignment; the rejection of the write
    follows the last. *)
Definition saveCurrentSession (name0 : string)
    (response : MessageResponse StoredSession) (generatedId : string)
    (now1 now2 : Z) (written : WriteResult) (st : PopupState)
    : Outcome SessionData :=
  let ctx := "PopupService.saveCurrentSession" in
  match validateSessionName name0 with
  | Invalid m => Threw (mkError ctx m) st
  | Valid validatedName =>
      if negb (success response)
      then Threw (mkError ctx (errorOr (error response) "Failed to get current session")) st
      else
        let storedSession := default storedSessionDefaultValue (data response) in
        let maxOrder :=
          match orderOrZero <$> domainSessions st with
          | [] => (-1)%Z
          | o :: os => mathMax o os
          end in
        let newSession :=
          mkSession generatedId validatedName (currentDomain st)
                    now1 now2 (Some (maxOrder + 1)%Z) storedSession in
        awaitSave ctx written newSession
          (withActiveSessions (withSessions st (sessions st ++ [newSession]))
             (<[currentDomain st := id newSession]> (activeSessions st)))
  end.

(** [overwriteSessionWithCurrent(sessionId, name?)]: not found, then the
    guard on the domain, then the validation of the name when one is given,
    then the capture; [Object.assign] writes the payload, the preserved
    [id], [order], [createdAt], [domain], then [name] and [lastUsed] into
    the object found; the pointer of the current domain is set, and the
    state is written. *)
Definition overwriteSessionWithCurrent (sessionId : string) (name0 : option string)
    (response : MessageResponse StoredSession) (now : Z)
    (written : WriteResult) (st : PopupState) : Outcome unit :=
  let ctx := "PopupService.overwriteSessionWithCurrent" in
  match list_find (λ s, id s = sessionId) (sessions st) with
  | None => Threw (mkError ctx "Session not found") st
  | Some (i, session) =>
      if decide (domain session ≠ currentDomain st)
      then Threw (mkError ctx "Cannot overwrite a session from a different domain") st
      else
        match (match name0 with
               | Some n => validateSessionName n
               | None => Valid (name session)
               end) with
        | Invalid m => Threw (mkError ctx m) st
        | Valid validatedName =>
            if negb (success response)
            then Threw (mkError ctx (errorOr (error response) "Failed to get current session")) st
            else
              let storedSession := default storedSessionDefaultValue (data response) in
              (* Object.assign(session, storedSession, preserved, {name, lastUsed}) *)
              let session' :=
                mkSession (id session) validatedName (domain session)
                          (createdAt session) now (order session) storedSession in
              awaitSave ctx written tt
                (withActiveSessions (withSessions st (<[i := session']> (sessions st)))
                   (<[currentDomain st := id session]> (activeSessions st)))
        end
  end.

(** [switchToSession(sessionId)]: the session is looked up by id only;
    [activeSessions[currentDomain] = sessionId; session.lastUsed =
    Date.now()], then the write. *)
Definition switchToSession (sessionId : string)
    (response : MessageResponse StoredSession) (now : Z)
    (written : WriteResult) (st : PopupState) : Outcome unit :=
  let ctx := "PopupService.switchToSession" in
  match list_find (λ s, id s = sessionId) (sessions st) with
  | None => Threw (mkError ctx "Session not found") st
  | Some (i, session) =>
      if negb (success response)
      then Threw (mkError ctx (errorOr (error response) "Failed to switch session")) st
      else
        awaitSave ctx written tt
          (withSessions
             (withActiveSessions st (<[currentDomain st := sessionId]> (activeSessions st)))
             (<[i := setLastUsed now session]> (sessions st)))
  end.

(** [createNewSession()]: [delete activeSessions[currentDomain]], then the
    write. *)
Definition createNewSession (response : MessageResponse StoredSession)
    (written : WriteResult) (st : PopupState) : Outcome unit :=
  let ctx := "PopupService.createNewSession" in
  if negb (success response)
  then Threw (mkError ctx (errorOr (error response) "Failed to clear session")) st
  else awaitSave ctx written tt
         (withActiveSessions st (delete (currentDomain st) (activeSessions st))).

(** [findSessionByName(domain, name, excludeId?)] *)
Definition isNameMatch (domain0 target : string) (excludeId : option string)
    (s : SessionData) : Prop :=
  domain s = domain0 ∧ Some (id s) ≠ excludeId ∧ normalizeName (name s) = target.

Definition findSessionByName (st : PopupState) (domain0 name0 : string)
    (excludeId : option string) : option SessionData :=
  let target := normalizeName name0 in
  snd <$> list_find (isNameMatch domain0 target excludeId) (sessions st).

(** [renameSession(sessionId, newName, overwrite = false)].  The conflict
    is looked up in the domain of the session renamed, under the validated
    name; with [overwrite] the sessions with the id of the conflict are
    filtered out and the active pointer of that domain, when it is the id
    of the conflict, is set to [sessionId]; the name is assigned and the
    state is written. *)
Definition renameSession (sessionId newName : string) (overwrite : bool)
    (written : WriteResult) (st : PopupState) : Outcome unit :=
  let ctx := "PopupService.renameSession" in
  match list_find (λ s, id s = sessionId) (sessions st) with
  | None => Threw (mkError ctx "Session not found") st
  | Some (_, session) =>
      match validateSessionName newName with
      | Invalid m => Threw (mkError ctx m) st
      | Valid validatedName =>
          let domain0 := domain session in
          match findSessionByName st domain0 validatedName (Some sessionId) with
          | Some conflict =>
              if negb overwrite
              then Threw (mkError ctx "Session name already exists") st
              else
                let st1 :=
                  withSessions st (filter (λ s, id s ≠ id conflict) (sessions st)) in
                let st2 :=
                  if decide (activeSessions st1 !! domain0 = Some (id conflict))
                  then withActiveSessions st1 (<[domain0 := sessionId]> (activeSessions st1))
                  else st1 in
                (* [session] is the object found above; the filtered array
                   holds the same object, still the first with this id *)
                awaitSave ctx written tt
                  (withSessions st2
                     (mutateFound (λ s, id s = sessionId) (setName validatedName)
                        (sessions st2)))
          | None =>
              awaitSave ctx written tt
                (withSessions st
                   (mutateFound (λ s, id s = sessionId) (setName validatedName)
                      (sessions st)))
          end
      end
  end.

(** [deleteSession(sessionId)]: the sessions with this id are filtered out
    and [activeSessions[currentDomain]] is deleted when it is this id; then
    the state is written, which is the only statement that can throw. *)
Definition deleteSession (sessionId : string) (written : WriteResult)
    (st : PopupState) : Outcome unit :=
  let ctx := "PopupService.deleteSession" in
  let st1 := withSessions st (filter (λ s, id s ≠ sessionId) (sessions st)) in
  let st2 :=
    if decide (activeSessions st1 !! currentDomain st1 = Some sessionId)
    then withActiveSessions st1 (delete (currentDomain st1) (activeSessions st1))
    else st1 in
  awaitSave ctx written tt st2.

(** [sessionIds.forEach((id, index) => { const session =
    domainSessions.find((s) => s.id === id); if (session) session.order =
    index; })].  The objects of [domainSessions] are those of
    [state.sessions]: the first session of the current domain with this id
    is updated in the store. *)
Fixpoint reorderLoop (cur : string) (sessionIds : list string) (index : nat)
    (l : list SessionData) : list SessionData :=
  match sessionIds with
  | [] => l
  | i :: rest =>
      reorderLoop cur rest (S index)
        (mutateFound (λ s, domain s = cur ∧ id s = i) (setOrder (Z.of_nat index)) l)
  end.

(** [reorderSessions(sessionIds)]: the length is compared with the number of
    sessions of the current domain, then every session of the domain must
    have its id in [new Set(sessionIds)], then the loop assigns the
    orders and the state is written. *)
Definition reorderSessions (sessionIds : list string) (written : WriteResult)
    (st : PopupState) : Outcome unit :=
  let ctx := "PopupService.reorderSessions" in
  let domainSessions0 := domainSessions st in
  if decide (length sessionIds ≠ length domainSessions0)
  then Threw (mkError ctx "Session count mismatch during reorder operation") st
  else
    let sessionIdsSet : gset string := list_to_set sessionIds in
    if decide (Forall (λ s, id s ∈ sessionIdsSet) domainSessions0)
    then awaitSave ctx written tt
           (withSessions st (reorderLoop (currentDomain st) sessionIds 0 (sessions st)))
    else Threw (mkError ctx "Invalid session IDs provided for reorder operation") st.

(** ** The import merge

    [mergeSessions(importedSessions)] reads and writes the [sessions] key of
    [chrome.storage.local]; [stored] is the array found there, [None] when
    the key holds no array.  The result is the value of the key afterwards. *)
Definition mergeSessions (stored : option (list SessionData))
    (importedSessions : list SessionData) : option (list SessionData) :=
  let existing := default [] stored in
  if decide (length importedSessions = 0)%nat then stored
  else
    (* new Set(importedSessions.map((s) => s.domain).filter(Boolean)) *)
    let importedDomains : gset string :=
      list_to_set (filter (λ d, d ≠ "") (domain <$> importedSessions)) in
    let keptSessions := filter (λ s, domain s ∉ importedDomains) existing in
    Some (keptSessions ++ importedSessions).

End PopupService.

Arguments Returned {_ _} _ _.
Arguments Threw {_ _} _ _.

(** ** The operations as labelled transitions *)

Section Transitions.

Context `{Imports}.

(** One call of the service, with the answers the outside world gives it. *)
Inductive Operation : Type :=
  | Save (name0 : string) (response : MessageResponse StoredSession)
         (generatedId : string) (now1 now2 : Z) (written : WriteResult)
  | Switch (sessionId : string) (response : MessageResponse StoredSession) (now : Z)
           (written : WriteResult)
  | CreateNew (response : MessageResponse StoredSession) (written : WriteResult)
  | Rename (sessionId newName : string) (overwrite : bool) (written : WriteResult)
  | Overwrite (sessionId : string) (name0 : option string)
              (response : MessageResponse StoredSession) (now : Z)
              (written : WriteResult)
  | Delete (sessionId : string) (written : WriteResult)
  | Reorder (sessionIds : list string) (written : WriteResult).

(** The state the service is left in, whether the call returned or threw. *)
Definition run (op : Operation) (st : PopupState) : PopupState :=
  match op with
  | Save n r g t1 t2 w => stateOf (saveCurrentSession n r g t1 t2 w st)
  | Switch i r t w => stateOf (switchToSession i r t w st)
  | CreateNew r w => stateOf (createNewSession r w st)
  | Rename i n o w => stateOf (renameSession i n o w st)
  | Overwrite i n r t w => stateOf (overwriteSessionWithCurrent i n r t w st)
  | Delete i w => stateOf (deleteSession i w st)
  | Reorder l w => stateOf (reorderSessions l w st)
  end.

(** The outcome of the write of the call. *)
Definition writeResult (op : Operation) : WriteResult :=
  match op with
  | Save _ _ _ _ _ w | Switch _ _ _ w | CreateNew _ w | Rename _ _ _ w
  | Overwrite _ _ _ _ w | Delete _ w | Reorder _ w => w
  end.

(** The same call with another outcome of its write. *)
Definition withWrite (w : WriteResult) (op : Operation) : Operation :=
  match op with
  | Save n r g t1 t2 _ => Save n r g t1 t2 w
  | Switch i r t _ => Switch i r t w
  | CreateNew r _ => CreateNew r w
  | Rename i n o _ => Rename i n o w
  | Overwrite i n r t _ => Overwrite i n r t w
  | Delete i _ => Delete i w
  | Reorder l _ => Reorder l w
  end.

(** [Session.id] is unique in the store. *)
Definition idsUnique (st : PopupState) : Prop :=
  NoDup (id <$> sessions st).

(** [ActiveSessions[d]], if present, is the id of a stored session of
    domain [d]. *)
Definition activeSessionsValid (st : PopupState) : Prop :=
  ∀ d i, activeSessions st !! d = Some i →
    ∃ s, s ∈ sessions st ∧ id s = i ∧ domain s = d.

(** No session of another domain than the current one has id [i]: what the
    popup guarantees, which lists the sessions of the current domain only. *)
Definition ofCurrentDomain (st : PopupState) (i : string) : Prop :=
  ∀ s, s ∈ sessions st → id s = i → domain s = currentDomain st.

Definition scoped (st : PopupState) (op : Operation) : Prop :=
  match op with
  | Switch i _ _ _ => ofCurrentDomain st i
  | Delete i _ => ofCurrentDomain st i
  | _ => True
  end.

(** Two sessions of domain [cur] with the same id stand at the same place. *)
Definition domainIdsInjective (cur : string) (l : list SessionData) : Prop :=
  ∀ i j s t, l !! i = Some s → l !! j = Some t →
    domain s = cur → domain t = cur → id s = id t → i = j.

(** The id that [generateId()] returns to a save is not in the store. *)
Definition freshId (st : PopupState) (op : Operation) : Prop :=
  match op with
  | Save _ _ generatedId _ _ _ => generatedId ∉ id <$> sessions st
  | _ => True
  end.

(** A session of the domain of [session], other than [sessionId], whose name
    matches [newName] once both are trimmed and lowercased. *)
Definition conflictsWith (session : SessionData) (sessionId newName : string)
    (c : SessionData) : Prop :=
  domain c = domain session ∧ id c ≠ sessionId ∧
  normalizeName (name c) = normalizeName newName.

(** [k] is one more than the greatest order among [l], or 0 when [l] is
    empty. *)
Definition nextOrder (l : list SessionData) (k : Z) : Prop :=
  (l = [] ∧ k = 0%Z) ∨
  ((∃ s, s ∈ l ∧ k = (orderOrZero s + 1)%Z) ∧ ∀ s, s ∈ l → (orderOrZero s < k)%Z).

End Transitions.

(** ** The rest of the service, and the export *)

Section Popup.

Context `{Imports}.

(** [getSession(sessionId)]:
    [this.state.sessions.find((s) => s.id === sessionId)]. *)
Definition getSession (st : PopupState) (sessionId : string) : option SessionData :=
  snd <$> list_find (λ s, id s = sessionId) (sessions st).

(** Whether the call returned rather than threw. *)
Definition returned (op : Operation) (st : PopupState) : bool :=
  match op with
  | Save n r g t1 t2 w => hasReturned (saveCurrentSession n r g t1 t2 w st)
  | Switch i r t w => hasReturned (switchToSession i r t w st)
  | CreateNew r w => hasReturned (createNewSession r w st)
  | Rename i n o w => hasReturned (renameSession i n o w st)
  | Overwrite i n r t w => hasReturned (overwriteSessionWithCurrent i n r t w st)
  | Delete i w => hasReturned (deleteSession i w st)
  | Reorder l w => hasReturned (reorderSessions l w st)
  end.

(** [getExportScope()]: ["current" | "all"]. *)
Inductive ExportScope : Type :=
  | ScopeCurrent
  | ScopeAll.

(** [buildExportData(scope)], and the [exportData] of [exportSessions(scope)],
    which is computed in the same way: the array under the [sessions] key of
    the storage ([stored], [None] when the key holds no array), restricted
    to the current domain for the scope ["current"]. *)
Definition buildExportData (scope : ExportScope)
    (stored : option (list SessionData)) (currentDomain0 : string) : list SessionData :=
  let allSessions := default [] stored in
  match scope with
  | ScopeAll => allSessions
  | ScopeCurrent => filter (λ s, domain s = currentDomain0) allSessions
  end.

(** *** Loading the storage

    [migrateLegacySessions()] groups the sessions by domain in a
    [Map<string, SessionData[]>] and numbers, in each group, the sessions
    that have no [order].  The arrays of the map hold the objects of
    [state.sessions] themselves: here an object is designated by its
    position in [state.sessions], and the map is the list of its entries in
    the order of insertion. *)

(** [if (!map.has(d)) map.set(d, []); map.get(d)!.push(p)] *)
Fixpoint groupPush (d : string) (p : nat) (m : list (string * list nat))
    : list (string * list nat) :=
  match m with
  | [] => [(d, [p])]
  | (d', ps) :: m' =>
      if decide (d' = d) then (d', ps ++ [p]) :: m'
      else (d', ps) :: groupPush d p m'
  end.

(** [this.state.sessions.forEach((session) => ...)], from position [p] on. *)
Fixpoint groupSessions (p : nat) (l : list SessionData)
    (m : list (string * list nat)) : list (string * list nat) :=
  match l with
  | [] => m
  | s :: l' => groupSessions (S p) l' (groupPush (domain s) p m)
  end.

(** [if (session.order === undefined) { session.order = index;
    migrationPerformed = true; }] for the object at position [p]. *)
Definition migrateSession (index p : nat) (acc : list SessionData * bool)
    : list SessionData * bool :=
  match acc.1 !! p with
  | Some s =>
      match order s with
      | None => (<[p := setOrder (Z.of_nat index) s]> acc.1, true)
      | Some _ => acc
      end
  | None => acc
  end.

(** [sessions.forEach((session, index) => ...)], from [index] on. *)
Fixpoint migrateGroup (index : nat) (ps : list nat)
    (acc : list SessionData * bool) : list SessionData * bool :=
  match ps with
  | [] => acc
  | p :: ps' => migrateGroup (S index) ps' (migrateSession index p acc)
  end.

(** [sessionsByDomain.forEach((sessions) => ...)] *)
Fixpoint migrateGroups (m : list (string * list nat))
    (acc : list SessionData * bool) : list SessionData * bool :=
  match m with
  | [] => acc
  | (_, ps) :: m' => migrateGroups m' (migrateGroup 0 ps acc)
  end.

(** [migrateLegacySessions()]: the value returned ([migrationPerformed])
    and the state afterwards. *)
Definition migrateLegacySessions (st : PopupState) : bool * PopupState :=
  let result :=
    migrateGroups (groupSessions 0 (sessions st) []) (sessions st, false) in
  (result.2, withSessions st result.1).

(** What [chrome.storage.local] holds under the key of the sessions:
    nothing or a falsy value, a truthy value that is not an array (the
    object [{}] that "clear all" writes), or an array of sessions. *)
Inductive StoredSessions : Type :=
  | SessionsFalsy
  | SessionsNotArray
  | SessionsArray (l : list SessionData).

(** The two keys of the storage, [sessions] and [active_sessions]
    ([STORAGE_KEYS], which the sources do not include, names them; the
    export and the import read and write the first one as ["sessions"]).
    A falsy value under the second key is [None]. *)
Record ExtensionStorage : Type := mkStorage {
  storedSessions : StoredSessions;
  storedActiveSessions : option (gmap string string)
}.

(** [Array.isArray(sessions) ? sessions : []] reads through this. *)
Definition storedArray (v : StoredSessions) : option (list SessionData) :=
  match v with
  | SessionsArray l => Some l
  | _ => None
  end.

(** [saveStorageData()]: what is written. *)
Definition saveStorageData (st : PopupState) : ExtensionStorage :=
  mkStorage (SessionsArray (sessions st)) (Some (activeSessions st)).

(** [loadStorageData()]: the state afterwards and the storage afterwards.
    [result[SESSIONS] || []] keeps a truthy value that is not an array; the
    migration then calls [forEach] on it, which throws, and the [catch]
    empties the sessions and the active pointers.  The same [catch] runs
    when reading the storage fails ([storage] is [None]), and when the
    write that follows a migration is rejected. *)
Definition loadStorageData (storage : option ExtensionStorage)
    (written : WriteResult) (st : PopupState)
    : PopupState * option ExtensionStorage :=
  let emptied := withActiveSessions (withSessions st []) ∅ in
  match storage with
  | None => (emptied, None)
  | Some stg =>
      match storedSessions stg with
      | SessionsNotArray => (emptied, Some stg)
      | v =>
          let st1 :=
            withActiveSessions
              (withSessions st (default [] (storedArray v)))
              (default ∅ (storedActiveSessions stg)) in
          let migration := migrateLegacySessions st1 in
          if migration.1
          then
            match written with
            | Written => (migration.2, Some (saveStorageData migration.2))
            | WriteFailed _ => (emptied, Some stg)
            end
          else (migration.2, Some stg)
      end
  end.

(** The click on "clear all": [chrome.storage.local.set({ sessions: {} })]. *)
Definition confirmClearAll (stg : ExtensionStorage) : ExtensionStorage :=
  mkStorage SessionsNotArray (storedActiveSessions stg).

(** [mergeSessions] on the whole storage: it reads and writes the key of
    the sessions only. *)
Definition importSessions (importedSessions : list SessionData)
    (stg : ExtensionStorage) : ExtensionStorage :=
  match mergeSessions (storedArray (storedSessions stg)) importedSessions with
  | Some l => mkStorage (SessionsArray l) (storedActiveSessions stg)
  | None => stg
  end.

(** *** The list that the popup shows

    [SessionList.render(sessions, activeSessions, currentDomain)] shows
    [sessions.filter((s) => s.domain === currentDomain).sort((a, b) =>
    (a.order ?? 0) - (b.order ?? 0))].  [Array.prototype.sort] is stable, so
    what it returns for this comparator does not depend on the algorithm:
    it is the list that insertion builds, a session going before the first
    one whose order is not smaller. *)
Fixpoint insertByOrder (s : SessionData) (l : list SessionData) : list SessionData :=
  match l with
  | [] => [s]
  | t :: l' =>
      if decide (orderOrZero s ≤ orderOrZero t)%Z then s :: t :: l'
      else t :: insertByOrder s l'
  end.

Definition sortByOrder (l : list SessionData) : list SessionData :=
  foldr insertByOrder [] l.

Definition displayedSessions (sessions0 : list SessionData)
    (currentDomain0 : string) : list SessionData :=
  sortByOrder (filter (λ s, domain s = currentDomain0) sessions0).

(** [renderSessionsList()] of the controller renders the state of the
    service. *)
Definition displayed (st : PopupState) : list SessionData :=
  displayedSessions (sessions st) (currentDomain st).

(** Two sessions that the list does not tell apart by place: same id, same
    domain, same order. *)
Definition sameRow (s s' : SessionData) : Prop :=
  id s = id s' ∧ domain s = domain s' ∧ order s = order s'.

(** The operations that remove no session and touch no order. *)
Definition keepsRows (op : Operation) : Prop :=
  match op with
  | Switch _ _ _ _ | CreateNew _ _ | Overwrite _ _ _ _ _ | Rename _ _ false _ => True
  | _ => False
  end.

(** *** The "overwrite" button of the rename dialog *)

(** [setState({ currentRenameSessionId: v })] *)
Definition setCurrentRenameSessionId (v : string) (st : PopupState) : PopupState :=
  mkState (currentDomain st) (sessions st) (activeSessions st)
          v (currentDeleteSessionId st).

(** [PopupController.findSessionByNameInCurrentDomain(name, excludeId)] *)
Definition findSessionByNameInCurrentDomain (st : PopupState) (name0 : string)
    (excludeId : option string) : option SessionData :=
  let target := normalizeName name0 in
  snd <$> list_find (isNameMatch (currentDomain st) target excludeId) (sessions st).

(** [PopupController.handleOverwriteRename()], [newName] being what the
    dialog holds.  With an empty name or no session selected the dialog is
    closed and nothing else happens.  Otherwise the conflicting session, if
    there is one, is deleted, then the selected session is overwritten in
    place under the new name; an error of the service, in either call, is
    caught and shown ([Threw]), what follows the call being skipped and the
    selection kept.  [written1] and [written2] are the outcomes of the
    writes of the two calls; the first is not consulted when there is no
    conflicting session. *)
Definition handleOverwriteRename (newName : string)
    (response : MessageResponse StoredSession) (now : Z)
    (written1 written2 : WriteResult) (st : PopupState) : Outcome unit :=
  let selected := currentRenameSessionId st in
  if decide (newName = String.EmptyString ∨ selected = String.EmptyString)
  then Returned tt st
  else
    match (match findSessionByNameInCurrentDomain st newName (Some selected) with
           | Some conflict => deleteSession (id conflict) written1 st
           | None => Returned tt st
           end) with
    | Threw e st1 => Threw (mkError "overwrite session" (message e)) st1
    | Returned _ st1 =>
        match overwriteSessionWithCurrent selected (Some newName) response now
                written2 st1 with
        | Returned _ st2 => Returned tt (setCurrentRenameSessionId String.EmptyString st2)
        | Threw e st2 => Threw (mkError "overwrite session" (message e)) st2
        end
    end.

(** The same handler in the other copy of the controller among the sources
    ([unnamed/part_000]): after the conflicting session, the selected
    session is deleted too, and the current session is saved under the new
    name.  [written1], [written2] and [written3] are the outcomes of the
    writes of the three calls. *)
Definition handleOverwriteRenameBySaving (newName : string)
    (response : MessageResponse StoredSession) (generatedId : string)
    (now1 now2 : Z) (written1 written2 written3 : WriteResult)
    (st : PopupState) : Outcome unit :=
  let selected := currentRenameSessionId st in
  if decide (newName = String.EmptyString ∨ selected = String.EmptyString)
  then Returned tt st
  else
    match (match findSessionByNameInCurrentDomain st newName (Some selected) with
           | Some conflict => deleteSession (id conflict) written1 st
           | None => Returned tt st
           end) with
    | Threw e st1 => Threw (mkError "overwrite session" (message e)) st1
    | Returned _ st1 =>
        match deleteSession selected written2 st1 with
        | Threw e st2 => Threw (mkError "overwrite session" (message e)) st2
        | Returned _ st2 =>
            match saveCurrentSession newName response generatedId now1 now2
                    written3 st2 with
            | Returned _ st3 =>
                Returned tt (setCurrentRenameSessionId String.EmptyString st3)
            | Threw e st3 => Threw (mkError "overwrite session" (message e)) st3
            end
        end
    end.

(** *** The text that is shown, and the name of the exported file *)

(** The replacement that [escapeHtml] makes for one character:
    [map[ch] ?? ch] for a character of the pattern (ampersand, less-than,
    greater-than, double quote, single quote), the character itself
    otherwise.  The double quote is character 34. *)
Definition escapeChar (ch : ascii) : string :=
  if Ascii.eqb ch "&" then "&amp;"
  else if Ascii.eqb ch "<" then "&lt;"
  else if Ascii.eqb ch ">" then "&gt;"
  else if Ascii.eqb ch "034" then "&quot;"
  else if Ascii.eqb ch "'" then "&#39;"
  else String ch EmptyString.

(** [escapeHtml(value)]. *)
Fixpoint escapeHtml (value : string) : string :=
  match value with
  | EmptyString => EmptyString
  | String ch rest => String.append (escapeChar ch) (escapeHtml rest)
  end.

(** [s] without the prefix [p], when it starts with [p]. *)
Fixpoint dropPrefix (p s : string) : option string :=
  match p, s with
  | EmptyString, _ => Some s
  | String a p', String b s' => if Ascii.eqb a b then dropPrefix p' s' else None
  | String _ _, EmptyString => None
  end.

(** The first [replace]: a leading [http://] or [https://] is removed. *)
Definition stripScheme (fileName : string) : string :=
  match dropPrefix "http://" fileName with
  | Some rest => rest
  | None => default fileName (dropPrefix "https://" fileName)
  end.

(** The class of the second [replace]: slash, backslash, [?], [%], [*],
    [:], [|], double quote, [<] and [>]. *)
Definition isForbiddenChar (ch : ascii) : bool :=
  existsb (Ascii.eqb ch)
    ["/"; "\"; "?"; "%"; "*"; ":"; "|"; "034"; "<"; ">"]%char.

(** The second [replace]: each of these characters becomes a dash. *)
Fixpoint dashForbidden (fileName : string) : string :=
  match fileName with
  | EmptyString => EmptyString
  | String ch rest =>
      String (if isForbiddenChar ch then "-"%char else ch) (dashForbidden rest)
  end.

(** The third [replace], of [\s+]: every maximal run of white space becomes
    one dash; [inRun] tells that the character before was white space. *)
Fixpoint dashSpaces (inRun : bool) (fileName : string) : string :=
  match fileName with
  | EmptyString => EmptyString
  | String ch rest =>
      if isWhiteSpace ch
      then (if inRun then dashSpaces true rest
            else String "-" (dashSpaces true rest))
      else String ch (dashSpaces false rest)
  end.

(** [sanitizeFileName(name)], local to [exportSessions]. *)
Definition sanitizeFileName (fileName : string) : string :=
  toLowerCase (dashSpaces false (dashForbidden (stripScheme fileName))).

(** The [download] attribute that [exportSessions(scope)] sets;
    [currentDomain || "unknown-site"] replaces the empty domain. *)
Definition downloadName (scope : ExportScope) (currentDomain0 : string) : string :=
  match scope with
  | ScopeAll => "BitXSessions-AllSessions.json"
  | ScopeCurrent =>
      let safeDomain :=
        sanitizeFileName
          (if decide (currentDomain0 = "") then "unknown-site" else currentDomain0) in
      String.append "BitXSessions-" (String.append safeDomain ".json")
  end.

(** [exportSessions(scope)]: the name and the content (before
    [JSON.stringify]) of the file downloaded, [None] when the function
    shows "No sessions found for current site." and returns. *)
Definition exportSessions (scope : ExportScope)
    (stored : option (list SessionData)) (currentDomain0 : string)
    : option (string * list SessionData) :=
  let exportData := buildExportData scope stored currentDomain0 in
  if decide (length exportData = 0)%nat then None
  else Some (downloadName scope currentDomain0, exportData).

(** *** Import by transfer code

    The module variables [cloudImportBlocked] and [cloudImportFailCount] and
    the [disabled] flag of the button [cloudImportBtn]. *)
Record TransferState : Type := mkTransfer {
  cloudImportBlocked : bool;
  cloudImportFailCount : nat;
  cloudImportBtnDisabled : bool
}.

Definition MAX_IMPORT_FAIL : nat := 5.

(** [closeTransfer()], on these three. *)
Definition closeTransfer (ts : TransferState) : TransferState :=
  mkTransfer false 0 false.

(** What the server's answer comes to in the click handler: [fetch] or
    [res.text()] rejects; [!res.ok] with [res.status]; or [res.ok], with
    [result.payload] when the text parses and the payload is an array
    ([None] otherwise: the handler throws and catches). *)
Inductive ImportReply : Type :=
  | ReplyFailed
  | ReplyNotOk (status : nat)
  | ReplyOk (payload : option (list SessionData)).

(** The [finally] of the click handler: the button is enabled again unless
    imports are blocked. *)
Definition enableUnlessBlocked (ts : TransferState) : TransferState :=
  if cloudImportBlocked ts
  then ts
  else mkTransfer (cloudImportBlocked ts) (cloudImportFailCount ts) false.

(** The click on [cloudImportBtn], with the text [code] of the input field
    and the answer [reply] to the request, on the transfer state and the
    extension's storage. *)
Definition cloudImportClick (code : string) (reply : ImportReply)
    (ts : TransferState) (stg : ExtensionStorage)
    : TransferState * ExtensionStorage :=
  if cloudImportBlocked ts then (ts, stg)
  else if decide (trim code = "") then (ts, stg)
  else
    (* cloudImportBtn.disabled = true *)
    let ts1 := mkTransfer (cloudImportBlocked ts) (cloudImportFailCount ts) true in
    match reply with
    | ReplyNotOk status =>
        if decide (status = 429)%nat
        then (enableUnlessBlocked (mkTransfer true (cloudImportFailCount ts1) true), stg)
        else if decide (status = 404)%nat
        then
          let failCount := S (cloudImportFailCount ts1) in
          if decide (MAX_IMPORT_FAIL ≤ failCount)%nat
          then (enableUnlessBlocked (mkTransfer true failCount true), stg)
          else (enableUnlessBlocked
                  (mkTransfer (cloudImportBlocked ts1) failCount
                     (cloudImportBtnDisabled ts1)), stg)
        else (enableUnlessBlocked ts1, stg)
    | ReplyOk (Some payload) =>
        (enableUnlessBlocked (closeTransfer ts1), importSessions payload stg)
    | ReplyOk None | ReplyFailed => (enableUnlessBlocked ts1, stg)
    end.

(** One click after the other, each with its code and its answer. *)
Definition cloudImportClicks (attempts : list (string * ImportReply))
    (ts : TransferState) (stg : ExtensionStorage)
    : TransferState * ExtensionStorage :=
  foldl (λ acc attempt, cloudImportClick attempt.1 attempt.2 acc.1 acc.2)
    (ts, stg) attempts.

(** An attempt that the server answers with 404, and one that it answers
    with 429; a click with a blank code sends nothing. *)
Definition isWrongCode (attempt : string * ImportReply) : bool :=
  match attempt.2 with
  | ReplyNotOk status => bool_decide (trim attempt.1 ≠ "" ∧ status = 404%nat)
  | _ => false
  end.

Definition isRateLimited (attempt : string * ImportReply) : bool :=
  match attempt.2 with
  | ReplyNotOk status => bool_decide (trim attempt.1 ≠ "" ∧ status = 429%nat)
  | _ => false
  end.

Definition isImported (attempt : string * ImportReply) : bool :=
  match attempt.2 with
  | ReplyOk (Some _) => true
  | _ => false
  end.

(** The characters of a string. *)
Fixpoint chars (s : string) : list ascii :=
  match s with
  | EmptyString => []
  | String ch rest => ch :: chars rest
  end.

(** *** Orders within a domain *)

(** Two sessions that would share a place of the list: same domain, same
    order ([s.order ?? 0]). *)
Definition sameSlot (s t : SessionData) : Prop :=
  domain s = domain t ∧ orderOrZero s = orderOrZero t.

(** No two sessions of the list are related by [R]. *)
Definition apartBy (R : SessionData → SessionData → Prop)
    (l : list SessionData) : Prop :=
  ∀ i j s t, l !! i = Some s → l !! j = Some t → R s t → i = j.

(** Within a domain, the orders of the sessions are distinct. *)
Definition ordersDistinct (st : PopupState) : Prop :=
  apartBy sameSlot (sessions st).

(** *** What the proofs about the migration speak of *)

(** The positions, counted from [p], of the sessions of domain [d]. *)
Fixpoint positionsFrom (d : string) (p : nat) (l : list SessionData) : list nat :=
  match l with
  | [] => []
  | s :: l' =>
      if decide (domain s = d) then p :: positionsFrom d (S p) l'
      else positionsFrom d (S p) l'
  end.

(** The array of the map under the key [d]. *)
Fixpoint groupOf (d : string) (m : list (string * list nat)) : list nat :=
  match m with
  | [] => []
  | (d', ps) :: m' => if decide (d' = d) then ps else groupOf d m'
  end.

(** How many sessions of domain [d] stand before position [q]. *)
Definition countBefore (d : string) (q : nat) (l : list SessionData) : nat :=
  length (filter (λ s, domain s = d) (take q l)).

(** The session numbered at place [index] of a group. *)
Definition numbered (index : nat) (s : SessionData) : SessionData :=
  match order s with
  | Some _ => s
  | None => setOrder (Z.of_nat index) s
  end.

(** The session at position [q] after the migration. *)
Definition migrated (l : list SessionData) (q : nat) (s : SessionData) : SessionData :=
  match order s with
  | Some _ => s
  | None => setOrder (Z.of_nat (countBefore (domain s) q l)) s
  end.

End Popup.

(** ** A concrete instance

    Payloads are cookie strings, the default payload is the empty one, and
    names are validated by [validateTrimmed] with a bound of 50
    characters. *)

#[local] Instance exampleImports : Imports := {|
  StoredSession := string;
  storedSessionDefaultValue := "";
  validateSessionName := validateTrimmed 50
|}.

Definition captured (cookies : string) : MessageResponse string :=
  mkResponse true (Some cookies) None.

Definition capturedNothing : MessageResponse string :=
  mkResponse true None None.

Definition sessionA : SessionData := mkSession "a" "work" "example.com" 10 10 (Some 0%Z) "cookie-a".
Definition sessionB : SessionData := mkSession "b" "home" "example.com" 20 20 (Some 1%Z) "cookie-b".
Definition sessionA' : SessionData := mkSession "a2" " Work" "example.com" 30 30 (Some 2%Z) "cookie-a2".
Definition sessionX : SessionData := mkSession "x" "mail" "other.org" 40 40 (Some 0%Z) "cookie-x".

(** The two-session domain of the specification's scenarios, with a second
    domain beside it; the popup is open on [example.com]. *)
Definition exampleState : PopupState :=
  mkState "example.com" [sessionA; sessionB; sessionX]
          (<["example.com" := "a"]> (<["other.org" := "x"]> ∅)) "" "".

(** The same store with a second session named like [sessionA]. *)
Definition twoNamesakes : PopupState :=
  mkState "example.com" [sessionA; sessionA'; sessionB]
          (<["example.com" := "a"]> ∅) "" "".

(** Two sessions saved on a page whose URL has no host: their domain is the
    empty string. *)
Definition blankDomainStored : SessionData := mkSession "e" "local" "" 1 1 (Some 0%Z) "cookie-e".
Definition blankDomainImported : SessionData := mkSession "i" "file" "" 2 2 (Some 0%Z) "cookie-i".

(** The store of [exampleState] with, in place of [sessionX], a session of
    [other.org] whose order is greater than the orders of [example.com]. *)
Definition sessionY : SessionData := mkSession "y" "mail" "other.org" 40 40 (Some 7%Z) "cookie-y".

Definition busyElsewhere : PopupState :=
  mkState "example.com" [sessionA; sessionY; sessionB]
          (<["example.com" := "a"]> ∅) "" "".

(** Two sessions of one domain under one id, as a file that is imported can
    hold them. *)
Definition sessionE : SessionData := mkSession "e" "first" "example.com" 50 50 (Some 5%Z) "cookie-e1".
Definition sessionE' : SessionData := mkSession "e" "second" "example.com" 60 60 (Some 6%Z) "cookie-e2".

Definition twins : PopupState :=
  mkState "example.com" [sessionE; sessionE'] ∅ "" "".

(** The popup before it has loaded anything, and a storage that holds
    nothing. *)
Definition unloaded : PopupState := mkState "example.com" [] ∅ "" "".

Definition emptyStorage : ExtensionStorage := mkStorage SessionsFalsy None.

(** A capture that the background script refuses. *)
Definition captureRefused : MessageResponse string :=
  mkResponse false None (Some "No active tab").

(** [exampleState] with the rename dialog open on [sessionB]. *)
Definition renamingB : PopupState := setCurrentRenameSessionId "b" exampleState.

(** The storage in which the store of [exampleState] has been saved. *)
Definition exampleStorage : ExtensionStorage := saveStorageData exampleState.

(** The transfer dialog after four wrong codes. *)
Definition fourWrongCodes : TransferState := mkTransfer false 4 false.

(** * Properties *)

(** ** Trimming and validation *)

Lemma trimStart_noLeadingSpace s : noLeadingSpace (trimStart s).
Proof.
  induction s as [|c s IH]; simpl; [exact I|].
  destruct (isWhiteSpace c) eqn:Hc; [exact IH | exact Hc].
Qed.

Lemma trimStart_fixed s : noLeadingSpace s → trimStart s = s.
Proof. destruct s as [|c s]; simpl; [reflexivity|]. intros ->. reflexivity. Qed.

Lemma trimEnd_noLeadingSpace s : noLeadingSpace s → noLeadingSpace (trimEnd s).
Proof.
  destruct s as [|c s]; simpl; [trivial|]. intros Hc.
  destruct (trimEnd s); [rewrite Hc|]; exact Hc.
Qed.

Lemma trimEnd_idemp s : trimEnd (trimEnd s) = trimEnd s.
Proof.
  induction s as [|c s IH]; simpl; [reflexivity|].
  destruct (trimEnd s) as [|d t] eqn:Ht.
  - destruct (isWhiteSpace c) eqn:Hc; simpl; [reflexivity|]. rewrite Hc. reflexivity.
  - change (trimEnd (String c (String d t))) with
      (match trimEnd (String d t) with
       | EmptyString => if isWhiteSpace c then EmptyString else String c EmptyString
       | String d' t' => String c (String d' t')
       end).
    rewrite IH. reflexivity.
Qed.

Lemma trim_idemp s : trim (trim s) = trim s.
Proof.
  unfold trim.
  rewrite (trimStart_fixed (trimEnd (trimStart s))).
  - apply trimEnd_idemp.
  - apply trimEnd_noLeadingSpace, trimStart_noLeadingSpace.
Qed.

Lemma validateTrimmed_keeps_name maxLength : validationKeepsName (validateTrimmed maxLength).
Proof.
  intros n v. unfold validateTrimmed.
  repeat case_decide; try discriminate.
  intros [= <-]. unfold normalizeName. rewrite trim_idemp. reflexivity.
Qed.

Section Properties.

Context `{Imports}.

Implicit Types (st : PopupState) (s t c : SessionData) (l : list SessionData).

(** ** Finding and updating a session *)

Lemma mutateFound_length (P : SessionData → Prop) `{∀ s, Decision (P s)} f l :
  length (mutateFound P f l) = length l.
Proof.
  unfold mutateFound. destruct (list_find P l) as [[i s]|]; [|reflexivity].
  apply length_insert.
Qed.

(** The object found is replaced by its update; the others stay. *)
Lemma mutateFound_lookup (P : SessionData → Prop) `{∀ s, Decision (P s)} f l i s :
  l !! i = Some s →
  (list_find P l = Some (i, s) ∧ mutateFound P f l !! i = Some (f s)) ∨
  (list_find P l ≠ Some (i, s) ∧ mutateFound P f l !! i = Some s).
Proof.
  intros Hi. unfold mutateFound.
  destruct (list_find P l) as [[j t]|] eqn:Hf; [|by right].
  pose proof Hf as (Hj & HP & _)%list_find_Some.
  destruct (decide (j = i)) as [->|Hne].
  - left. assert (t = s) as -> by congruence.
    split; [done|]. apply list_lookup_insert_eq. by eapply lookup_lt_Some.
  - right. split; [congruence|]. by rewrite list_lookup_insert_ne.
Qed.

Lemma mutateFound_lookup_other (P : SessionData → Prop) `{∀ s, Decision (P s)} f l i s :
  l !! i = Some s → ¬ P s → mutateFound P f l !! i = Some s.
Proof.
  intros Hi HP.
  destruct (mutateFound_lookup P f l i s Hi) as [[Hf _]|[_ ?]]; [|done].
  apply list_find_Some in Hf as (_ & ? & _). done.
Qed.

Lemma mutateFound_elem_of_other (P : SessionData → Prop) `{∀ s, Decision (P s)} f l s :
  s ∈ l → ¬ P s → s ∈ mutateFound P f l.
Proof.
  intros [i Hi]%list_elem_of_lookup HP.
  eapply list_elem_of_lookup_2, mutateFound_lookup_other; eauto.
Qed.

(** Every element of the updated list is an element of the old one or the
    update of one that satisfied [P]. *)
Lemma mutateFound_elem_of_inv (P : SessionData → Prop) `{∀ s, Decision (P s)} f l s :
  s ∈ mutateFound P f l → s ∈ l ∨ ∃ t, t ∈ l ∧ P t ∧ s = f t.
Proof.
  unfold mutateFound.
  destruct (list_find P l) as [[j t]|] eqn:Hf; [|by left].
  apply list_find_Some in Hf as (Hj & HP & _).
  intros [i Hi]%list_elem_of_lookup.
  apply list_lookup_insert_Some in Hi as [(_ & Hs & _)|(_ & Hi)].
  - right. exists t. split_and!; [by eapply list_elem_of_lookup_2|done..].
  - left. by eapply list_elem_of_lookup_2.
Qed.

(** A witness for a property that the update keeps survives the update. *)
Lemma mutateFound_exists_keeps (P : SessionData → Prop) `{∀ s, Decision (P s)}
    (Q : SessionData → Prop) f l :
  (∀ t, Q t → Q (f t)) →
  (∃ s, s ∈ l ∧ Q s) → ∃ s, s ∈ mutateFound P f l ∧ Q s.
Proof.
  intros Hf (s & [i Hi]%list_elem_of_lookup & HQ).
  destruct (mutateFound_lookup P f l i s Hi) as [[_ Hl]|[_ Hl]].
  - exists (f s). split; [by eapply list_elem_of_lookup_2|auto].
  - exists s. split; [by eapply list_elem_of_lookup_2|auto].
Qed.

Lemma insert_exists_keeps (Q : SessionData → Prop) l i s s' :
  l !! i = Some s → (Q s → Q s') →
  (∃ t, t ∈ l ∧ Q t) → ∃ t, t ∈ <[i := s']> l ∧ Q t.
Proof.
  intros Hi Hs (t & [j Hj]%list_elem_of_lookup & HQ).
  destruct (decide (i = j)) as [->|Hne].
  - exists s'. split.
    + apply list_elem_of_insert. by eapply lookup_lt_Some.
    + apply Hs. congruence.
  - exists t. split; [|done].
    eapply list_elem_of_lookup_2. by rewrite list_lookup_insert_ne.
Qed.

(** The first element that satisfies [P] is still the first one after a
    filter that keeps it. *)
Lemma list_find_filter_keeps (P Q : SessionData → Prop)
    `{∀ s, Decision (P s)} `{∀ s, Decision (Q s)} l i s :
  list_find P l = Some (i, s) → Q s →
  ∃ j, list_find P (filter Q l) = Some (j, s).
Proof.
  revert i. induction l as [|x l IH]; intros i; simpl; [discriminate|].
  intros Hf HQ. case_decide as HPx.
  - injection Hf as <- <-. rewrite filter_cons_True by done.
    exists 0. simpl. by rewrite decide_True.
  - destruct (list_find P l) as [[k y]|] eqn:Hl; [|discriminate].
    injection Hf as <- <-.
    destruct (IH k eq_refl HQ) as [j Hj].
    destruct (decide (Q x)).
    + rewrite filter_cons_True by done. exists (S j). simpl.
      rewrite decide_False by done. by rewrite Hj.
    + rewrite filter_cons_False by done. by exists j.
Qed.

Lemma list_find_insert_found (P : SessionData → Prop) `{∀ s, Decision (P s)} l j s s' :
  list_find P l = Some (j, s) → P s' →
  list_find P (<[j := s']> l) = Some (j, s').
Proof.
  intros (Hj & _ & Hleast)%list_find_Some Hs'.
  apply list_find_Some. split_and!.
  - apply list_lookup_insert_eq. by eapply lookup_lt_Some.
  - done.
  - intros k y Hk Hlt. rewrite list_lookup_insert_ne in Hk by lia.
    by eapply Hleast.
Qed.

(** ** [Math.max] *)

Lemma mathMax_elem_of (x : Z) (zs : list Z) : mathMax x zs ∈ x :: zs.
Proof.
  induction zs as [|y zs IH]; simpl; [by left|].
  destruct (Z.max_spec y (mathMax x zs)) as [[_ ->]|[_ ->]].
  - apply elem_of_cons in IH as [->|?]; [by left|]. by do 2 right.
  - right. by left.
Qed.

Lemma mathMax_upper (x : Z) (zs : list Z) (y : Z) :
  y ∈ x :: zs → (y ≤ mathMax x zs)%Z.
Proof.
  induction zs as [|z zs IH]; simpl.
  - intros ->%list_elem_of_singleton. lia.
  - intros [->|[->|Hy]%elem_of_cons]%elem_of_cons.
    + etransitivity; [apply IH; by left|]. lia.
    + lia.
    + etransitivity; [apply IH; by right|]. lia.
Qed.

(** [maxOrder + 1] of [saveCurrentSession] is the next order of the domain. *)
Lemma nextOrder_maxOrder l :
  nextOrder l
    (match orderOrZero <$> l with
     | [] => (-1)%Z
     | o :: os => mathMax o os
     end + 1)%Z.
Proof.
  destruct (orderOrZero <$> l) as [|o os] eqn:Hl.
  - left. by apply fmap_nil_inv in Hl.
  - right. split.
    + pose proof (mathMax_elem_of o os) as Hin. rewrite <- Hl in Hin.
      apply list_elem_of_fmap in Hin as (s & Hs & Hin).
      exists s. split; [done|]. by rewrite Hs.
    + intros s Hs.
      assert (orderOrZero s ≤ mathMax o os)%Z; [|lia].
      apply mathMax_upper. rewrite <- Hl. by apply list_elem_of_fmap_2.
Qed.

(** ** The write that ends an operation

    The outcome of the write decides between returning and throwing, and
    nothing else: the state is the one that the call leaves when the write
    succeeds. *)

Lemma stateOf_awaitSave {A} ctx written (value : A) st :
  stateOf (awaitSave ctx written value st) = st.
Proof. by destruct written. Qed.

Lemma hasReturned_awaitSave {A} ctx written (value : A) st :
  hasReturned (awaitSave ctx written value st) = true ↔ written = Written.
Proof. by destruct written. Qed.

Ltac solve_write written :=
  repeat match goal with
         | |- context [match ?x with _ => _ end] =>
             lazymatch x with
             | written => fail
             | _ => destruct x
             end
         end;
  destruct written; simpl; (split; [reflexivity|]); split;
  solve [ done | intros [? ?]; done | intros ?; by split ].

Lemma saveCurrentSession_write
    st name0 (response : MessageResponse StoredSession) generatedId now1 now2 written :
  stateOf (saveCurrentSession name0 response generatedId now1 now2 written st)
    = stateOf (saveCurrentSession name0 response generatedId now1 now2 Written st) ∧
  (hasReturned (saveCurrentSession name0 response generatedId now1 now2 written st) = true
   ↔ hasReturned (saveCurrentSession name0 response generatedId now1 now2 Written st) = true
     ∧ written = Written).
Proof. unfold saveCurrentSession, awaitSave. solve_write written. Qed.

Lemma overwriteSessionWithCurrent_write
    st sessionId name0 (response : MessageResponse StoredSession) now written :
  stateOf (overwriteSessionWithCurrent sessionId name0 response now written st)
    = stateOf (overwriteSessionWithCurrent sessionId name0 response now Written st) ∧
  (hasReturned (overwriteSessionWithCurrent sessionId name0 response now written st) = true
   ↔ hasReturned (overwriteSessionWithCurrent sessionId name0 response now Written st) = true
     ∧ written = Written).
Proof. unfold overwriteSessionWithCurrent, awaitSave. solve_write written. Qed.

Lemma switchToSession_write
    st sessionId (response : MessageResponse StoredSession) now written :
  stateOf (switchToSession sessionId response now written st)
    = stateOf (switchToSession sessionId response now Written st) ∧
  (hasReturned (switchToSession sessionId response now written st) = true
   ↔ hasReturned (switchToSession sessionId response now Written st) = true
     ∧ written = Written).
Proof. unfold switchToSession, awaitSave. solve_write written. Qed.

Lemma createNewSession_write st (response : MessageResponse StoredSession) written :
  stateOf (createNewSession response written st)
    = stateOf (createNewSession response Written st) ∧
  (hasReturned (createNewSession response written st) = true
   ↔ hasReturned (createNewSession response Written st) = true ∧ written = Written).
Proof. unfold createNewSession, awaitSave. solve_write written. Qed.

Lemma renameSession_write st sessionId newName overwrite written :
  stateOf (renameSession sessionId newName overwrite written st)
    = stateOf (renameSession sessionId newName overwrite Written st) ∧
  (hasReturned (renameSession sessionId newName overwrite written st) = true
   ↔ hasReturned (renameSession sessionId newName overwrite Written st) = true
     ∧ written = Written).
Proof. unfold renameSession, awaitSave. solve_write written. Qed.

Lemma deleteSession_write st sessionId written :
  stateOf (deleteSession sessionId written st)
    = stateOf (deleteSession sessionId Written st) ∧
  (hasReturned (deleteSession sessionId written st) = true
   ↔ hasReturned (deleteSession sessionId Written st) = true ∧ written = Written).
Proof. unfold deleteSession, awaitSave. solve_write written. Qed.

Lemma reorderSessions_write st sessionIds written :
  stateOf (reorderSessions sessionIds written st)
    = stateOf (reorderSessions sessionIds Written st) ∧
  (hasReturned (reorderSessions sessionIds written st) = true
   ↔ hasReturned (reorderSessions sessionIds Written st) = true ∧ written = Written).
Proof. unfold reorderSessions, awaitSave. solve_write written. Qed.

Lemma run_write op st : run op st = run (withWrite Written op) st.
Proof.
  destruct op; simpl.
  - apply saveCurrentSession_write.
  - apply switchToSession_write.
  - apply createNewSession_write.
  - apply renameSession_write.
  - apply overwriteSessionWithCurrent_write.
  - apply deleteSession_write.
  - apply reorderSessions_write.
Qed.

(** ** Overwrite in place *)

(** C1. Overwriting the stored session [s] with the capture of the current
    tab, when [s] belongs to the current domain and the capture succeeds,
    leaves the [id], [order], [createdAt] and [domain] of [s] as they were,
    and its name too when no name is given; sessions with another id are
    not touched.  When the name to store is valid and [s] is the session
    that the lookup by id finds, the call returns (exactly when the write to
    the storage succeeds), and [s] has become the record with the validated
    name, the captured payload and the new [lastUsed], every other field
    being the one of [s]. *)
Theorem overwriteSessionWithCurrent_preserves_identity
    st i s name0 (response : MessageResponse StoredSession) now written :
  sessions st !! i = Some s →
  domain s = currentDomain st →
  success response = true →
  let result := overwriteSessionWithCurrent (id s) name0 response now written st in
  (∃ s', sessions (stateOf result) !! i = Some s' ∧
         id s' = id s ∧ order s' = order s ∧
         createdAt s' = createdAt s ∧ domain s' = domain s ∧
         (name0 = None → name s' = name s)) ∧
  (∀ j t, sessions st !! j = Some t → id t ≠ id s →
          sessions (stateOf result) !! j = Some t) ∧
  (∀ v, match name0 with
        | Some n => validateSessionName n
        | None => Valid (name s)
        end = Valid v →
        (∀ j t, sessions st !! j = Some t → j < i → id t ≠ id s) →
        (hasReturned result = true ↔ written = Written) ∧
        sessions (stateOf result) =
          <[i := mkSession (id s) v (domain s) (createdAt s) now (order s)
                   (default storedSessionDefaultValue (data response))]>
            (sessions st)).
Proof.
  intros Hi Hdom Hok result. subst result.
  destruct (overwriteSessionWithCurrent_write st (id s) name0 response now written)
    as [Hst Hret].
  rewrite Hst. setoid_rewrite Hret. clear Hst Hret.
  assert (∀ P : Prop, P → (P ∧ written = Written ↔ written = Written)) as Hiff
    by (intros P HP; split; [by intros [_ ?]|done]).
  unfold overwriteSessionWithCurrent. rewrite Hok. simpl negb. cbv iota.
  destruct (list_find (λ s0, id s0 = id s) (sessions st)) as [[j t]|] eqn:Hf.
  - pose proof Hf as (Hj & Hid & Hleast)%list_find_Some.
    case_decide as Hd.
    { simpl. split_and!; [by exists s | done |].
      intros v _ Hfirst.
      destruct (Nat.lt_trichotomy j i) as [Hlt|[->|Hlt]].
      - by destruct (Hfirst j t Hj Hlt).
      - congruence.
      - by destruct (Hleast i s Hi Hlt). }
    destruct (decide (j = i)) as [->|Hne].
    + assert (t = s) as -> by congruence.
      destruct (match name0 with
                | Some n => validateSessionName n
                | None => Valid (name s)
                end) as [v|m] eqn:Hv; simpl.
      * split_and!.
        -- eexists. rewrite list_lookup_insert_eq by (by eapply lookup_lt_Some).
           split_and!; try done. simpl. intros ->. by injection Hv.
        -- intros k u Hk Hu. rewrite list_lookup_insert_ne; [done|].
           intros <-. congruence.
        -- intros v' [= <-] _. split; [by apply Hiff|done].
      * split_and!; [by exists s | done | discriminate].
    + destruct (match name0 with
                | Some n => validateSessionName n
                | None => Valid (name t)
                end) as [v|m] eqn:Hv; simpl.
      * split_and!.
        -- exists s. by rewrite list_lookup_insert_ne.
        -- intros k u Hk Hu. rewrite list_lookup_insert_ne; [done|].
           intros <-. congruence.
        -- intros v' _ Hfirst.
           destruct (Nat.lt_trichotomy j i) as [Hlt|[->|Hlt]]; [|done|].
           ++ by destruct (Hfirst j t Hj Hlt).
           ++ by destruct (Hleast i s Hi Hlt).
      * split_and!; [by exists s | done |].
        intros v' _ Hfirst.
        destruct (Nat.lt_trichotomy j i) as [Hlt|[->|Hlt]]; [|done|].
        -- by destruct (Hfirst j t Hj Hlt).
        -- by destruct (Hleast i s Hi Hlt).
  - apply list_find_None in Hf.
    rewrite Forall_forall in Hf.
    destruct (Hf s); [by eapply list_elem_of_lookup_2 | done].
Qed.

(** ** Saving the current session *)

Lemma saveCurrentSession_returns
    st name0 v (response : MessageResponse StoredSession) generatedId now1 now2 :
  validateSessionName name0 = Valid v →
  success response = true →
  let new :=
    mkSession generatedId v (currentDomain st) now1 now2
      (Some (match orderOrZero <$> domainSessions st with
             | [] => (-1)%Z
             | o :: os => mathMax o os
             end + 1)%Z)
      (default storedSessionDefaultValue (data response)) in
  saveCurrentSession name0 response generatedId now1 now2 Written st =
    Returned new
      (mkState (currentDomain st) (sessions st ++ [new])
         (<[currentDomain st := generatedId]> (activeSessions st))
         (currentRenameSessionId st) (currentDeleteSessionId st)).
Proof.
  intros Hv Hok. unfold saveCurrentSession. rewrite Hv, Hok. reflexivity.
Qed.

(** C8. When the name is valid and the capture succeeds,
    [saveCurrentSession], its write to the storage succeeding, returns a new
    session and leaves the store with that session appended after the
    sessions it had, which are unchanged, and with the new session active
    for the current domain.  The new session has the generated id, both
    timestamps read from the clock during the call, the validated name, the
    current domain, the captured payload, and an order [k] that is greater
    than the order ([s.order ?? 0]) of every stored session whose domain is
    the current domain, and is one more than the order of one of them, or 0
    when no stored session has the current domain.  An id that is fresh
    keeps the ids of the store unique. *)
Theorem saveCurrentSession_appends
    st name0 v (response : MessageResponse StoredSession) generatedId now1 now2 :
  validateSessionName name0 = Valid v →
  success response = true →
  ∃ new,
    saveCurrentSession name0 response generatedId now1 now2 Written st =
      Returned new
        (mkState (currentDomain st) (sessions st ++ [new])
           (<[currentDomain st := id new]> (activeSessions st))
           (currentRenameSessionId st) (currentDeleteSessionId st)) ∧
    id new = generatedId ∧ name new = v ∧ domain new = currentDomain st ∧
    createdAt new = now1 ∧ lastUsed new = now2 ∧
    payload new = default storedSessionDefaultValue (data response) ∧
    (∃ k, order new = Some k ∧
       (∀ s, s ∈ sessions st → domain s = currentDomain st →
             (default 0 (order s) < k)%Z) ∧
       ((∃ s, s ∈ sessions st ∧ domain s = currentDomain st ∧
              k = (default 0 (order s) + 1)%Z) ∨
        ((∀ s, s ∈ sessions st → domain s ≠ currentDomain st) ∧ k = 0%Z))) ∧
    (generatedId ∉ id <$> sessions st → NoDup (id <$> sessions st) →
     NoDup (id <$> (sessions st ++ [new]))).
Proof.
  intros Hv Hok.
  pose proof (saveCurrentSession_returns st name0 v response generatedId now1 now2
                Hv Hok) as Hret.
  simpl in Hret. eexists. split.
  - exact Hret.
  - simpl. split_and!; try reflexivity.
    + eexists. split; [reflexivity|].
      destruct (nextOrder_maxOrder (domainSessions st))
        as [[Hnil ->]|[(s & Hs & ->) Hmax]].
      * split; [|right; split; [|done]].
        -- intros s Hs Hd.
           assert (s ∈ domainSessions st) as Hin by (by apply list_elem_of_filter).
           rewrite Hnil in Hin. by apply elem_of_nil in Hin.
        -- intros s Hs Hd.
           assert (s ∈ domainSessions st) as Hin by (by apply list_elem_of_filter).
           rewrite Hnil in Hin. by apply elem_of_nil in Hin.
      * split.
        -- intros t Ht Hd. apply (Hmax t). by apply list_elem_of_filter.
        -- left. apply list_elem_of_filter in Hs as [Hd Hs]. by exists s.
    + intros Hfresh Hnd. rewrite fmap_app. simpl.
      apply NoDup_app. split_and!; [done| |apply NoDup_singleton].
      intros x Hx ->%list_elem_of_singleton. done.
Qed.

(** C3, as the code has it.  [saveCurrentSession] does not compare the name
    with the names of the stored sessions: when the name is valid and the
    capture succeeds, a save under a name that matches, trimmed and
    lowercased, the name of a session [c] of the current domain returns a
    new session, keeps [c] and appends the new session, whose name matches
    the name of [c]. *)
Theorem saveCurrentSession_accepts_namesake
    st name0 v (response : MessageResponse StoredSession) generatedId now1 now2 c :
  validationKeepsName validateSessionName →
  validateSessionName name0 = Valid v →
  success response = true →
  c ∈ sessions st →
  domain c = currentDomain st →
  normalizeName (name c) = normalizeName name0 →
  ∃ new st',
    saveCurrentSession name0 response generatedId now1 now2 Written st = Returned new st' ∧
    sessions st' = sessions st ++ [new] ∧
    c ∈ sessions st' ∧
    domain new = domain c ∧
    normalizeName (name new) = normalizeName (name c).
Proof.
  intros Hkeep Hv Hok Hc Hdom Hname.
  do 2 eexists. split; [by apply saveCurrentSession_returns|].
  simpl. split_and!; [done| |done|].
  - apply elem_of_app. by left.
  - rewrite Hname. by apply Hkeep.
Qed.

(** C10. A reply that reports success and carries no data does not make
    the capture fail: a save with a valid name returns a session whose
    payload is the default one, and an overwrite of a session of the
    current domain, with a valid name, returns and stores the default
    payload in that session. *)
Theorem capture_without_data_stores_default
    st (response : MessageResponse StoredSession) :
  success response = true →
  data response = None →
  (∀ name0 v generatedId now1 now2,
     validateSessionName name0 = Valid v →
     ∃ new st',
       saveCurrentSession name0 response generatedId now1 now2 Written st = Returned new st' ∧
       new ∈ sessions st' ∧
       payload new = storedSessionDefaultValue) ∧
  (∀ sessionId name0 now i session v,
     list_find (λ s, id s = sessionId) (sessions st) = Some (i, session) →
     domain session = currentDomain st →
     match name0 with
     | Some n => validateSessionName n
     | None => Valid (name session)
     end = Valid v →
     ∃ st' s',
       overwriteSessionWithCurrent sessionId name0 response now Written st = Returned tt st' ∧
       sessions st' !! i = Some s' ∧
       payload s' = storedSessionDefaultValue).
Proof.
  intros Hok Hdata. split.
  - intros name0 v generatedId now1 now2 Hv.
    do 2 eexists. split; [by apply saveCurrentSession_returns|].
    simpl. split; [|by rewrite Hdata].
    apply elem_of_app. right. by left.
  - intros sessionId name0 now i session v Hf Hdom Hv.
    unfold overwriteSessionWithCurrent. rewrite Hf.
    rewrite decide_False by (by intros []).
    rewrite Hv, Hok. simpl.
    do 2 eexists. split; [reflexivity|]. simpl.
    apply list_find_Some in Hf as (Hi & _).
    rewrite list_lookup_insert_eq by (by eapply lookup_lt_Some).
    split; [reflexivity|]. simpl. by rewrite Hdata.
Qed.

(** ** Renaming *)

Lemma findSessionByName_Some st domain0 name0 excludeId c :
  findSessionByName st domain0 name0 excludeId = Some c ↔
  ∃ k, list_find (isNameMatch domain0 (normalizeName name0) excludeId) (sessions st)
       = Some (k, c).
Proof.
  unfold findSessionByName.
  destruct (list_find _ (sessions st)) as [[k c']|]; simpl.
  - split.
    + intros [= ->]. by exists k.
    + intros [k' [= _ ->]]. done.
  - split; [discriminate|]. by intros [? ?].
Qed.

(** A session that conflicts with the new name makes the lookup by name
    succeed. *)
Lemma findSessionByName_conflict st sessionId newName v session c :
  validationKeepsName validateSessionName →
  validateSessionName newName = Valid v →
  c ∈ sessions st →
  conflictsWith session sessionId newName c →
  ∃ c', findSessionByName st (domain session) v (Some sessionId) = Some c' ∧
        c' ∈ sessions st ∧ conflictsWith session sessionId newName c'.
Proof.
  intros Hkeep Hv Hc (Hdom & Hid & Hname).
  unfold findSessionByName.
  destruct (list_find_elem_of
              (isNameMatch (domain session) (normalizeName v) (Some sessionId))
              (sessions st) c Hc) as [[k c'] Hf].
  { split_and!; [done|congruence|]. rewrite Hname. symmetry. by apply Hkeep. }
  rewrite Hf. simpl. exists c'. split; [done|].
  apply list_find_Some in Hf as (Hk & (Hd' & Hi' & Hn') & _).
  split; [by eapply list_elem_of_lookup_2|].
  split_and!; [done|congruence|]. rewrite Hn'. by apply Hkeep.
Qed.

(** C4. When the session to rename exists, the new name is valid and
    another session of the same domain has a name that matches it once
    both are trimmed and lowercased, [renameSession] without [overwrite]
    throws "Session name already exists" and leaves the state, sessions and
    active pointers, as it was. *)
Theorem renameSession_conflict_rejected st sessionId newName v i session c written :
  validationKeepsName validateSessionName →
  list_find (λ s, id s = sessionId) (sessions st) = Some (i, session) →
  validateSessionName newName = Valid v →
  c ∈ sessions st →
  conflictsWith session sessionId newName c →
  renameSession sessionId newName false written st =
    Threw (mkError "PopupService.renameSession" "Session name already exists") st.
Proof.
  intros Hkeep Hf Hv Hc Hconf.
  destruct (findSessionByName_conflict st sessionId newName v session c)
    as (c' & Hfind & _); [done..|].
  unfold renameSession. rewrite Hf, Hv, Hfind. reflexivity.
Qed.

(** Under a validator that keeps the name, the test of [findSessionByName]
    on the validated name is the conflict with the name given. *)
Lemma isNameMatch_conflictsWith sessionId newName v session t :
  validationKeepsName validateSessionName →
  validateSessionName newName = Valid v →
  isNameMatch (domain session) (normalizeName v) (Some sessionId) t ↔
  conflictsWith session sessionId newName t.
Proof.
  intros Hkeep Hv. unfold isNameMatch, conflictsWith.
  rewrite (Hkeep _ _ Hv). split.
  - intros (? & ? & ?). split_and!; [done|congruence|done].
  - intros (? & ? & ?). split_and!; [done|congruence|done].
Qed.

(** C5, as the code has it.  When the session to rename exists, the new
    name is valid and some session conflicts with it, [renameSession] with
    [overwrite], its write to the storage succeeding, returns.  It removes
    the first conflicting session in the order of the store (every session
    with the id of that one) and no other session.  The session found
    under the id given is, afterwards, the session that was found under it
    before with the validated name as its name and every other field
    unchanged; it stands where it stood among the sessions that are left,
    which are otherwise as they were.  The active pointer of the domain is
    redirected to the renamed session when it pointed to the session
    removed, and the active pointers are left as they were otherwise. *)
Theorem renameSession_overwrite_removes_first_conflict
    st sessionId newName v i session c :
  validationKeepsName validateSessionName →
  list_find (λ s, id s = sessionId) (sessions st) = Some (i, session) →
  validateSessionName newName = Valid v →
  c ∈ sessions st →
  conflictsWith session sessionId newName c →
  ∃ k first st' j renamed,
    sessions st !! k = Some first ∧
    conflictsWith session sessionId newName first ∧
    (∀ j t, sessions st !! j = Some t → j < k →
            ¬ conflictsWith session sessionId newName t) ∧
    renameSession sessionId newName true Written st = Returned tt st' ∧
    (∀ s, s ∈ sessions st' → id s ≠ id first) ∧
    renamed = mkSession sessionId v (domain session) (createdAt session)
                (lastUsed session) (order session) (payload session) ∧
    name renamed = v ∧
    list_find (λ s, id s = sessionId) (sessions st') = Some (j, renamed) ∧
    list_find (λ s, id s = sessionId)
      (filter (λ s, id s ≠ id first) (sessions st)) = Some (j, session) ∧
    sessions st' = <[j := renamed]> (filter (λ s, id s ≠ id first) (sessions st)) ∧
    (∀ t, t ∈ sessions st → id t ≠ id first → id t ≠ sessionId →
          t ∈ sessions st') ∧
    activeSessions st' =
      (if decide (activeSessions st !! domain session = Some (id first))
       then <[domain session := sessionId]> (activeSessions st)
       else activeSessions st) ∧
    currentDomain st' = currentDomain st.
Proof.
  intros Hkeep Hf Hv Hc Hconf.
  destruct (findSessionByName_conflict st sessionId newName v session c)
    as (first & Hfind & _); [done..|].
  pose proof Hfind as [k Hk]%findSessionByName_Some.
  apply list_find_Some in Hk as (Hk & Hmatch & Hleast).
  pose proof Hmatch as Hfirst.
  rewrite isNameMatch_conflictsWith in Hfirst by done.
  destruct Hfirst as (Hd1 & Hi1 & Hn1).
  pose proof Hf as (Hi & Hid & _)%list_find_Some.
  destruct (list_find_filter_keeps (λ s, id s = sessionId)
              (λ s, id s ≠ id first) (sessions st) i session Hf)
    as [j Hj]; [congruence|].
  assert (setName v session
          = mkSession sessionId v (domain session) (createdAt session)
              (lastUsed session) (order session) (payload session)) as Hrenamed
    by (unfold setName; by rewrite Hid).
  exists k, first. eexists. exists j. eexists. split_and!.
  - done.
  - done.
  - intros j' t Hj' Hlt Ht. eapply Hleast; [done..|].
    by rewrite isNameMatch_conflictsWith.
  - unfold renameSession. rewrite Hf, Hv, Hfind. simpl negb. cbv iota.
    reflexivity.
  - intros s. simpl.
    destruct (decide (activeSessions _ !! _ = _)); simpl;
      intros [Hs|(t & Ht & _ & ->)]%mutateFound_elem_of_inv;
      try (apply list_elem_of_filter in Hs as [? _]; done);
      apply list_elem_of_filter in Ht as [? _]; done.
  - reflexivity.
  - reflexivity.
  - simpl.
    destruct (decide (activeSessions _ !! _ = _)); simpl;
      unfold mutateFound; rewrite Hj, Hrenamed;
      (eapply list_find_insert_found; [exact Hj|done]).
  - done.
  - simpl.
    destruct (decide (activeSessions _ !! _ = _)); simpl;
      unfold mutateFound; by rewrite Hj, Hrenamed.
  - intros t Ht Hne1 Hne2. simpl.
    destruct (decide (activeSessions _ !! _ = _)); simpl;
      (apply mutateFound_elem_of_other; [|done]);
      by apply list_elem_of_filter.
  - simpl. destruct (decide (activeSessions _ !! _ = _)); reflexivity.
  - simpl. destruct (decide (activeSessions _ !! _ = _)); reflexivity.
Qed.

(** ** Deleting *)

Lemma filter_all (P : SessionData → Prop) `{∀ s, Decision (P s)} l :
  (∀ s, s ∈ l → P s) → filter P l = l.
Proof.
  induction l as [|x l IH]; intros Hall; [reflexivity|].
  rewrite filter_cons_True by (apply Hall; by left).
  f_equal. apply IH. intros s Hs. apply Hall. by right.
Qed.

(** C6, as the code has it.  [deleteSession] removes every session with
    the given id and leaves the list of sessions as it was when no session
    has that id, which is not an error.  The active pointer of the current
    domain is cleared when it is the given id and kept otherwise, so that a
    removed session of the current domain that was active there is no longer
    active; the active pointers of all other domains are left untouched.
    The call returns when its write to the storage succeeds; when the write
    is rejected it throws the error of the write, the sessions and the
    pointer being changed in the state all the same. *)
Theorem deleteSession_clears_current_domain_pointer st sessionId written :
  ∃ st',
    deleteSession sessionId written st =
      match written with
      | Written => Returned tt st'
      | WriteFailed reason =>
          Threw (mkError "PopupService.deleteSession" reason) st'
      end ∧
    sessions st' = filter (λ s, id s ≠ sessionId) (sessions st) ∧
    ((∀ s, s ∈ sessions st → id s ≠ sessionId) → sessions st' = sessions st) ∧
    (activeSessions st !! currentDomain st = Some sessionId →
       activeSessions st' = delete (currentDomain st) (activeSessions st)) ∧
    (activeSessions st !! currentDomain st ≠ Some sessionId →
       activeSessions st' = activeSessions st) ∧
    (∀ s, s ∈ sessions st → id s = sessionId →
       domain s = currentDomain st →
       activeSessions st !! domain s = Some (id s) →
       activeSessions st' !! domain s = None) ∧
    (∀ d, d ≠ currentDomain st →
       activeSessions st' !! d = activeSessions st !! d) ∧
    currentDomain st' = currentDomain st.
Proof.
  eexists. split; [unfold deleteSession, awaitSave; by destruct written|]. simpl.
  destruct (decide (activeSessions st !! currentDomain st = Some sessionId))
    as [Ha|Ha]; simpl.
  - split_and!; try done.
    + intros Hall. by apply filter_all.
    + intros s _ _ -> _. apply lookup_delete_eq.
    + intros d Hd. by rewrite lookup_delete_ne.
  - split_and!; try done.
    + intros Hall. by apply filter_all.
    + intros s _ <- Hd Hs. rewrite Hd in Hs. done.
Qed.

(** ** The import merge *)

(** C9, as the code has it.  For a non-empty import, [mergeSessions]
    stores the existing sessions it keeps, in their order, followed by the
    imported ones.  It keeps an existing session when its domain is the
    empty string or is the domain of no imported session, and removes it
    when its domain is not empty and is the domain of an imported
    session. *)
Theorem mergeSessions_replaces_imported_domains
    (stored : option (list SessionData)) (importedSessions : list SessionData) :
  importedSessions ≠ [] →
  ∃ kept,
    mergeSessions stored importedSessions = Some (kept ++ importedSessions) ∧
    kept = filter (λ s, domain s = String.EmptyString ∨
                        domain s ∉ domain <$> importedSessions)
                  (default [] stored) ∧
    (∀ s, s ∈ default [] stored → domain s ≠ String.EmptyString →
          domain s ∈ domain <$> importedSessions → s ∉ kept) ∧
    (∀ s, s ∈ default [] stored →
          domain s ∉ domain <$> importedSessions → s ∈ kept).
Proof.
  intros Hne. eexists. split_and!; [|reflexivity|..].
  - unfold mergeSessions. rewrite decide_False by (by destruct importedSessions).
    do 2 f_equal. apply list_filter_iff. intros s.
    rewrite elem_of_list_to_set, list_elem_of_filter. split.
    + intros Hnot. destruct (decide (domain s = String.EmptyString)); [by left|].
      right. intros Hin. apply Hnot. by split.
    + intros [He|Hnot] [Hd Hin]; done.
  - intros s Hs Hd Hin [[?|?] _]%list_elem_of_filter; done.
  - intros s Hs Hnot. apply list_elem_of_filter. split; [by right|done].
Qed.

(** ** Reordering *)

Lemma NoDup_domainIdsInjective cur l :
  NoDup (id <$> filter (λ s, domain s = cur) l) → domainIdsInjective cur l.
Proof.
  induction l as [|a l IH]; intros Hnd i j s t Hi Hj Hs Ht Hid.
  { by rewrite lookup_nil in Hi. }
  assert (NoDup (id <$> filter (λ s, domain s = cur) l)) as Hnd'.
  { destruct (decide (domain a = cur)).
    - rewrite filter_cons_True in Hnd by done.
      by apply NoDup_cons in Hnd as [_ ?].
    - by rewrite filter_cons_False in Hnd by done. }
  assert (∀ k u, l !! k = Some u → domain a = cur → domain u = cur →
                 id a = id u → False) as Hhead.
  { intros k u Hk Ha Hu Hau.
    rewrite filter_cons_True in Hnd by done.
    apply NoDup_cons in Hnd as [Hnotin _]. apply Hnotin.
    simpl. rewrite Hau. apply list_elem_of_fmap_2.
    apply list_elem_of_filter. split; [done|]. by eapply list_elem_of_lookup_2. }
  destruct i as [|i], j as [|j]; simpl in Hi, Hj.
  - reflexivity.
  - injection Hi as ->. destruct (Hhead j t Hj Hs Ht Hid).
  - injection Hj as ->. destruct (Hhead i s Hi Ht Hs (eq_sym Hid)).
  - f_equal. by eapply (IH Hnd' i j s t).
Qed.

Lemma mutateFound_lookup_inv (P : SessionData → Prop) `{∀ s, Decision (P s)} f l i s' :
  mutateFound P f l !! i = Some s' →
  ∃ s, l !! i = Some s ∧ (s' = s ∨ s' = f s).
Proof.
  intros Hi.
  destruct (lookup_lt_is_Some_2 l i) as [s Hs].
  { rewrite <- (mutateFound_length P f l). by eapply lookup_lt_Some. }
  exists s. split; [done|].
  destruct (mutateFound_lookup P f l i s Hs) as [[_ Hl]|[_ Hl]];
    rewrite Hl in Hi; injection Hi as <-; auto.
Qed.

Lemma mutateFound_domainIdsInjective cur (P : SessionData → Prop)
    `{∀ s, Decision (P s)} k l :
  domainIdsInjective cur l →
  domainIdsInjective cur (mutateFound P (setOrder k) l).
Proof.
  intros Hinj i j s' t' Hi Hj Hs Ht Hid.
  apply mutateFound_lookup_inv in Hi as (s & Hi & Hs').
  apply mutateFound_lookup_inv in Hj as (t & Hj & Ht').
  apply (Hinj i j s t Hi Hj).
  - by destruct Hs' as [->| ->].
  - by destruct Ht' as [->| ->].
  - by destruct Hs' as [->| ->], Ht' as [->| ->].
Qed.

(** When ids are unique in the domain, the session of the domain with id
    [x] is the one that [find] returns. *)
Lemma list_find_domain_id cur x l i s :
  domainIdsInjective cur l →
  l !! i = Some s → domain s = cur → id s = x →
  list_find (λ s, domain s = cur ∧ id s = x) l = Some (i, s).
Proof.
  intros Hinj Hi Hd Hx. apply list_find_Some. split_and!; [done..|].
  intros j t Hj Hlt [Hdt Hxt].
  assert (j = i); [|lia].
  eapply (Hinj j i t s); congruence.
Qed.

Lemma reorderLoop_length cur sessionIds n l :
  length (reorderLoop cur sessionIds n l) = length l.
Proof.
  revert n l. induction sessionIds as [|x rest IH]; intros n l; simpl; [done|].
  by rewrite IH, mutateFound_length.
Qed.

(** What the loop of [reorderSessions] leaves at each place of the store,
    for a list of distinct ids. *)
Lemma reorderLoop_lookup cur sessionIds n l i s :
  NoDup sessionIds →
  domainIdsInjective cur l →
  l !! i = Some s →
  (domain s ≠ cur → reorderLoop cur sessionIds n l !! i = Some s) ∧
  (domain s = cur → id s ∉ sessionIds →
     reorderLoop cur sessionIds n l !! i = Some s) ∧
  (domain s = cur → ∀ k, sessionIds !! k = Some (id s) →
     reorderLoop cur sessionIds n l !! i = Some (setOrder (Z.of_nat (n + k)) s)).
Proof.
  revert n l s. induction sessionIds as [|x rest IH]; intros n l s Hnd Hinj Hi.
  { simpl. split_and!; [done..|]. intros _ k Hk. by rewrite lookup_nil in Hk. }
  apply NoDup_cons in Hnd as [Hx Hnd].
  pose proof (mutateFound_domainIdsInjective cur
                (λ s, domain s = cur ∧ id s = x) (Z.of_nat n) l Hinj) as Hinj1.
  simpl.
  destruct (decide (domain s = cur ∧ id s = x)) as [[Hd Hid]|Hnot].
  - (* the session that this step renumbers *)
    pose proof (list_find_domain_id cur x l i s Hinj Hi Hd Hid) as Hf.
    assert (mutateFound (λ s, domain s = cur ∧ id s = x) (setOrder (Z.of_nat n)) l
              !! i = Some (setOrder (Z.of_nat n) s)) as Hi1.
    { destruct (mutateFound_lookup (λ s, domain s = cur ∧ id s = x)
                  (setOrder (Z.of_nat n)) l i s Hi) as [[_ ?]|[? _]]; done. }
    destruct (IH (S n) _ _ Hnd Hinj1 Hi1) as (_ & Hkeep & _).
    split_and!.
    + done.
    + intros _ Hnotin. destruct Hnotin. rewrite Hid. by left.
    + intros _ k Hk. destruct k as [|k].
      * rewrite Nat.add_0_r. apply Hkeep; [done|]. simpl. by rewrite Hid.
      * simpl in Hk. destruct Hx. rewrite <- Hid. by eapply list_elem_of_lookup_2.
  - (* a session that this step leaves alone *)
    pose proof (mutateFound_lookup_other (λ s, domain s = cur ∧ id s = x)
                  (setOrder (Z.of_nat n)) l i s Hi Hnot) as Hi1.
    destruct (IH (S n) _ _ Hnd Hinj1 Hi1) as (Hother & Hkeep & Hset).
    split_and!.
    + done.
    + intros Hd Hnotin. apply Hkeep; [done|].
      intros Hin. apply Hnotin. by right.
    + intros Hd k Hk. destruct k as [|k].
      * simpl in Hk. injection Hk as ->. by destruct Hnot.
      * simpl in Hk. rewrite (Hset Hd k Hk). do 3 f_equal. lia.
Qed.

(** With unique ids in the domain, a list as long as the domain that
    contains its ids is a permutation of them. *)
Lemma domain_ids_Permutation (ids dids : list string) :
  NoDup dids → length ids = length dids →
  (∀ x, x ∈ dids → x ∈ ids) → dids ≡ₚ ids.
Proof.
  intros Hnd Hlen Hsub.
  apply submseteq_length_Permutation; [|lia].
  by apply NoDup_submseteq.
Qed.

(** C7, as the code has it.  When the ids of the sessions of the current
    domain are distinct, [reorderSessions] throws and leaves the state as
    it was when the list is not as long as the domain (count mismatch), and
    when it is as long but its set of ids is not the set of ids of the
    domain (invalid ids).  Otherwise, its write to the storage succeeding,
    it returns; every session of the current domain has as order the place
    of its id in the list, its other fields being unchanged, and every
    session of another domain, and the active pointers, are unchanged. *)
Theorem reorderSessions_spec st sessionIds written :
  NoDup (id <$> filter (λ s, domain s = currentDomain st) (sessions st)) →
  let sameIds :=
    ∀ x, x ∈ sessionIds ↔
         x ∈ id <$> filter (λ s, domain s = currentDomain st) (sessions st) in
  (length sessionIds
     ≠ length (filter (λ s, domain s = currentDomain st) (sessions st)) →
     reorderSessions sessionIds written st =
       Threw (mkError "PopupService.reorderSessions"
                "Session count mismatch during reorder operation") st) ∧
  (length sessionIds
     = length (filter (λ s, domain s = currentDomain st) (sessions st)) →
     ¬ sameIds →
     reorderSessions sessionIds written st =
       Threw (mkError "PopupService.reorderSessions"
                "Invalid session IDs provided for reorder operation") st) ∧
  (length sessionIds
     = length (filter (λ s, domain s = currentDomain st) (sessions st)) →
     sameIds →
     ∃ st',
       reorderSessions sessionIds Written st = Returned tt st' ∧
       currentDomain st' = currentDomain st ∧
       activeSessions st' = activeSessions st ∧
       length (sessions st') = length (sessions st) ∧
       ∀ i s, sessions st !! i = Some s →
         (domain s ≠ currentDomain st → sessions st' !! i = Some s) ∧
         (domain s = currentDomain st →
            ∃ k, sessionIds !! k = Some (id s) ∧
                 sessions st' !! i
                   = Some (mkSession (id s) (name s) (domain s) (createdAt s)
                             (lastUsed s) (Some (Z.of_nat k)) (payload s)))).
Proof.
  fold (domainSessions st).
  intros Hnd sameIds. split_and!.
  - intros Hlen. unfold reorderSessions. by rewrite decide_True.
  - intros Hlen Hdiff. unfold reorderSessions.
    rewrite decide_False by (by intros []).
    rewrite decide_False; [done|].
    intros Hall. apply Hdiff. rewrite Forall_forall in Hall.
    assert (∀ x, x ∈ id <$> domainSessions st → x ∈ sessionIds) as Hsub.
    { intros x (s & -> & Hs)%list_elem_of_fmap.
      specialize (Hall s Hs). by apply elem_of_list_to_set in Hall. }
    intros x. split; [|apply Hsub].
    intros Hx. eapply elem_of_Permutation_proper; [|exact Hx].
    apply domain_ids_Permutation; [done| |done].
    by rewrite length_fmap.
  - intros Hlen Hsame. unfold reorderSessions.
    rewrite decide_False by (by intros []).
    rewrite decide_True.
    2:{ apply Forall_forall. intros s Hs. apply elem_of_list_to_set.
        apply Hsame. by apply list_elem_of_fmap_2. }
    eexists. split; [reflexivity|]. simpl.
    split_and!; [done|done|apply reorderLoop_length|].
    intros i s Hi.
    assert (NoDup sessionIds) as Hnd'.
    { assert (id <$> domainSessions st ≡ₚ sessionIds) as Hperm.
      { apply domain_ids_Permutation; [done|by rewrite length_fmap|].
        intros x Hx. by apply Hsame. }
      by rewrite <- Hperm. }
    destruct (reorderLoop_lookup (currentDomain st) sessionIds 0 (sessions st) i s
                Hnd' (NoDup_domainIdsInjective _ _ Hnd) Hi)
      as (Hother & _ & Hset).
    split; [done|]. intros Hd.
    assert (id s ∈ sessionIds) as [k Hk]%list_elem_of_lookup.
    { apply Hsame. apply list_elem_of_fmap_2.
      apply list_elem_of_filter. split; [done|]. by eapply list_elem_of_lookup_2. }
    exists k. split; [done|]. by apply Hset.
Qed.

(** ** The active pointers *)

Lemma idsUnique_eq st s t :
  idsUnique st → s ∈ sessions st → t ∈ sessions st → id s = id t → s = t.
Proof.
  intros Hnd [i Hi]%list_elem_of_lookup [j Hj]%list_elem_of_lookup Hid.
  assert (i = j) as ->; [|congruence].
  eapply (NoDup_lookup _ i j (id s) Hnd).
  - by rewrite list_lookup_fmap, Hi.
  - by rewrite list_lookup_fmap, Hj, Hid.
Qed.

Lemma reorderLoop_exists_keeps cur sessionIds n (Q : SessionData → Prop) l :
  (∀ k t, Q t → Q (setOrder k t)) →
  (∃ s, s ∈ l ∧ Q s) → ∃ s, s ∈ reorderLoop cur sessionIds n l ∧ Q s.
Proof.
  intros HQ. revert n l.
  induction sessionIds as [|x rest IH]; intros n l Hex; simpl; [done|].
  apply IH. apply mutateFound_exists_keeps; [apply HQ|done].
Qed.

Lemma saveCurrentSession_valid name0 (response : MessageResponse StoredSession)
    generatedId now1 now2 st :
  activeSessionsValid st →
  activeSessionsValid (stateOf (saveCurrentSession name0 response generatedId now1 now2 Written st)).
Proof.
  intros Hval. unfold saveCurrentSession.
  destruct (validateSessionName name0) as [v|m]; [|done].
  destruct (success response); [|done]. simpl.
  intros d j. simpl. intros [[<- <-]|[Hne Hd]]%lookup_insert_Some.
  - eexists. split; [apply elem_of_app; right; by left|done].
  - destruct (Hval d j Hd) as (s & Hs & Hid & Hdom).
    exists s. split; [apply elem_of_app; by left|done].
Qed.

Lemma switchToSession_valid sessionId (response : MessageResponse StoredSession) now st :
  activeSessionsValid st →
  ofCurrentDomain st sessionId →
  activeSessionsValid (stateOf (switchToSession sessionId response now Written st)).
Proof.
  intros Hval Hcur. unfold switchToSession.
  destruct (list_find _ (sessions st)) as [[i session]|] eqn:Hf; [|done].
  destruct (success response); [|done]. simpl.
  apply list_find_Some in Hf as (Hi & Hid & _).
  intros d j. simpl. intros [[<- <-]|[Hne Hd]]%lookup_insert_Some.
  - exists (setLastUsed now session). split_and!.
    + apply list_elem_of_insert. by eapply lookup_lt_Some.
    + done.
    + simpl. apply Hcur; [by eapply list_elem_of_lookup_2|done].
  - apply (insert_exists_keeps (λ t, id t = j ∧ domain t = d) _ i session);
      [done|done|].
    destruct (Hval d j Hd) as (s & ? & ? & ?). by exists s.
Qed.

Lemma createNewSession_valid (response : MessageResponse StoredSession) st :
  activeSessionsValid st →
  activeSessionsValid (stateOf (createNewSession response Written st)).
Proof.
  intros Hval. unfold createNewSession.
  destruct (success response); [|done]. simpl.
  intros d j. simpl. intros [_ Hd]%lookup_delete_Some. by apply Hval.
Qed.

Lemma overwriteSessionWithCurrent_valid sessionId name0
    (response : MessageResponse StoredSession) now st :
  activeSessionsValid st →
  activeSessionsValid (stateOf (overwriteSessionWithCurrent sessionId name0 response now Written st)).
Proof.
  intros Hval. unfold overwriteSessionWithCurrent.
  destruct (list_find _ (sessions st)) as [[i session]|] eqn:Hf; [|done].
  case_decide as Hdom; [done|].
  destruct (match name0 with Some n => _ | None => _ end) as [v|m]; [|done].
  destruct (success response); [|done]. simpl.
  apply list_find_Some in Hf as (Hi & Hid & _).
  intros d j. simpl. intros [[<- <-]|[Hne Hd]]%lookup_insert_Some.
  - eexists. split_and!.
    + apply list_elem_of_insert. by eapply lookup_lt_Some.
    + done.
    + simpl. by destruct (decide (domain session = currentDomain st)).
  - apply (insert_exists_keeps (λ t, id t = j ∧ domain t = d) _ i session);
      [done|done|].
    destruct (Hval d j Hd) as (s & ? & ? & ?). by exists s.
Qed.

Lemma deleteSession_valid sessionId st :
  activeSessionsValid st →
  ofCurrentDomain st sessionId →
  activeSessionsValid (stateOf (deleteSession sessionId Written st)).
Proof.
  intros Hval Hcur. unfold deleteSession. simpl.
  destruct (decide (activeSessions st !! currentDomain st = Some sessionId))
    as [Ha|Ha]; simpl; intros d j; simpl.
  - intros [Hne Hd]%lookup_delete_Some.
    destruct (Hval d j Hd) as (s & Hs & Hid & Hdom).
    exists s. split; [|done]. apply list_elem_of_filter. split; [|done].
    intros Heq. apply Hne. rewrite <- Hdom. symmetry. by apply Hcur.
  - intros Hd.
    destruct (Hval d j Hd) as (s & Hs & Hid & Hdom).
    exists s. split; [|done]. apply list_elem_of_filter. split; [|done].
    intros Heq. apply Ha.
    rewrite <- (Hcur s Hs Heq), Hdom, Hd. congruence.
Qed.

Lemma reorderSessions_valid sessionIds st :
  activeSessionsValid st →
  activeSessionsValid (stateOf (reorderSessions sessionIds Written st)).
Proof.
  intros Hval. unfold reorderSessions.
  case_decide; [done|]. case_decide; [|done]. simpl.
  intros d j Hd. simpl in *.
  apply (reorderLoop_exists_keeps _ _ _ (λ t, id t = j ∧ domain t = d)); [done|].
  destruct (Hval d j Hd) as (s & ? & ? & ?). by exists s.
Qed.

Lemma renameSession_valid sessionId newName overwrite st :
  idsUnique st →
  activeSessionsValid st →
  activeSessionsValid (stateOf (renameSession sessionId newName overwrite Written st)).
Proof.
  intros Hnd Hval. unfold renameSession.
  destruct (list_find _ (sessions st)) as [[i session]|] eqn:Hf; [|done].
  destruct (validateSessionName newName) as [v|m]; [|done].
  destruct (findSessionByName _ _ _ _) as [conflict|] eqn:Hfind.
  - destruct overwrite; [|done]. simpl.
    apply findSessionByName_Some in Hfind as [k Hk].
    apply list_find_Some in Hk as (Hk & (Hcd & Hcid & _) & _).
    assert (conflict ∈ sessions st) as Hcin by (by eapply list_elem_of_lookup_2).
    destruct (list_find_filter_keeps (λ s, id s = sessionId)
                (λ s, id s ≠ id conflict) (sessions st) i session Hf)
      as [j Hj].
    { apply list_find_Some in Hf as (_ & Hid & _). congruence. }
    apply list_find_Some in Hf as (Hi & Hid & _).
    assert (∀ d j0, activeSessions st !! d = Some j0 →
                    (d, j0) ≠ (domain session, id conflict) →
                    ∃ s, s ∈ mutateFound (λ s, id s = sessionId) (setName v)
                               (filter (λ s, id s ≠ id conflict) (sessions st)) ∧
                         id s = j0 ∧ domain s = d) as Hkeep.
    { intros d j0 Hd Hne.
      apply (mutateFound_exists_keeps _ (λ t, id t = j0 ∧ domain t = d)); [done|].
      destruct (Hval d j0 Hd) as (s & Hs & Hsid & Hsd).
      exists s. split; [|done]. apply list_elem_of_filter. split; [|done].
      intros Heq. apply Hne.
      assert (s = conflict) as -> by (by eapply idsUnique_eq).
      congruence. }
    destruct (decide (activeSessions st !! domain session = Some (id conflict)))
      as [Ha|Ha]; simpl; intros d j0; simpl.
    + intros [[<- <-]|[Hne Hd]]%lookup_insert_Some.
      * exists (setName v session). split; [|done].
        unfold mutateFound. rewrite Hj. apply list_elem_of_insert.
        apply list_find_Some in Hj as (Hj & _). by eapply lookup_lt_Some.
      * apply Hkeep; [done|]. intros [= ? ?]. done.
    + intros Hd. apply Hkeep; [done|]. intros [= -> ->]. done.
  - simpl. intros d j Hd. simpl in *.
    apply (mutateFound_exists_keeps _ (λ t, id t = j ∧ domain t = d)); [done|].
    destruct (Hval d j Hd) as (s & ? & ? & ?). by exists s.
Qed.

(** *** Unique ids are kept *)

Lemma mutateFound_fmap_keeps {B} (g : SessionData → B)
    (P : SessionData → Prop) `{∀ s, Decision (P s)} f l :
  (∀ t, g (f t) = g t) → g <$> mutateFound P f l = g <$> l.
Proof.
  intros Hg. unfold mutateFound.
  destruct (list_find P l) as [[i s]|] eqn:Hf; [|done].
  apply list_find_Some in Hf as (Hi & _).
  rewrite list_fmap_insert, Hg. apply list_insert_id.
  by rewrite list_lookup_fmap, Hi.
Qed.

Lemma insert_fmap_keeps {B} (g : SessionData → B) l i s s' :
  l !! i = Some s → g s' = g s → g <$> <[i := s']> l = g <$> l.
Proof.
  intros Hi Hg. rewrite list_fmap_insert, Hg. apply list_insert_id.
  by rewrite list_lookup_fmap, Hi.
Qed.

Lemma reorderLoop_fmap_id cur sessionIds n l :
  id <$> reorderLoop cur sessionIds n l = id <$> l.
Proof.
  revert n l. induction sessionIds as [|x rest IH]; intros n l; simpl; [done|].
  rewrite IH. by apply mutateFound_fmap_keeps.
Qed.

Lemma NoDup_fmap_filter (P : SessionData → Prop) `{∀ s, Decision (P s)} l :
  NoDup (id <$> l) → NoDup (id <$> filter P l).
Proof.
  induction l as [|x l IH]; [done|].
  rewrite fmap_cons. intros [Hx Hnd]%NoDup_cons.
  destruct (decide (P x)).
  - rewrite filter_cons_True by done. rewrite fmap_cons.
    apply NoDup_cons. split; [|by apply IH].
    intros (s & Hs & [_ Hin]%list_elem_of_filter)%list_elem_of_fmap.
    apply Hx. rewrite Hs. by apply list_elem_of_fmap_2.
  - rewrite filter_cons_False by done. by apply IH.
Qed.

(** Unique ids in the store are unique ids in the current domain. *)
Lemma idsUnique_domainSessions st : idsUnique st → NoDup (id <$> domainSessions st).
Proof. apply NoDup_fmap_filter. Qed.

(** Every operation keeps the ids of the store unique, a save doing so
    when the id generated for it is fresh. *)
Lemma run_preserves_idsUnique op st :
  idsUnique st → freshId st op → idsUnique (run op st).
Proof.
  unfold idsUnique. intros Hnd Hfresh. rewrite run_write.
  assert (freshId st (withWrite Written op)) as Hfresh' by (by destruct op).
  clear Hfresh. destruct op; simpl in *.
  - unfold saveCurrentSession.
    destruct (validateSessionName name0) as [v|m]; [|done].
    destruct (success response); [|done]. simpl.
    rewrite fmap_app. simpl.
    apply NoDup_app. split_and!; [done| |apply NoDup_singleton].
    intros x Hx ->%list_elem_of_singleton. done.
  - unfold switchToSession.
    destruct (list_find _ (sessions st)) as [[i session]|] eqn:Hf; [|done].
    destruct (success response); [|done]. simpl.
    apply list_find_Some in Hf as (Hi & _).
    by rewrite (insert_fmap_keeps id _ i session).
  - unfold createNewSession. by destruct (success response).
  - unfold renameSession.
    destruct (list_find _ (sessions st)) as [[i session]|]; [|done].
    destruct (validateSessionName newName) as [v|m]; [|done].
    destruct (findSessionByName _ _ _ _) as [conflict|].
    + destruct overwrite; [|done]. simpl.
      destruct (decide (activeSessions _ !! _ = _)); simpl;
        rewrite mutateFound_fmap_keeps by done; by apply NoDup_fmap_filter.
    + simpl. by rewrite mutateFound_fmap_keeps.
  - unfold overwriteSessionWithCurrent.
    destruct (list_find _ (sessions st)) as [[i session]|] eqn:Hf; [|done].
    case_decide; [done|].
    destruct (match name0 with Some n => _ | None => _ end) as [v|m]; [|done].
    destruct (success response); [|done]. simpl.
    apply list_find_Some in Hf as (Hi & _).
    by rewrite (insert_fmap_keeps id _ i session).
  - simpl. unfold deleteSession. simpl.
    destruct (decide (activeSessions _ !! _ = _)); simpl; by apply NoDup_fmap_filter.
  - unfold reorderSessions.
    case_decide; [done|]. case_decide; [|done]. simpl.
    by rewrite reorderLoop_fmap_id.
Qed.

(** C2, as the code has it.  Every operation keeps the active pointers
    valid (each one the id of a stored session of the domain it is recorded
    for), given that session ids are unique in the store and that the id
    passed to switch or to delete is not the id of a session of another
    domain than the current one. *)
Theorem run_preserves_activeSessionsValid op st :
  idsUnique st →
  activeSessionsValid st →
  scoped st op →
  activeSessionsValid (run op st).
Proof.
  intros Hnd Hval Hscoped. rewrite run_write.
  assert (scoped st (withWrite Written op)) as Hscoped' by (by destruct op).
  clear Hscoped. destruct op; simpl in *.
  - by apply saveCurrentSession_valid.
  - by apply switchToSession_valid.
  - by apply createNewSession_valid.
  - by apply renameSession_valid.
  - by apply overwriteSessionWithCurrent_valid.
  - by apply deleteSession_valid.
  - by apply reorderSessions_valid.
Qed.

End Properties.

(** * The properties at the concrete instance *)

Lemma exampleState_idsUnique : idsUnique exampleState.
Proof. apply (bool_decide_unpack _). vm_compute. exact I. Qed.

Lemma exampleState_activeSessionsValid : activeSessionsValid exampleState.
Proof.
  intros d i. simpl.
  intros [[<- <-]|[_ [[<- <-]|[_ Hd]]%lookup_insert_Some]]%lookup_insert_Some.
  - exists sessionA. split_and!; [by left|done..].
  - exists sessionX. split_and!; [by do 2 right; left|done..].
  - by rewrite lookup_empty in Hd.
Qed.

(** The scenarios of the specification, evaluated. *)

Example scenario_rename_without_overwrite :
  hasReturned (renameSession "b" "work" false Written exampleState) = false ∧
  stateOf (renameSession "b" "work" false Written exampleState) = exampleState.
Proof. split; reflexivity. Qed.

Example scenario_rename_with_overwrite :
  sessions (run (Rename "b" "work" true Written) exampleState)
    = [setName "work" sessionB; sessionX] ∧
  activeSessions (run (Rename "b" "work" true Written) exampleState) !! "example.com"
    = Some "b".
Proof. split; reflexivity. Qed.

Example scenario_reorder :
  sessions (run (Reorder ["b"; "a"] Written) exampleState)
    = [setOrder 1 sessionA; setOrder 0 sessionB; sessionX].
Proof. reflexivity. Qed.

Example scenario_delete_active :
  sessions (run (Delete "a" Written) exampleState) = [sessionB; sessionX] ∧
  activeSessions (run (Delete "a" Written) exampleState) !! "example.com" = None ∧
  activeSessions (run (Delete "a" Written) exampleState) !! "other.org" = Some "x".
Proof. split_and!; reflexivity. Qed.

Example scenario_trim_and_case :
  normalizeName "  Work " = "work" ∧ trim "   " = "" ∧
  validateTrimmed 50 "   " = Invalid "Session name cannot be empty".
Proof. split_and!; reflexivity. Qed.

(** C1 at [sessionB] of [exampleState], overwritten under a new name. *)
Lemma overwriteSessionWithCurrent_preserves_identity_witness :
  ∃ s',
    sessions (stateOf (overwriteSessionWithCurrent "b" (Some " Office ")
                         (captured "fresh") 99 Written exampleState)) !! 1 = Some s' ∧
    id s' = "b" ∧ order s' = Some 1%Z ∧ createdAt s' = 20%Z ∧
    domain s' = "example.com" ∧
    (Some " Office " = None → name s' = "home").
Proof.
  exact (proj1 (overwriteSessionWithCurrent_preserves_identity
                  exampleState 1 sessionB (Some " Office ") (captured "fresh") 99
                  Written eq_refl eq_refl eq_refl)).
Defined.

(** C8 at [busyElsewhere]: the third session of [example.com] gets order
    2, whatever the orders of [other.org]. *)
Lemma saveCurrentSession_appends_witness :
  validateSessionName "  gaming " = Valid "gaming" ∧
  ∃ new,
    hasReturned (saveCurrentSession "  gaming " (captured "c") "n1" 100 101 Written
                   busyElsewhere) = true ∧
    id new = "n1" ∧ name new = "gaming" ∧ order new = Some 2%Z ∧
    sessions (stateOf (saveCurrentSession "  gaming " (captured "c") "n1" 100 101 Written
                         busyElsewhere))
      = sessions busyElsewhere ++ [new].
Proof.
  split; [reflexivity|].
  destruct (saveCurrentSession_appends busyElsewhere "  gaming " "gaming"
              (captured "c") "n1" 100 101 eq_refl eq_refl)
    as (new & Hret & Hid & Hname & _ & _ & _ & _ & _ & _).
  exists new. rewrite Hret. simpl. split_and!; [done..| |done].
  injection Hret as <- _. reflexivity.
Defined.

(** C3: in [exampleState], where [sessionA] is named "work", a save under
    " WORK " is not rejected; the store has one session more. *)
Lemma saveCurrentSession_namesake_not_rejected :
  sessionA ∈ sessions exampleState ∧
  domain sessionA = currentDomain exampleState ∧
  normalizeName (name sessionA) = normalizeName " WORK " ∧
  hasReturned (saveCurrentSession " WORK " (captured "c") "n1" 100 100 Written
                 exampleState) = true ∧
  length (sessions (stateOf (saveCurrentSession " WORK " (captured "c") "n1" 100 100 Written
                               exampleState)))
    = S (length (sessions exampleState)).
Proof. split_and!; [by left|reflexivity..]. Qed.

(** C3 as the code has it, at the same input: both namesakes are stored. *)
Lemma saveCurrentSession_accepts_namesake_witness :
  ∃ new st',
    saveCurrentSession " WORK " (captured "c") "n1" 100 100 Written exampleState
      = Returned new st' ∧
    sessions st' = sessions exampleState ++ [new] ∧
    sessionA ∈ sessions st' ∧
    domain new = domain sessionA ∧
    normalizeName (name new) = normalizeName (name sessionA).
Proof.
  apply (saveCurrentSession_accepts_namesake exampleState " WORK " "WORK"
           (captured "c") "n1" 100 100 sessionA).
  - apply validateTrimmed_keeps_name.
  - reflexivity.
  - reflexivity.
  - by left.
  - reflexivity.
  - reflexivity.
Defined.

(** C10 at [exampleState], for a save. *)
Lemma capture_without_data_stores_default_witness :
  success capturedNothing = true ∧ data capturedNothing = None ∧
  ∃ new st',
    saveCurrentSession "games" capturedNothing "n1" 1 2 Written exampleState
      = Returned new st' ∧
    new ∈ sessions st' ∧
    payload new = storedSessionDefaultValue.
Proof.
  split_and!; [reflexivity..|].
  exact (proj1 (capture_without_data_stores_default exampleState capturedNothing
                  eq_refl eq_refl) "games" "games" "n1" 1%Z 2%Z eq_refl).
Defined.

Lemma sessionA_conflictsWith_WORK : conflictsWith sessionB "b" " WORK " sessionA.
Proof. split_and!; [reflexivity|discriminate|reflexivity]. Qed.

(** C4 at the scenario of the specification: renaming B to the name of A. *)
Lemma renameSession_conflict_rejected_witness :
  list_find (λ s, id s = "b") (sessions exampleState) = Some (1, sessionB) ∧
  renameSession "b" " WORK " false Written exampleState =
    Threw (mkError "PopupService.renameSession" "Session name already exists")
          exampleState.
Proof.
  split; [reflexivity|].
  apply (renameSession_conflict_rejected exampleState "b" " WORK " "WORK"
           1 sessionB sessionA Written).
  - apply validateTrimmed_keeps_name.
  - reflexivity.
  - reflexivity.
  - by left.
  - exact sessionA_conflictsWith_WORK.
Defined.

Lemma sessionA'_conflictsWith_work : conflictsWith sessionB "b" "work" sessionA'.
Proof. split_and!; [reflexivity|discriminate|reflexivity]. Qed.

(** C5: in [twoNamesakes] both [sessionA] and [sessionA'] conflict with the
    name "work" given to [sessionB]; the rename with [overwrite] returns and
    [sessionA'] is still stored. *)
Lemma renameSession_overwrite_keeps_second_conflict :
  list_find (λ s, id s = "b") (sessions twoNamesakes) = Some (2, sessionB) ∧
  sessionA' ∈ sessions twoNamesakes ∧
  conflictsWith sessionB "b" "work" sessionA' ∧
  hasReturned (renameSession "b" "work" true Written twoNamesakes) = true ∧
  sessionA' ∈ sessions (stateOf (renameSession "b" "work" true Written twoNamesakes)).
Proof.
  split_and!.
  - reflexivity.
  - right. by left.
  - exact sessionA'_conflictsWith_work.
  - reflexivity.
  - change (sessionA' ∈ [sessionA'; setName "work" sessionB]). by left.
Qed.

(** C5 as the code has it, at the same input: [sessionA], the first
    conflicting session, is the one removed, and [sessionB] is found under
    its id with the new name. *)
Lemma renameSession_overwrite_removes_first_conflict_witness :
  ∃ k first st' j renamed,
    sessions twoNamesakes !! k = Some first ∧
    conflictsWith sessionB "b" "work" first ∧
    (∀ j t, sessions twoNamesakes !! j = Some t → j < k →
            ¬ conflictsWith sessionB "b" "work" t) ∧
    renameSession "b" "work" true Written twoNamesakes = Returned tt st' ∧
    (∀ s, s ∈ sessions st' → id s ≠ id first) ∧
    renamed = mkSession "b" "work" (domain sessionB) (createdAt sessionB)
                (lastUsed sessionB) (order sessionB) (payload sessionB) ∧
    name renamed = "work" ∧
    list_find (λ s, id s = "b") (sessions st') = Some (j, renamed) ∧
    list_find (λ s, id s = "b")
      (filter (λ s, id s ≠ id first) (sessions twoNamesakes)) = Some (j, sessionB) ∧
    sessions st'
      = <[j := renamed]> (filter (λ s, id s ≠ id first) (sessions twoNamesakes)) ∧
    (∀ t, t ∈ sessions twoNamesakes → id t ≠ id first → id t ≠ "b" →
          t ∈ sessions st') ∧
    activeSessions st' =
      (if decide (activeSessions twoNamesakes !! domain sessionB = Some (id first))
       then <[domain sessionB := "b"]> (activeSessions twoNamesakes)
       else activeSessions twoNamesakes) ∧
    currentDomain st' = currentDomain twoNamesakes.
Proof.
  apply (renameSession_overwrite_removes_first_conflict twoNamesakes "b" "work" "work"
           2 sessionB sessionA').
  - apply validateTrimmed_keeps_name.
  - reflexivity.
  - reflexivity.
  - right. by left.
  - exact sessionA'_conflictsWith_work.
Defined.

(** C6: with the popup open on [example.com], deleting [sessionX], the
    active session of [other.org], removes it and leaves the active pointer
    of [other.org] on its id. *)
Lemma deleteSession_other_domain_pointer_kept :
  sessionX ∈ sessions exampleState ∧
  activeSessions exampleState !! domain sessionX = Some (id sessionX) ∧
  (sessionX ∉ sessions (stateOf (deleteSession (id sessionX) Written exampleState))) ∧
  activeSessions (stateOf (deleteSession (id sessionX) Written exampleState))
    !! domain sessionX = Some (id sessionX).
Proof.
  split_and!.
  - do 2 right. by left.
  - reflexivity.
  - change (sessionX ∉ [sessionA; sessionB]).
    intros [Heq|[Heq|Hnil%elem_of_nil]%elem_of_cons]%elem_of_cons;
      [discriminate Heq|discriminate Heq|done].
  - reflexivity.
Qed.

(** C2: the same call breaks the validity of the active pointers, which
    holds before it, in a store with unique ids. *)
Lemma delete_other_domain_breaks_activeSessionsValid :
  idsUnique exampleState ∧
  activeSessionsValid exampleState ∧
  ¬ activeSessionsValid (run (Delete "x" Written) exampleState).
Proof.
  split_and!.
  - exact exampleState_idsUnique.
  - exact exampleState_activeSessionsValid.
  - intros Hval.
    destruct (Hval "other.org" "x" eq_refl) as (s & Hs & Hid & _).
    change (s ∈ [sessionA; sessionB]) in Hs.
    apply elem_of_cons in Hs as [->|Hs]; [discriminate Hid|].
    apply elem_of_cons in Hs as [->|Hs]; [discriminate Hid|].
    by apply elem_of_nil in Hs.
Qed.

(** C2 as the code has it, for a deletion in the current domain. *)
Lemma run_preserves_activeSessionsValid_witness :
  activeSessionsValid (run (Delete "a" Written) exampleState).
Proof.
  apply (run_preserves_activeSessionsValid (Delete "a" Written) exampleState).
  - exact exampleState_idsUnique.
  - exact exampleState_activeSessionsValid.
  - simpl. intros s Hs Hid.
    apply elem_of_cons in Hs as [->|Hs]; [reflexivity|].
    apply elem_of_cons in Hs as [->|Hs]; [reflexivity|].
    apply elem_of_cons in Hs as [->|Hs]; [discriminate Hid|].
    by apply elem_of_nil in Hs.
Defined.

Lemma exampleState_domain_ids :
  NoDup (id <$> filter (λ s, domain s = currentDomain exampleState)
                  (sessions exampleState)).
Proof.
  change (NoDup ["a"; "b"]).
  apply NoDup_cons. split; [|apply NoDup_singleton].
  intros Hin. apply elem_of_cons in Hin as [Hin|Hin]; [discriminate Hin|].
  by apply elem_of_nil in Hin.
Qed.

(** C7: [twins] is the state that the popup loads after the import of a
    file that holds two sessions under the id "e".  There, a list of the
    right length whose ids are not those of the domain (no session has the
    id "zzz") is accepted: the call returns, and the first of the two
    sessions has been given the order 0. *)
Lemma reorderSessions_accepts_other_ids :
  (loadStorageData (Some (importSessions [sessionE; sessionE'] emptyStorage))
     Written unloaded).1 = twins ∧
  length ["e"; "zzz"]
    = length (filter (λ s, domain s = currentDomain twins) (sessions twins)) ∧
  "zzz" ∈ ["e"; "zzz"] ∧
  ("zzz" ∉ id <$> filter (λ s, domain s = currentDomain twins) (sessions twins)) ∧
  ¬ NoDup (id <$> filter (λ s, domain s = currentDomain twins) (sessions twins)) ∧
  hasReturned (reorderSessions ["e"; "zzz"] Written twins) = true ∧
  sessions (stateOf (reorderSessions ["e"; "zzz"] Written twins))
    = [mkSession "e" "first" "example.com" 50 50 (Some 0%Z) "cookie-e1"; sessionE'] ∧
  sessions (stateOf (reorderSessions ["e"; "zzz"] Written twins)) ≠ sessions twins.
Proof.
  split_and!.
  - reflexivity.
  - reflexivity.
  - right. by left.
  - change ("zzz" ∉ ["e"; "e"]). intros Hin.
    repeat (apply elem_of_cons in Hin as [Hin|Hin]; [discriminate Hin|]).
    by apply elem_of_nil in Hin.
  - change (¬ NoDup ["e"; "e"]). intros [Hnotin _]%NoDup_cons.
    apply Hnotin. by left.
  - reflexivity.
  - reflexivity.
  - change ([mkSession "e" "first" "example.com" 50 50 (Some 0%Z) "cookie-e1"; sessionE']
            ≠ [sessionE; sessionE']).
    intros Heq. discriminate Heq.
Qed.

(** C7 as the code has it, at the scenario of the specification:
    [reorder([B.id, A.id])] gives A the order 1 and B the order 0. *)
Lemma reorderSessions_spec_witness :
  ∃ st',
    reorderSessions ["b"; "a"] Written exampleState = Returned tt st' ∧
    currentDomain st' = currentDomain exampleState ∧
    activeSessions st' = activeSessions exampleState ∧
    length (sessions st') = length (sessions exampleState) ∧
    ∀ i s, sessions exampleState !! i = Some s →
      (domain s ≠ currentDomain exampleState → sessions st' !! i = Some s) ∧
      (domain s = currentDomain exampleState →
         ∃ k, ["b"; "a"] !! k = Some (id s) ∧
              sessions st' !! i
                = Some (mkSession (id s) (name s) (domain s) (createdAt s)
                          (lastUsed s) (Some (Z.of_nat k)) (payload s))).
Proof.
  apply (reorderSessions_spec exampleState ["b"; "a"] Written).
  - exact exampleState_domain_ids.
  - reflexivity.
  - intros x.
    change (id <$> filter (λ s, domain s = currentDomain exampleState)
                     (sessions exampleState)) with ["a"; "b"].
    rewrite !elem_of_cons, !elem_of_nil. tauto.
Defined.

(** C9: an existing session whose domain is the empty string is kept by an
    import that contains a session of that domain. *)
Lemma mergeSessions_keeps_blank_domain :
  [blankDomainImported] ≠ [] ∧
  domain blankDomainStored ∈ domain <$> [blankDomainImported] ∧
  mergeSessions (Some [blankDomainStored]) [blankDomainImported]
    = Some [blankDomainStored; blankDomainImported].
Proof. split_and!; [discriminate|by left|reflexivity]. Qed.

(** C9 as the code has it, for an import into the store of [exampleState]. *)
Lemma mergeSessions_replaces_imported_domains_witness :
  ∃ kept,
    mergeSessions (Some (sessions exampleState)) [sessionA']
      = Some (kept ++ [sessionA']) ∧
    kept = filter (λ s, domain s = String.EmptyString ∨
                        domain s ∉ domain <$> [sessionA'])
                  (default [] (Some (sessions exampleState))) ∧
    (∀ s, s ∈ default [] (Some (sessions exampleState)) →
          domain s ≠ String.EmptyString →
          domain s ∈ domain <$> [sessionA'] → s ∉ kept) ∧
    (∀ s, s ∈ default [] (Some (sessions exampleState)) →
          domain s ∉ domain <$> [sessionA'] → s ∈ kept).
Proof.
  apply (mergeSessions_replaces_imported_domains
           (Some (sessions exampleState)) [sessionA']).
  discriminate.
Defined.

(** * More of the popup *)

Section MoreProperties.

Context `{Imports}.

Implicit Types (st : PopupState) (s t c : SessionData) (l : list SessionData).

(** ** Errors *)

Lemma returned_write op st :
  returned op st = true ↔
  returned (withWrite Written op) st = true ∧ writeResult op = Written.
Proof.
  destruct op; simpl.
  - apply saveCurrentSession_write.
  - apply switchToSession_write.
  - apply createNewSession_write.
  - apply renameSession_write.
  - apply overwriteSessionWithCurrent_write.
  - apply deleteSession_write.
  - apply reorderSessions_write.
Qed.

(** A call whose write succeeds and which throws all the same has thrown
    before its first assignment. *)
Lemma run_unchanged_when_rejected op st :
  returned (withWrite Written op) st = false → run (withWrite Written op) st = st.
Proof.
  destruct op; simpl.
  - unfold saveCurrentSession.
    destruct (validateSessionName name0); [|done].
    by destruct (success response).
  - unfold switchToSession.
    destruct (list_find _ (sessions st)) as [[i session]|]; [|done].
    by destruct (success response).
  - unfold createNewSession. by destruct (success response).
  - unfold renameSession.
    destruct (list_find _ (sessions st)) as [[i session]|]; [|done].
    destruct (validateSessionName newName); [|done].
    destruct (findSessionByName _ _ _ _); [|done].
    by destruct overwrite.
  - unfold overwriteSessionWithCurrent.
    destruct (list_find _ (sessions st)) as [[i session]|]; [|done].
    case_decide; [done|].
    destruct (match name0 with Some n => _ | None => _ end); [|done].
    by destruct (success response).
  - done.
  - unfold reorderSessions. case_decide; [done|]. by case_decide.
Qed.

(** X1. An operation of the service that throws has either changed
    nothing, or it is its write to the storage that was rejected: the call
    would have returned had the write succeeded, and the state it leaves is
    the state it would have returned with, which the storage does not
    hold. *)
Theorem thrown_unchanged_or_write_rejected op st :
  returned op st = false →
  run op st = st ∨
  ((∃ reason, writeResult op = WriteFailed reason) ∧
   returned (withWrite Written op) st = true ∧
   run op st = run (withWrite Written op) st).
Proof.
  intros Hthrown.
  destruct (returned (withWrite Written op) st) eqn:Hw.
  - right. split_and!; [|done|apply run_write].
    destruct (writeResult op) as [|reason] eqn:Hop; [|by exists reason].
    assert (returned op st = true) as Hret by (by apply returned_write).
    congruence.
  - left. rewrite run_write. by apply run_unchanged_when_rejected.
Qed.

(** ** Looking a session up after an operation *)

Lemma list_find_app_fresh (P : SessionData → Prop) `{∀ s, Decision (P s)} l s :
  (∀ t, t ∈ l → ¬ P t) → P s →
  list_find P (l ++ [s]) = Some (length l, s).
Proof.
  intros Hl Hs. induction l as [|x l IH]; simpl.
  - by rewrite decide_True.
  - rewrite decide_False by (apply Hl; by left).
    rewrite IH; [done|]. intros t Ht. apply Hl. by right.
Qed.

Lemma list_find_app_old (P : SessionData → Prop) `{∀ s, Decision (P s)} l s :
  ¬ P s → snd <$> list_find P (l ++ [s]) = snd <$> list_find P l.
Proof.
  intros Hs. induction l as [|x l IH]; simpl.
  - by rewrite decide_False.
  - case_decide; [done|].
    destruct (list_find P (l ++ [s])) as [[? ?]|],
             (list_find P l) as [[? ?]|]; simpl in *; congruence.
Qed.

Lemma list_find_filter_snd (P Q : SessionData → Prop)
    `{∀ s, Decision (P s)} `{∀ s, Decision (Q s)} l :
  (∀ s, P s → Q s) →
  snd <$> list_find P (filter Q l) = snd <$> list_find P l.
Proof.
  intros HPQ. induction l as [|x l IH]; [done|].
  destruct (decide (Q x)) as [HQ|HQ].
  - rewrite filter_cons_True by done. simpl. case_decide; [done|].
    destruct (list_find P (filter Q l)) as [[? ?]|],
             (list_find P l) as [[? ?]|]; simpl in *; congruence.
  - rewrite filter_cons_False by done. simpl.
    rewrite decide_False by (intros ?; by apply HQ, HPQ).
    rewrite IH. by destruct (list_find P l) as [[? ?]|].
Qed.

(** X2. After a save that returns, under an id that no stored session has,
    [getSession] of that id is the session returned, and [getSession] of
    any other id is what it was before. *)
Theorem getSession_after_save
    st name0 v (response : MessageResponse StoredSession) generatedId now1 now2 :
  validateSessionName name0 = Valid v →
  success response = true →
  generatedId ∉ id <$> sessions st →
  ∃ new st',
    saveCurrentSession name0 response generatedId now1 now2 Written st = Returned new st' ∧
    getSession st' generatedId = Some new ∧
    ∀ j, j ≠ generatedId → getSession st' j = getSession st j.
Proof.
  intros Hv Hok Hfresh.
  do 2 eexists. split; [by apply saveCurrentSession_returns|].
  unfold getSession. simpl. split.
  - rewrite list_find_app_fresh; [done| |done].
    intros t Ht Hid. apply Hfresh. rewrite <- Hid. by apply list_elem_of_fmap_2.
  - intros j Hj. apply list_find_app_old. simpl. congruence.
Qed.

(** X3. After [deleteSession(i)], whether it returns or its write is
    rejected, [getSession(i)] finds nothing, and [getSession] of any other
    id is what it was before. *)
Theorem getSession_after_delete st i written :
  getSession (stateOf (deleteSession i written st)) i = None ∧
  ∀ j, j ≠ i → getSession (stateOf (deleteSession i written st)) j = getSession st j.
Proof.
  assert (sessions (stateOf (deleteSession i written st))
          = filter (λ s, id s ≠ i) (sessions st)) as Hs.
  { unfold deleteSession. rewrite stateOf_awaitSave. simpl. by case_decide. }
  unfold getSession. rewrite Hs. split.
  - destruct (list_find _ _) as [[k s]|] eqn:Hf; [|done].
    apply list_find_Some in Hf as (Hk & Hid & _).
    apply list_elem_of_lookup_2, list_elem_of_filter in Hk as [Hne _]. done.
  - intros j Hj. apply list_find_filter_snd. intros s ->. done.
Qed.

(** X4. After a rename that returns, with or without [overwrite],
    [getSession] of the id renamed is the session that was found under that
    id before, with the validated name as its name and every other field as
    it was. *)
Theorem getSession_after_rename st sessionId newName overwrite written v i session :
  list_find (λ s, id s = sessionId) (sessions st) = Some (i, session) →
  validateSessionName newName = Valid v →
  returned (Rename sessionId newName overwrite written) st = true →
  getSession (run (Rename sessionId newName overwrite written) st) sessionId
    = Some (mkSession (id session) v (domain session) (createdAt session)
              (lastUsed session) (order session) (payload session)).
Proof.
  intros Hf Hv [Hret _]%returned_write. revert Hret.
  rewrite run_write.
  change (Some (mkSession (id session) v (domain session) (createdAt session)
                  (lastUsed session) (order session) (payload session)))
    with (Some (setName v session)).
  simpl. unfold renameSession, getSession. rewrite Hf, Hv.
  assert (∀ l j, list_find (λ s, id s = sessionId) l = Some (j, session) →
            snd <$> list_find (λ s, id s = sessionId)
                      (mutateFound (λ s, id s = sessionId) (setName v) l)
            = Some (setName v session)) as Hmut.
  { intros l j Hj. unfold mutateFound. rewrite Hj.
    pose proof Hj as (Hl & Hid & Hleast)%list_find_Some.
    assert (list_find (λ s, id s = sessionId) (<[j := setName v session]> l)
            = Some (j, setName v session)) as ->; [|done].
    by eapply list_find_insert_found. }
  destruct (findSessionByName _ _ _ _) as [conflict|] eqn:Hfind.
  - destruct overwrite; [|done]. intros _. simpl.
    apply findSessionByName_Some in Hfind as [k Hk].
    apply list_find_Some in Hk as (_ & (_ & Hcid & _) & _).
    destruct (list_find_filter_keeps (λ s, id s = sessionId)
                (λ s, id s ≠ id conflict) (sessions st) i session Hf)
      as [j Hj].
    { apply list_find_Some in Hf as (_ & Hid & _). congruence. }
    destruct (decide (activeSessions _ !! _ = _)); simpl; by eapply Hmut.
  - intros _. simpl. by eapply Hmut.
Qed.

(** ** Switching, and the blank session *)

(** X5. Whatever its outcome, [switchToSession] adds, removes and reorders
    no session and changes no field of a session other than [lastUsed]
    (the sessions, their [lastUsed] put aside, are as they were), and it
    leaves the active pointers of the domains other than the current one
    as they were.  When it returns, the id given is active for the current
    domain and the session found under that id is the one found before
    with the time of the call as [lastUsed], every other field being as it
    was. *)
Theorem switchToSession_touches_lastUsed_only
    st sessionId (response : MessageResponse StoredSession) now written :
  (λ s, mkSession (id s) (name s) (domain s) (createdAt s) 0 (order s) (payload s))
    <$> sessions (run (Switch sessionId response now written) st)
    = (λ s, mkSession (id s) (name s) (domain s) (createdAt s) 0 (order s) (payload s))
        <$> sessions st ∧
  (∀ d, d ≠ currentDomain st →
     activeSessions (run (Switch sessionId response now written) st) !! d
       = activeSessions st !! d) ∧
  (returned (Switch sessionId response now written) st = true →
     activeSessions (run (Switch sessionId response now written) st) !! currentDomain st
       = Some sessionId ∧
     ∃ session,
       getSession st sessionId = Some session ∧
       getSession (run (Switch sessionId response now written) st) sessionId
         = Some (mkSession (id session) (name session) (domain session)
                   (createdAt session) now (order session) (payload session))).
Proof.
  rewrite run_write.
  assert (returned (Switch sessionId response now written) st = true →
          returned (Switch sessionId response now Written) st = true) as Hret
    by (by intros [? _]%returned_write).
  simpl in *. revert Hret. unfold switchToSession, getSession.
  destruct (list_find _ (sessions st)) as [[i session]|] eqn:Hf;
    [|simpl; intros Hret; split_and!; [done..|]; intros ?%Hret; done].
  destruct (success response);
    [|simpl; intros Hret; split_and!; [done..|]; intros ?%Hret; done].
  simpl. intros _.
  pose proof Hf as (Hi & Hid & Hleast)%list_find_Some.
  split_and!.
  - by apply insert_fmap_keeps with (s := session).
  - intros d Hd. by rewrite lookup_insert_ne.
  - intros _. split; [apply lookup_insert_eq|].
    exists session. split; [done|].
    assert (list_find (λ s, id s = sessionId)
              (<[i := setLastUsed now session]> (sessions st))
            = Some (i, setLastUsed now session)) as ->; [|done].
    by eapply list_find_insert_found.
Qed.

(** X6. [createNewSession] deletes no stored session: whatever its outcome
    the sessions are the same, as are the active pointers of the other
    domains.  When the background script reports success the current domain
    has no active session afterwards, and a second call changes nothing
    more. *)
Theorem createNewSession_only_deselects
    st (response : MessageResponse StoredSession) written :
  sessions (run (CreateNew response written) st) = sessions st ∧
  (∀ d, d ≠ currentDomain st →
     activeSessions (run (CreateNew response written) st) !! d = activeSessions st !! d) ∧
  (success response = true →
     activeSessions (run (CreateNew response written) st) !! currentDomain st = None) ∧
  run (CreateNew response written) (run (CreateNew response written) st)
    = run (CreateNew response written) st.
Proof.
  rewrite !(run_write (CreateNew response written)).
  simpl. unfold createNewSession.
  destruct (success response) eqn:Hok; simpl; [|done].
  split_and!.
  - done.
  - intros d Hd. by rewrite lookup_delete_ne.
  - intros _. apply lookup_delete_eq.
  - unfold withActiveSessions. simpl. by rewrite delete_delete_eq.
Qed.

(** ** Export and import *)

Lemma mergeSessions_nonempty (stored : option (list SessionData)) imported :
  imported ≠ [] →
  mergeSessions stored imported
    = Some (filter (λ s, domain s = String.EmptyString ∨
                         domain s ∉ domain <$> imported)
                   (default [] stored) ++ imported).
Proof.
  intros Hne. unfold mergeSessions.
  rewrite decide_False by (by destruct imported).
  do 2 f_equal. apply list_filter_iff. intros s.
  rewrite elem_of_list_to_set, list_elem_of_filter. split.
  - intros Hnot. destruct (decide (domain s = String.EmptyString)); [by left|].
    right. intros Hin. apply Hnot. by split.
  - intros [He|Hnot] [Hd Hin]; done.
Qed.

Lemma filter_none (P : SessionData → Prop) `{∀ s, Decision (P s)} l :
  (∀ s, s ∈ l → ¬ P s) → filter P l = [].
Proof.
  induction l as [|x l IH]; intros Hall; [reflexivity|].
  rewrite filter_cons_False by (apply Hall; by left).
  apply IH. intros s Hs. apply Hall. by right.
Qed.

(** X7. Export of all sessions, then import, is a round trip: merging a
    non-empty export into a storage that holds no session stores exactly the
    exported sessions, in their order; and merging it back into the storage
    it was exported from leaves that storage as it was, provided no session
    has the empty string as domain. *)
Theorem export_all_then_import l (stored : option (list SessionData)) cur :
  l ≠ [] →
  (default [] stored = [] →
     mergeSessions stored (buildExportData ScopeAll (Some l) cur) = Some l) ∧
  ((∀ s, s ∈ l → domain s ≠ String.EmptyString) →
     mergeSessions (Some l) (buildExportData ScopeAll (Some l) cur) = Some l).
Proof.
  intros Hne. simpl. split.
  - intros Hempty. rewrite mergeSessions_nonempty by done.
    by rewrite Hempty.
  - intros Hdom. rewrite mergeSessions_nonempty by done. simpl.
    rewrite filter_none; [done|].
    intros s Hs [He|Hnot].
    + by apply (Hdom s).
    + apply Hnot. by apply list_elem_of_fmap_2.
Qed.

(** X8. Export of the current domain, then import into the same storage,
    loses and adds nothing: when the current domain is not the empty string
    and has sessions, the storage afterwards holds the sessions of the other
    domains followed by those of the current domain, each group in its
    order, which is a permutation of what it held. *)
Theorem export_current_then_import l cur :
  cur ≠ String.EmptyString →
  buildExportData ScopeCurrent (Some l) cur ≠ [] →
  mergeSessions (Some l) (buildExportData ScopeCurrent (Some l) cur)
    = Some (filter (λ s, domain s ≠ cur) l ++ filter (λ s, domain s = cur) l) ∧
  filter (λ s, domain s ≠ cur) l ++ filter (λ s, domain s = cur) l ≡ₚ l.
Proof.
  intros Hcur Hne. simpl in *. split.
  - rewrite mergeSessions_nonempty by done. simpl. do 2 f_equal.
    apply list_filter_iff. intros s. split.
    + intros [He|Hnot] Hd.
      * congruence.
      * apply Hnot. apply list_elem_of_fmap.
        destruct (filter (λ s0, domain s0 = cur) l) as [|t ts] eqn:Hf; [done|].
        assert (t ∈ filter (λ s0, domain s0 = cur) l) as Ht
          by (rewrite Hf; by left).
        exists t. split; [|by rewrite <- Hf].
        apply list_elem_of_filter in Ht as [-> _]. done.
    + intros Hd. right.
      intros (t & Ht & [Htd _]%list_elem_of_filter)%list_elem_of_fmap.
      congruence.
  - rewrite Permutation_app_comm. apply filter_app_complement.
Qed.

(** X9. Importing the same sessions twice is importing them once, when no
    imported session has the empty string as domain. *)
Theorem mergeSessions_idempotent (stored : option (list SessionData)) imported :
  (∀ s, s ∈ imported → domain s ≠ String.EmptyString) →
  mergeSessions (mergeSessions stored imported) imported
    = mergeSessions stored imported.
Proof.
  intros Hdom. destruct imported as [|x imported']; [done|].
  set (imported := x :: imported') in *.
  rewrite (mergeSessions_nonempty stored imported) by done.
  rewrite mergeSessions_nonempty by done. simpl default.
  f_equal. f_equal. rewrite filter_app.
  rewrite (filter_none _ imported).
  - rewrite app_nil_r. rewrite list_filter_filter.
    apply list_filter_iff. tauto.
  - intros s Hs [He|Hnot].
    + by apply (Hdom s).
    + apply Hnot. by apply list_elem_of_fmap_2.
Qed.


(** ** The migration of legacy sessions *)

Lemma positionsFrom_elem_of d p l q :
  q ∈ positionsFrom d p l ↔ ∃ i s, q = p + i ∧ l !! i = Some s ∧ domain s = d.
Proof.
  revert p. induction l as [|s0 l IH]; intros p; simpl.
  - split; [by intros ?%elem_of_nil|]. intros (i & s & _ & Hi & _).
    by rewrite lookup_nil in Hi.
  - assert (q ∈ positionsFrom d (S p) l ↔
            ∃ i s, q = p + S i ∧ l !! i = Some s ∧ domain s = d) as IH'.
    { rewrite IH. split; intros (i & s & -> & ? & ?); exists i, s;
        split_and!; try done; lia. }
    case_decide as Hd.
    + rewrite elem_of_cons, IH'. split.
      * intros [->|(i & s & -> & Hi & Hs)].
        -- exists 0, s0. split_and!; [lia|done..].
        -- exists (S i), s. by split_and!.
      * intros (i & s & -> & Hi & Hs). destruct i as [|i]; simpl in Hi.
        -- left. lia.
        -- right. by exists i, s.
    + rewrite IH'. split.
      * intros (i & s & -> & Hi & Hs). exists (S i), s. by split_and!.
      * intros (i & s & -> & Hi & Hs). destruct i as [|i]; simpl in Hi.
        -- congruence.
        -- by exists i, s.
Qed.

Lemma positionsFrom_ge d p l q : q ∈ positionsFrom d p l → p ≤ q.
Proof. intros (i & s & -> & _)%positionsFrom_elem_of. lia. Qed.

Lemma positionsFrom_NoDup d p l : NoDup (positionsFrom d p l).
Proof.
  revert p. induction l as [|s0 l IH]; intros p; simpl; [constructor|].
  case_decide; [|apply IH].
  apply NoDup_cons. split; [|apply IH].
  intros Hin%positionsFrom_ge. lia.
Qed.

(** The place of a position in its group is the number of sessions of the
    domain before it. *)
Lemma positionsFrom_lookup d p l j i :
  positionsFrom d p l !! j = Some (p + i) → j = countBefore d i l.
Proof.
  unfold countBefore. revert p j i.
  induction l as [|s0 l IH]; intros p j i; simpl.
  { by rewrite lookup_nil. }
  case_decide as Hd.
  - destruct j as [|j]; simpl.
    + intros [= Hp]. assert (i = 0) as -> by lia. done.
    + intros Hj. destruct i as [|i].
      { apply list_elem_of_lookup_2, positionsFrom_ge in Hj. lia. }
      replace (p + S i) with (S p + i) in Hj by lia.
      simpl. rewrite filter_cons_True by done. simpl. f_equal. by eapply IH.
  - intros Hj. destruct i as [|i].
    { apply list_elem_of_lookup_2, positionsFrom_ge in Hj. lia. }
    replace (p + S i) with (S p + i) in Hj by lia.
    simpl. rewrite filter_cons_False by done. by eapply IH.
Qed.

Lemma groupPush_keys d p m d' :
  d' ∈ (groupPush d p m).*1 ↔ d' = d ∨ d' ∈ m.*1.
Proof.
  induction m as [|[d0 ps] m IH]; simpl.
  - rewrite list_elem_of_singleton, elem_of_nil. tauto.
  - case_decide as Hd; simpl; rewrite !elem_of_cons.
    + subst. tauto.
    + rewrite IH. tauto.
Qed.

Lemma groupPush_NoDup d p m : NoDup m.*1 → NoDup (groupPush d p m).*1.
Proof.
  induction m as [|[d0 ps] m IH]; simpl.
  - intros _. apply NoDup_singleton.
  - intros [Hd0 Hnd]%NoDup_cons. case_decide as Hd; simpl.
    + by apply NoDup_cons.
    + apply NoDup_cons. split; [|by apply IH].
      rewrite groupPush_keys. intros [->|?]; done.
Qed.

Lemma groupOf_push d p m d' :
  groupOf d' (groupPush d p m)
    = if decide (d' = d) then groupOf d' m ++ [p] else groupOf d' m.
Proof.
  induction m as [|[d0 ps] m IH]; simpl.
  - destruct (decide (d = d')), (decide (d' = d)); congruence.
  - destruct (decide (d0 = d)) as [->|Hd0]; simpl.
    + destruct (decide (d = d')), (decide (d' = d)); congruence.
    + destruct (decide (d0 = d')) as [->|Hd0'].
      * by rewrite decide_False by done.
      * apply IH.
Qed.

Lemma groupSessions_spec p l m :
  NoDup m.*1 →
  NoDup (groupSessions p l m).*1 ∧
  (∀ d, d ∈ (groupSessions p l m).*1 ↔ d ∈ m.*1 ∨ d ∈ domain <$> l) ∧
  (∀ d, groupOf d (groupSessions p l m) = groupOf d m ++ positionsFrom d p l).
Proof.
  revert p m. induction l as [|s0 l IH]; intros p m Hnd; simpl.
  - split_and!; [done| |].
    + intros d. rewrite elem_of_nil. tauto.
    + intros d. by rewrite app_nil_r.
  - destruct (IH (S p) (groupPush (domain s0) p m)) as (Hnd' & Hkeys & Hgroup).
    { by apply groupPush_NoDup. }
    split_and!; [done| |].
    + intros d. rewrite Hkeys, groupPush_keys, elem_of_cons. tauto.
    + intros d. rewrite Hgroup, groupOf_push.
      destruct (decide (d = domain s0)) as [->|Hd].
      * rewrite decide_True by done. by rewrite <- app_assoc.
      * by rewrite decide_False by congruence.
Qed.

Lemma groupOf_elem_of d ps m : NoDup m.*1 → (d, ps) ∈ m → groupOf d m = ps.
Proof.
  induction m as [|[d0 ps0] m IH]; simpl.
  - by intros _ ?%elem_of_nil.
  - intros [Hd0 Hnd]%NoDup_cons [[= -> ->]|Hin]%elem_of_cons.
    + by rewrite decide_True.
    + rewrite decide_False; [by apply IH|].
      intros ->. apply Hd0. by apply (list_elem_of_fmap_2 fst) in Hin.
Qed.

Lemma migrateSession_spec index p l1 b :
  (migrateSession index p (l1, b)).1 = alter (numbered index) p l1 ∧
  ((migrateSession index p (l1, b)).2 = true ↔
   b = true ∨ ∃ s, l1 !! p = Some s ∧ order s = None).
Proof.
  unfold migrateSession. simpl.
  destruct (l1 !! p) as [s|] eqn:Hp.
  - unfold numbered. destruct (order s) as [o|] eqn:Ho; simpl.
    + split.
      * symmetry. apply list_eq. intros q.
        destruct (decide (q = p)) as [->|Hq].
        -- rewrite list_lookup_alter_eq, Hp. simpl. by rewrite Ho.
        -- by rewrite list_lookup_alter_ne.
      * split; [by left|]. intros [?|(s' & [= <-] & ?)]; congruence.
    + split.
      * apply list_eq. intros q.
        destruct (decide (q = p)) as [->|Hq].
        -- rewrite list_lookup_alter_eq, Hp. simpl. rewrite Ho.
           apply list_lookup_insert_eq. by eapply lookup_lt_Some.
        -- by rewrite list_lookup_alter_ne, list_lookup_insert_ne.
      * split; [|done]. intros _. right. by exists s.
  - simpl. split.
    + symmetry. apply list_eq. intros q.
      destruct (decide (q = p)) as [->|Hq].
      * by rewrite list_lookup_alter_eq, Hp.
      * by rewrite list_lookup_alter_ne.
    + split; [by left|]. intros [?|(s' & Hs' & ?)]; [done|discriminate].
Qed.

Lemma migrateGroup_spec index ps l1 b :
  NoDup ps →
  length (migrateGroup index ps (l1, b)).1 = length l1 ∧
  (∀ q, q ∉ ps → (migrateGroup index ps (l1, b)).1 !! q = l1 !! q) ∧
  (∀ j q s, ps !! j = Some q → l1 !! q = Some s →
     (migrateGroup index ps (l1, b)).1 !! q = Some (numbered (index + j) s)) ∧
  ((migrateGroup index ps (l1, b)).2 = true ↔
   b = true ∨ ∃ q s, q ∈ ps ∧ l1 !! q = Some s ∧ order s = None).
Proof.
  revert index l1 b. induction ps as [|p ps IH]; intros index l1 b Hnd; simpl.
  - split_and!; [done|done| |].
    + intros j q s Hj. by rewrite lookup_nil in Hj.
    + split; [by left|]. intros [?|(q & s & ?%elem_of_nil & _)]; done.
  - apply NoDup_cons in Hnd as [Hp Hnd].
    destruct (migrateSession_spec index p l1 b) as [Hl Hb].
    destruct (migrateSession index p (l1, b)) as [l1' b'] eqn:Hstep.
    simpl in Hl, Hb. subst l1'.
    destruct (IH (S index) (alter (numbered index) p l1) b' Hnd)
      as (Hlen & Hout & Hin & Hflag).
    split_and!.
    + by rewrite Hlen, length_alter.
    + intros q [Hqp Hq]%not_elem_of_cons.
      rewrite Hout by done. by rewrite list_lookup_alter_ne.
    + intros j q s Hj Hs. destruct j as [|j]; simpl in Hj.
      * injection Hj as ->. rewrite Hout by done.
        rewrite list_lookup_alter_eq, Hs. simpl. by rewrite Nat.add_0_r.
      * assert (q ≠ p) as Hqp.
        { intros ->. apply Hp. by eapply list_elem_of_lookup_2. }
        rewrite (Hin j q s Hj) by (by rewrite list_lookup_alter_ne).
        do 2 f_equal. lia.
    + rewrite Hflag, Hb. split.
      * intros [[?|(s & Hs & Ho)]|(q & s & Hq & Hs & Ho)].
        -- by left.
        -- right. exists p, s. split_and!; [by left|done..].
        -- right. exists q, s. split_and!; [by right| |done].
           rewrite list_lookup_alter_ne in Hs; [done|].
           intros <-. done.
      * intros [?|(q & s & [->|Hq]%elem_of_cons & Hs & Ho)].
        -- left. by left.
        -- left. right. by exists s.
        -- right. exists q, s. split_and!; [done| |done].
           rewrite list_lookup_alter_ne; [done|]. intros <-. done.
Qed.

Lemma migrateGroups_spec l m l1 b :
  NoDup m.*1 →
  (∀ d ps, (d, ps) ∈ m → ps = positionsFrom d 0 l) →
  length l1 = length l →
  (∀ q s, l !! q = Some s →
     l1 !! q = Some (if decide (domain s ∈ m.*1) then s else migrated l q s)) →
  length (migrateGroups m (l1, b)).1 = length l ∧
  (∀ q s, l !! q = Some s →
     (migrateGroups m (l1, b)).1 !! q = Some (migrated l q s)) ∧
  ((migrateGroups m (l1, b)).2 = true ↔
   b = true ∨ ∃ q s, l !! q = Some s ∧ domain s ∈ m.*1 ∧ order s = None).
Proof.
  revert l1 b. induction m as [|[d ps] m IH]; intros l1 b Hnd Hgroups Hlen Hinv.
  - simpl. split_and!; [done| |].
    + intros q s Hq. rewrite (Hinv q s Hq). by rewrite decide_False by apply not_elem_of_nil.
    + split; [by left|]. intros [?|(q & s & _ & ?%elem_of_nil & _)]; done.
  - rewrite fmap_cons in Hnd, Hinv |- *. cbn [fst migrateGroups] in *.
    apply NoDup_cons in Hnd as [Hd Hnd].
    assert (ps = positionsFrom d 0 l) as -> by (apply Hgroups; by left).
    destruct (migrateGroup_spec 0 (positionsFrom d 0 l) l1 b
                (positionsFrom_NoDup d 0 l)) as (Hlen' & Hout & Hin & Hflag).
    destruct (migrateGroup 0 (positionsFrom d 0 l) (l1, b)) as [l1' b'].
    simpl in Hlen', Hout, Hin, Hflag.
    assert (∀ q s, l !! q = Some s → domain s = d → l1 !! q = Some s) as Horig.
    { intros q s Hq Hs. rewrite (Hinv q s Hq).
      rewrite decide_True; [done|]. rewrite Hs. by left. }
    destruct (IH l1' b') as (Hlen2 & Hall & Hflag2).
    + done.
    + intros d' ps' Hin'. apply Hgroups. by right.
    + congruence.
    + intros q s Hq. destruct (decide (domain s = d)) as [Hs|Hs].
      * assert (q ∈ positionsFrom d 0 l) as [j Hj]%list_elem_of_lookup.
        { apply positionsFrom_elem_of. by exists q, s. }
        rewrite (Hin j q s Hj (Horig q s Hq Hs)).
        rewrite decide_False by (by rewrite Hs).
        f_equal. unfold migrated, numbered.
        change q with (0 + q) in Hj. apply positionsFrom_lookup in Hj.
        by rewrite Hs, Hj.
      * rewrite Hout, (Hinv q s Hq).
        -- destruct (decide (domain s ∈ d :: m.*1)) as [Hi|Hi],
                    (decide (domain s ∈ m.*1)) as [Hi'|Hi']; try done.
           ++ by apply elem_of_cons in Hi as [?|?].
           ++ destruct Hi. by right.
        -- intros (i & s' & Hqi & Hi & Hs')%positionsFrom_elem_of.
           simpl in Hqi. subst i. congruence.
    + split_and!; [done..|].
      rewrite Hflag2, Hflag. split.
      * intros [[?|(q & s & Hq & Hs & Ho)]|(q & s & Hq & Hs & Ho)].
        -- by left.
        -- right.
           apply positionsFrom_elem_of in Hq as (i & s' & Hqi & Hi & Hs').
           simpl in Hqi. subst i.
           rewrite (Horig q s' Hi Hs') in Hs. injection Hs as ->.
           exists q, s. split_and!; [done| |done]. rewrite Hs'. by left.
        -- right. exists q, s. split_and!; [done| |done]. by right.
      * intros [?|(q & s & Hq & [Hs|Hs]%elem_of_cons & Ho)].
        -- left. by left.
        -- left. right. exists q, s. split_and!; [|by apply Horig|done].
           apply positionsFrom_elem_of. by exists q, s.
        -- right. by exists q, s.
Qed.

Lemma withSessions_id st : withSessions st (sessions st) = st.
Proof. by destruct st. Qed.

Lemma migrateLegacySessions_lookup st :
  length (sessions (migrateLegacySessions st).2) = length (sessions st) ∧
  (∀ q s, sessions st !! q = Some s →
     sessions (migrateLegacySessions st).2 !! q = Some (migrated (sessions st) q s)) ∧
  ((migrateLegacySessions st).1 = true ↔
   ∃ s, s ∈ sessions st ∧ order s = None).
Proof.
  unfold migrateLegacySessions. simpl.
  destruct (groupSessions_spec 0 (sessions st) []) as (Hnd & Hkeys & Hgroup);
    [constructor|].
  destruct (migrateGroups_spec (sessions st)
              (groupSessions 0 (sessions st) []) (sessions st) false)
    as (Hlen & Hall & Hflag).
  - done.
  - intros d ps Hin. rewrite <- (groupOf_elem_of d ps _ Hnd Hin). apply Hgroup.
  - done.
  - intros q s Hq. rewrite decide_True; [done|].
    apply Hkeys. right. apply list_elem_of_fmap_2. by eapply list_elem_of_lookup_2.
  - split_and!; [done..|]. rewrite Hflag. split.
    + intros [?|(q & s & Hq & _ & Ho)]; [done|].
      exists s. split; [by eapply list_elem_of_lookup_2|done].
    + intros (s & [q Hq]%list_elem_of_lookup & Ho). right.
      exists q, s. split_and!; [done| |done].
      apply Hkeys. right. apply list_elem_of_fmap_2. by eapply list_elem_of_lookup_2.
Qed.


Lemma migrateLegacySessions_ordered st s' :
  s' ∈ sessions (migrateLegacySessions st).2 → order s' ≠ None.
Proof.
  destruct (migrateLegacySessions_lookup st) as (Hlen & Hall & _).
  intros [q Hq']%list_elem_of_lookup.
  destruct (lookup_lt_is_Some_2 (sessions st) q) as [s Hq].
  { rewrite <- Hlen. by eapply lookup_lt_Some. }
  rewrite (Hall q s Hq) in Hq'. injection Hq' as <-.
  unfold migrated. destruct (order s) eqn:Ho; [by rewrite Ho|done].
Qed.

(** A store in which every session has an order is left alone. *)
Lemma migrateLegacySessions_none st :
  (∀ s, s ∈ sessions st → order s ≠ None) →
  migrateLegacySessions st = (false, st).
Proof.
  intros Hord.
  destruct (migrateLegacySessions_lookup st) as (Hlen & Hall & Hflag).
  assert ((migrateLegacySessions st).1 = false) as Hfalse.
  { destruct (migrateLegacySessions st).1; [|done].
    destruct Hflag as [Hex _]. destruct (Hex eq_refl) as (s & Hs & Ho).
    by destruct (Hord s Hs). }
  assert (sessions (migrateLegacySessions st).2 = sessions st) as Hsame.
  { apply list_eq. intros q.
    destruct (sessions st !! q) as [s|] eqn:Hq.
    - rewrite (Hall q s Hq). f_equal. unfold migrated.
      destruct (order s) eqn:Ho; [done|].
      destruct (Hord s); [by eapply list_elem_of_lookup_2|done].
    - apply lookup_ge_None. rewrite Hlen. by apply lookup_ge_None. }
  rewrite (surjective_pairing (migrateLegacySessions st)), Hfalse. f_equal.
  change ((migrateLegacySessions st).2)
    with (withSessions st (sessions (migrateLegacySessions st).2)).
  rewrite Hsame. apply withSessions_id.
Qed.

(** X11. [migrateLegacySessions] returns [true] exactly when some session
    has no order, and it is idempotent: a second migration returns [false]
    and changes nothing. *)
Theorem migrateLegacySessions_idempotent st :
  ((migrateLegacySessions st).1 = true ↔ ∃ s, s ∈ sessions st ∧ order s = None) ∧
  migrateLegacySessions (migrateLegacySessions st).2
    = (false, (migrateLegacySessions st).2).
Proof.
  split.
  - apply migrateLegacySessions_lookup.
  - apply migrateLegacySessions_none. apply migrateLegacySessions_ordered.
Qed.

(** ** Loading the storage *)

Lemma loadStorageData_array stg st l :
  storedSessions stg = SessionsArray l →
  loadStorageData (Some stg) Written st
    = ((migrateLegacySessions
          (withActiveSessions (withSessions st l)
             (default ∅ (storedActiveSessions stg)))).2,
       Some (if (migrateLegacySessions
                   (withActiveSessions (withSessions st l)
                      (default ∅ (storedActiveSessions stg)))).1
             then saveStorageData
                    (migrateLegacySessions
                       (withActiveSessions (withSessions st l)
                          (default ∅ (storedActiveSessions stg)))).2
             else stg)).
Proof.
  intros Hstored. unfold loadStorageData. rewrite Hstored. cbv zeta.
  change (default [] (storedArray (SessionsArray l))) with l.
  by destruct (migrateLegacySessions _).1.
Qed.

(** The array needs no migration: nothing is written. *)
Lemma loadStorageData_array_kept stg st l written :
  storedSessions stg = SessionsArray l →
  (migrateLegacySessions
     (withActiveSessions (withSessions st l)
        (default ∅ (storedActiveSessions stg)))).1 = false →
  loadStorageData (Some stg) written st
    = ((migrateLegacySessions
          (withActiveSessions (withSessions st l)
             (default ∅ (storedActiveSessions stg)))).2, Some stg).
Proof.
  intros Hstored Hflag. unfold loadStorageData. rewrite Hstored. cbv zeta.
  change (default [] (storedArray (SessionsArray l))) with l. by rewrite Hflag.
Qed.

(** The write that follows the migration is rejected: the [catch] empties
    the state. *)
Lemma loadStorageData_array_failed stg st l reason :
  storedSessions stg = SessionsArray l →
  (migrateLegacySessions
     (withActiveSessions (withSessions st l)
        (default ∅ (storedActiveSessions stg)))).1 = true →
  loadStorageData (Some stg) (WriteFailed reason) st
    = (withActiveSessions (withSessions st []) ∅, Some stg).
Proof.
  intros Hstored Hflag. unfold loadStorageData. rewrite Hstored. cbv zeta.
  change (default [] (storedArray (SessionsArray l))) with l. by rewrite Hflag.
Qed.

Lemma loadStorageData_falsy stg st written :
  storedSessions stg = SessionsFalsy →
  loadStorageData (Some stg) written st
    = (withActiveSessions (withSessions st [])
         (default ∅ (storedActiveSessions stg)), Some stg).
Proof. intros Hstored. unfold loadStorageData. by rewrite Hstored. Qed.

Lemma loadStorageData_notArray stg st written :
  storedSessions stg = SessionsNotArray →
  loadStorageData (Some stg) written st
    = (withActiveSessions (withSessions st []) ∅, Some stg).
Proof. intros Hstored. unfold loadStorageData. by rewrite Hstored. Qed.

Lemma loadStorageData_again storage st written :
  loadStorageData (loadStorageData storage Written st).2 written
      (loadStorageData storage Written st).1
    = loadStorageData storage Written st.
Proof.
  destruct storage as [stg|]; [|done].
  destruct (storedSessions stg) as [| |l] eqn:Hstored.
  - rewrite (loadStorageData_falsy stg st Written Hstored). cbn [fst snd].
    by rewrite (loadStorageData_falsy stg _ written Hstored).
  - rewrite (loadStorageData_notArray stg st Written Hstored). cbn [fst snd].
    by rewrite (loadStorageData_notArray stg _ written Hstored).
  - rewrite (loadStorageData_array stg st l Hstored). cbn [fst snd].
    set (st1 := withActiveSessions (withSessions st l)
                  (default ∅ (storedActiveSessions stg))).
    destruct (migrateLegacySessions st1).1 eqn:Hflag.
    + assert (∀ x, withActiveSessions (withSessions x (sessions x))
                     (default ∅ (storedActiveSessions (saveStorageData x))) = x)
        as Hid by (by intros []).
      rewrite (loadStorageData_array_kept _ _
                 (sessions (migrateLegacySessions st1).2) written);
        [|done|];
        rewrite Hid;
        rewrite migrateLegacySessions_none by apply migrateLegacySessions_ordered;
        done.
    + assert (withActiveSessions (withSessions (migrateLegacySessions st1).2 l)
                (default ∅ (storedActiveSessions stg)) = st1) as Hst1 by done.
      rewrite (loadStorageData_array_kept _ _ l written Hstored);
        by rewrite Hst1.
Qed.

(** X12. After [loadStorageData], whatever the storage holds and whether
    or not the write that follows a migration succeeds, every session of
    the state has an order and the current domain is untouched.  Loading
    again from the storage that a load leaves (its write, if any, having
    succeeded) gives the same state and the same storage, and writes
    nothing.  When the storage holds an array in which every session has an
    order, the state holds that array and the stored active pointers, and
    the storage is not written. *)
Theorem loadStorageData_orders_every_session storage written st :
  (∀ s, s ∈ sessions (loadStorageData storage written st).1 → order s ≠ None) ∧
  currentDomain (loadStorageData storage written st).1 = currentDomain st ∧
  (∀ written',
     loadStorageData (loadStorageData storage Written st).2 written'
         (loadStorageData storage Written st).1
       = loadStorageData storage Written st) ∧
  (∀ stg l, storage = Some stg → storedSessions stg = SessionsArray l →
     (∀ s, s ∈ l → order s ≠ None) →
     loadStorageData storage written st
       = (withActiveSessions (withSessions st l)
            (default ∅ (storedActiveSessions stg)), Some stg)).
Proof.
  assert (∀ stg l, storedSessions stg = SessionsArray l →
            (∀ s, s ∈ sessions (loadStorageData (Some stg) written st).1 →
                  order s ≠ None) ∧
            currentDomain (loadStorageData (Some stg) written st).1
              = currentDomain st) as Harray.
  { intros stg l Hstored.
    destruct (migrateLegacySessions
                (withActiveSessions (withSessions st l)
                   (default ∅ (storedActiveSessions stg)))).1 eqn:Hflag.
    - destruct written as [|reason].
      + rewrite (loadStorageData_array stg st l Hstored).
        split; [apply migrateLegacySessions_ordered|done].
      + rewrite (loadStorageData_array_failed stg st l reason Hstored Hflag).
        split; [by intros s ?%elem_of_nil|done].
    - rewrite (loadStorageData_array_kept stg st l written Hstored Hflag).
      split; [apply migrateLegacySessions_ordered|done]. }
  split_and!.
  - intros s. destruct storage as [stg|]; [|by intros ?%elem_of_nil].
    destruct (storedSessions stg) as [| |l] eqn:Hstored.
    + rewrite (loadStorageData_falsy stg st written Hstored).
      by intros ?%elem_of_nil.
    + rewrite (loadStorageData_notArray stg st written Hstored).
      by intros ?%elem_of_nil.
    + by apply (Harray stg l).
  - destruct storage as [stg|]; [|done].
    destruct (storedSessions stg) as [| |l] eqn:Hstored.
    + by rewrite (loadStorageData_falsy stg st written Hstored).
    + by rewrite (loadStorageData_notArray stg st written Hstored).
    + by apply (Harray stg l).
  - intros written'. apply loadStorageData_again.
  - intros stg l -> Hstored Hord.
    rewrite (loadStorageData_array_kept stg st l written Hstored);
      by rewrite migrateLegacySessions_none.
Qed.

(** X13. The click on "clear all" writes an object, not an array, under the
    key of the sessions and leaves the stored active pointers: the popup
    then loads with no session and no active pointer, and after a later
    non-empty import it loads (the write of the migration, if there is one,
    succeeding) the imported sessions, numbered where they lack an order,
    together with the active pointers stored before the clear. *)
Theorem clear_all_keeps_stored_pointers stg st importedSessions written :
  loadStorageData (Some (confirmClearAll stg)) written st
    = (withActiveSessions (withSessions st []) ∅, Some (confirmClearAll stg)) ∧
  (importedSessions ≠ [] →
     length (sessions (loadStorageData
               (Some (importSessions importedSessions (confirmClearAll stg))) Written st).1)
       = length importedSessions ∧
     (∀ q s, importedSessions !! q = Some s →
        sessions (loadStorageData
          (Some (importSessions importedSessions (confirmClearAll stg))) Written st).1 !! q
          = Some (migrated importedSessions q s)) ∧
     activeSessions (loadStorageData
       (Some (importSessions importedSessions (confirmClearAll stg))) Written st).1
       = default ∅ (storedActiveSessions stg)).
Proof.
  split; [done|]. intros Hne.
  assert (importSessions importedSessions (confirmClearAll stg)
          = mkStorage (SessionsArray importedSessions) (storedActiveSessions stg))
    as ->.
  { unfold importSessions, confirmClearAll.
    cbn [storedSessions storedArray storedActiveSessions].
    by rewrite mergeSessions_nonempty by done. }
  rewrite (loadStorageData_array _ st importedSessions) by done.
  cbn [storedActiveSessions fst].
  destruct (migrateLegacySessions_lookup
              (withActiveSessions (withSessions st importedSessions)
                 (default ∅ (storedActiveSessions stg)))) as (Hlen & Hall & _).
  split_and!; done.
Qed.

(** ** The list that the popup shows *)

Lemma insertByOrder_Permutation s l : insertByOrder s l ≡ₚ s :: l.
Proof.
  induction l as [|t l IH]; simpl; [done|].
  case_decide; [done|]. rewrite IH. apply Permutation_swap.
Qed.

Lemma sortByOrder_Permutation l : sortByOrder l ≡ₚ l.
Proof.
  induction l as [|s l IH]; simpl; [done|].
  by rewrite insertByOrder_Permutation, IH.
Qed.

Lemma insertByOrder_sorted s l :
  StronglySorted (λ a b, orderOrZero a ≤ orderOrZero b)%Z l →
  StronglySorted (λ a b, orderOrZero a ≤ orderOrZero b)%Z (insertByOrder s l).
Proof.
  induction 1 as [|t l Hl IH Ht]; simpl.
  - repeat constructor.
  - case_decide as Hle.
    + constructor; [by constructor|].
      constructor; [done|].
      eapply Forall_impl; [exact Ht|]. simpl. intros u Hu. lia.
    + constructor; [done|].
      rewrite insertByOrder_Permutation. constructor; [lia|done].
Qed.

Lemma sortByOrder_sorted l :
  StronglySorted (λ a b, orderOrZero a ≤ orderOrZero b)%Z (sortByOrder l).
Proof.
  induction l as [|s l IH]; simpl; [constructor|].
  by apply insertByOrder_sorted.
Qed.

Lemma insertByOrder_app_last y acc x :
  (orderOrZero y ≤ orderOrZero x)%Z →
  insertByOrder y (acc ++ [x]) = insertByOrder y acc ++ [x].
Proof.
  intros Hle. induction acc as [|t acc IH]; simpl.
  - by rewrite decide_True.
  - case_decide; [done|]. by rewrite IH.
Qed.

(** A session whose order is not smaller than the others, pushed at the
    end, is shown at the end. *)
Lemma sortByOrder_app_last l x :
  (∀ t, t ∈ l → (orderOrZero t ≤ orderOrZero x)%Z) →
  sortByOrder (l ++ [x]) = sortByOrder l ++ [x].
Proof.
  induction l as [|a l IH]; intros Hall; simpl; [done|].
  rewrite IH by (intros t Ht; apply Hall; by right).
  apply insertByOrder_app_last. apply Hall. by left.
Qed.

Lemma insertByOrder_front x l :
  (∀ u, u ∈ l → (orderOrZero x ≤ orderOrZero u)%Z) → insertByOrder x l = x :: l.
Proof.
  destruct l as [|t l]; simpl; [done|]. intros Hall.
  rewrite decide_True; [done|]. apply Hall. by left.
Qed.

Lemma insertByOrder_filter (P : SessionData → Prop) `{∀ s, Decision (P s)} x l :
  StronglySorted (λ a b, orderOrZero a ≤ orderOrZero b)%Z l →
  filter P (insertByOrder x l)
    = if decide (P x) then insertByOrder x (filter P l) else filter P l.
Proof.
  induction 1 as [|t l Hl IH Ht]; simpl.
  - destruct (decide (P x)).
    + by rewrite filter_cons_True by done.
    + by rewrite filter_cons_False by done.
  - rewrite Forall_forall in Ht.
    destruct (decide (orderOrZero x ≤ orderOrZero t)%Z) as [Hle|Hle].
    + destruct (decide (P x)) as [Hx|Hx].
      * rewrite filter_cons_True by done.
        rewrite insertByOrder_front; [done|].
        intros u [_ [->|Hu]%elem_of_cons]%list_elem_of_filter; [done|].
        specialize (Ht u Hu). simpl in Ht. lia.
      * by rewrite filter_cons_False by done.
    + destruct (decide (P t)) as [Hpt|Hpt].
      * rewrite !(filter_cons_True P t) by done. rewrite IH.
        destruct (decide (P x)); [|done].
        simpl. by rewrite decide_False by done.
      * rewrite !(filter_cons_False P t) by done. apply IH.
Qed.

(** Sorting the sessions that a filter keeps is filtering the sorted
    sessions. *)
Lemma sortByOrder_filter (P : SessionData → Prop) `{∀ s, Decision (P s)} l :
  sortByOrder (filter P l) = filter P (sortByOrder l).
Proof.
  induction l as [|a l IH]; simpl; [done|].
  rewrite insertByOrder_filter by apply sortByOrder_sorted.
  destruct (decide (P a)).
  - rewrite filter_cons_True by done. simpl. by rewrite IH.
  - by rewrite filter_cons_False by done.
Qed.

Lemma insertByOrder_sameRow s s' l l' :
  sameRow s s' → Forall2 sameRow l l' →
  Forall2 sameRow (insertByOrder s l) (insertByOrder s' l').
Proof.
  intros Hs. induction 1 as [|t t' l l' Ht Hl IH]; simpl.
  - apply Forall2_cons. split; [done|apply Forall2_nil_2].
  - assert (orderOrZero s = orderOrZero s') as Hos.
    { unfold orderOrZero. by destruct Hs as (_ & _ & ->). }
    assert (orderOrZero t = orderOrZero t') as Hot.
    { unfold orderOrZero. by destruct Ht as (_ & _ & ->). }
    rewrite Hos, Hot. case_decide.
    + apply Forall2_cons. split; [done|]. by apply Forall2_cons.
    + by apply Forall2_cons.
Qed.

Lemma sortByOrder_sameRow l l' :
  Forall2 sameRow l l' → Forall2 sameRow (sortByOrder l) (sortByOrder l').
Proof.
  induction 1; simpl; [apply Forall2_nil_2|]. by apply insertByOrder_sameRow.
Qed.

Lemma sameRow_refl s : sameRow s s.
Proof. by split_and!. Qed.

(** Sessions that agree place by place on id, domain and order are shown
    in the same way. *)
Lemma displayedSessions_sameRow l l' cur :
  Forall2 sameRow l l' →
  id <$> displayedSessions l cur = id <$> displayedSessions l' cur.
Proof.
  intros Hl. unfold displayedSessions.
  assert (Forall2 sameRow
            (sortByOrder (filter (λ s, domain s = cur) l))
            (sortByOrder (filter (λ s, domain s = cur) l'))) as Hs.
  { apply sortByOrder_sameRow. eapply Forall2_filter; [|done].
    intros s s' (_ & -> & _). done. }
  induction Hs as [|s s' k k' (Hid & _) _ IH]; [done|].
  rewrite !fmap_cons. by rewrite Hid, IH.
Qed.

Lemma insert_sameRow l i s s' :
  l !! i = Some s → sameRow s s' → Forall2 sameRow l (<[i := s']> l).
Proof.
  intros Hi Hs. rewrite <- (list_insert_id l i s Hi) at 1.
  apply Forall2_insert; [|done].
  apply Forall_Forall2_diag, Forall_forall. intros. apply sameRow_refl.
Qed.

Lemma mutateFound_sameRow (P : SessionData → Prop) `{∀ s, Decision (P s)} f l :
  (∀ s, sameRow s (f s)) → Forall2 sameRow l (mutateFound P f l).
Proof.
  intros Hf. unfold mutateFound.
  destruct (list_find P l) as [[i s]|] eqn:Hfind.
  - apply list_find_Some in Hfind as (Hi & _). by eapply insert_sameRow.
  - apply Forall_Forall2_diag, Forall_forall. intros. apply sameRow_refl.
Qed.

Lemma run_keepsRows_sameRow op st :
  keepsRows op →
  currentDomain (run op st) = currentDomain st ∧
  Forall2 sameRow (sessions st) (sessions (run op st)).
Proof.
  intros Hop. rewrite run_write.
  assert (keepsRows (withWrite Written op)) as Hop' by (by destruct op).
  clear Hop.
  assert (Forall2 sameRow (sessions st) (sessions st)) as Hrefl.
  { apply Forall_Forall2_diag, Forall_forall. intros. apply sameRow_refl. }
  destruct op; try done; simpl.
  - unfold switchToSession.
    destruct (list_find _ (sessions st)) as [[i session]|] eqn:Hf; [|done].
    destruct (success response); [|done]. simpl. split; [done|].
    apply list_find_Some in Hf as (Hi & _).
    eapply insert_sameRow; [done|]. by split_and!.
  - unfold createNewSession. by destruct (success response).
  - destruct overwrite; [done|]. unfold renameSession.
    destruct (list_find _ (sessions st)) as [[i session]|]; [|done].
    destruct (validateSessionName newName); [|done].
    destruct (findSessionByName _ _ _ _); [done|]. simpl. split; [done|].
    apply mutateFound_sameRow. intros s. by split_and!.
  - unfold overwriteSessionWithCurrent.
    destruct (list_find _ (sessions st)) as [[i session]|] eqn:Hf; [|done].
    case_decide; [done|].
    destruct (match name0 with Some n => _ | None => _ end); [|done].
    destruct (success response); [|done]. simpl. split; [done|].
    apply list_find_Some in Hf as (Hi & _).
    eapply insert_sameRow; [done|]. by split_and!.
Qed.

(** X14. Switching, deselecting, overwriting in place and renaming without
    overwrite move no row of the list: whatever the outcome, the ids of the
    sessions that the popup shows for the current domain are the same, in
    the same order. *)
Theorem displayed_ids_kept op st :
  keepsRows op →
  id <$> displayed (run op st) = id <$> displayed st.
Proof.
  intros Hop. unfold displayed.
  destruct (run_keepsRows_sameRow op st Hop) as [-> Hrows].
  symmetry. by apply displayedSessions_sameRow.
Qed.

Lemma displayedSessions_filter_id l cur i :
  id <$> displayedSessions (filter (λ s, id s ≠ i) l) cur
    = filter (λ x, x ≠ i) (id <$> displayedSessions l cur).
Proof.
  unfold displayedSessions.
  rewrite list_filter_filter.
  rewrite (list_filter_iff _ (λ s, id s ≠ i ∧ domain s = cur))
    by (intros s; tauto).
  rewrite <- list_filter_filter, sortByOrder_filter.
  generalize (sortByOrder (filter (λ s, domain s = cur) l)).
  intros k. induction k as [|s k IH]; [done|]. csimpl.
  destruct (decide (id s ≠ i)).
  - rewrite filter_cons_True by done. rewrite (filter_cons_True _ (id s)) by done.
    csimpl. by rewrite IH.
  - rewrite filter_cons_False by done. by rewrite (filter_cons_False _ (id s)) by done.
Qed.

Lemma deleteSession_sessions i written st :
  sessions (stateOf (deleteSession i written st)) = filter (λ s, id s ≠ i) (sessions st) ∧
  currentDomain (stateOf (deleteSession i written st)) = currentDomain st ∧
  currentRenameSessionId (stateOf (deleteSession i written st)) = currentRenameSessionId st.
Proof. unfold deleteSession. rewrite stateOf_awaitSave. simpl. by case_decide. Qed.

(** X15. Deleting a session removes its row and moves no other: the ids
    shown after [deleteSession(i)], whether it returns or its write is
    rejected, are the ids shown before, without [i]. *)
Theorem displayed_after_delete st i written :
  id <$> displayed (run (Delete i written) st)
    = filter (λ x, x ≠ i) (id <$> displayed st).
Proof.
  unfold displayed.
  change (run (Delete i written) st) with (stateOf (deleteSession i written st)).
  destruct (deleteSession_sessions i written st) as (-> & -> & _).
  apply displayedSessions_filter_id.
Qed.

Lemma displayedSessions_push l cur new :
  domain new = cur →
  (∀ t, t ∈ filter (λ s, domain s = cur) l →
        (orderOrZero t ≤ orderOrZero new)%Z) →
  displayedSessions (l ++ [new]) cur = displayedSessions l cur ++ [new].
Proof.
  intros Hd Hmax. unfold displayedSessions.
  rewrite filter_app, filter_cons_True, filter_nil by done.
  by apply sortByOrder_app_last.
Qed.

(** The session that a save pushes has the greatest order of its domain. *)
Lemma saved_order_greatest st t :
  t ∈ domainSessions st →
  (orderOrZero t ≤
   match orderOrZero <$> domainSessions st with
   | [] => -1
   | o :: os => mathMax o os
   end + 1)%Z.
Proof.
  intros Ht.
  destruct (nextOrder_maxOrder (domainSessions st)) as [[Hnil _]|[_ Hmax]].
  - rewrite Hnil in Ht. by apply elem_of_nil in Ht.
  - specialize (Hmax t Ht). lia.
Qed.

(** X16. A session just saved is shown last: after a save that returns,
    the popup shows the sessions it showed before, in the same order,
    followed by the new session. *)
Theorem displayed_after_save
    st name0 v (response : MessageResponse StoredSession) generatedId now1 now2 :
  validateSessionName name0 = Valid v →
  success response = true →
  ∃ new,
    saveCurrentSession name0 response generatedId now1 now2 Written st
      = Returned new (run (Save name0 response generatedId now1 now2 Written) st) ∧
    displayed (run (Save name0 response generatedId now1 now2 Written) st)
      = displayed st ++ [new].
Proof.
  intros Hv Hok. simpl.
  rewrite (saveCurrentSession_returns st name0 v response generatedId now1 now2 Hv Hok).
  eexists. split; [reflexivity|].
  unfold displayed. cbn [stateOf sessions currentDomain].
  apply displayedSessions_push; [done|].
  intros t Ht. unfold orderOrZero at 2. cbn [order default].
  by apply saved_order_greatest.
Qed.

(** A sorted list of distinct integers, all within as many consecutive
    values as the list is long, is the list of these values. *)
Lemma sorted_distinct_bounded (ks : list Z) (a : Z) :
  StronglySorted Z.le ks → NoDup ks →
  (∀ x, x ∈ ks → (a ≤ x < a + Z.of_nat (length ks))%Z) →
  ∀ k x, ks !! k = Some x → x = (a + Z.of_nat k)%Z.
Proof.
  revert a. induction ks as [|y ks IH]; intros a Hs Hnd Hb k x Hk.
  { by rewrite lookup_nil in Hk. }
  apply StronglySorted_inv in Hs as [Hs Hy]. rewrite Forall_forall in Hy.
  apply NoDup_cons in Hnd as [Hyn Hnd].
  assert (∀ z, z ∈ ks → (y < z)%Z) as Hlt.
  { intros z Hz. specialize (Hy z Hz).
    assert (z ≠ y) by (intros ->; done). lia. }
  assert (∀ k' z, ks !! k' = Some z → z = (y + 1 + Z.of_nat k')%Z) as Hks.
  { apply IH; [done..|]. intros z Hz.
    specialize (Hlt z Hz).
    pose proof (Hb z (list_elem_of_further _ _ _ Hz)) as Hbz.
    pose proof (Hb y (list_elem_of_here _ _)) as Hby. simpl in *. lia. }
  assert (y = a) as ->.
  { pose proof (Hb y (list_elem_of_here _ _)) as Hby. simpl in Hby.
    destruct ks as [|z0 ks'] eqn:Hks'; [simpl in *; lia|]. rewrite <- Hks' in *.
    destruct (lookup_lt_is_Some_2 ks (length ks - 1)) as [z Hz].
    { rewrite Hks'. simpl. lia. }
    pose proof (Hks _ _ Hz) as Hzv.
    pose proof (Hb z (list_elem_of_further _ _ _ (list_elem_of_lookup_2 _ _ _ Hz))) as Hbz.
    assert (0 < length ks) by (rewrite Hks'; simpl; lia).
    simpl in Hbz. lia. }
  destruct k as [|k]; simpl in Hk.
  - injection Hk as <-. lia.
  - rewrite (Hks k x Hk). lia.
Qed.

Lemma reorderLoop_fmap_keeps {B} (g : SessionData → B) cur sessionIds n l :
  (∀ k t, g (setOrder k t) = g t) →
  g <$> reorderLoop cur sessionIds n l = g <$> l.
Proof.
  intros Hg. revert n l.
  induction sessionIds as [|x rest IH]; intros n l; simpl; [done|].
  rewrite IH. by apply mutateFound_fmap_keeps.
Qed.

Lemma fmap_filter_domain {B} (g : SessionData → B) cur l1 l2 :
  (λ s, (domain s, g s)) <$> l1 = (λ s, (domain s, g s)) <$> l2 →
  g <$> filter (λ s, domain s = cur) l1 = g <$> filter (λ s, domain s = cur) l2.
Proof.
  revert l2. induction l1 as [|s1 l1 IH]; intros [|s2 l2]; try done.
  rewrite !fmap_cons. intros [= Hd Hg Hrest].
  destruct (decide (domain s1 = cur)) as [Hc|Hc].
  - rewrite !filter_cons_True by congruence. rewrite !fmap_cons.
    by rewrite Hg, (IH l2).
  - rewrite !filter_cons_False by congruence. by apply IH.
Qed.

(** What a reorder that returns has checked and done, when ids are unique
    in the domain. *)
Lemma reorderSessions_returned st sessionIds :
  NoDup (id <$> domainSessions st) →
  returned (Reorder sessionIds Written) st = true →
  NoDup sessionIds ∧
  length sessionIds = length (domainSessions st) ∧
  (∀ x, x ∈ sessionIds ↔ x ∈ id <$> domainSessions st) ∧
  run (Reorder sessionIds Written) st
    = withSessions st (reorderLoop (currentDomain st) sessionIds 0 (sessions st)).
Proof.
  intros Hnd. simpl. unfold reorderSessions.
  case_decide as Hlen; [done|]. case_decide as Hall; [|done]. intros _.
  rewrite Forall_forall in Hall.
  assert (id <$> domainSessions st ≡ₚ sessionIds) as Hperm.
  { apply domain_ids_Permutation; [done|by rewrite length_fmap|].
    intros x (s & -> & Hs)%list_elem_of_fmap.
    specialize (Hall s Hs). by apply elem_of_list_to_set in Hall. }
  split_and!; [by rewrite <- Hperm|done| |done].
  intros x. by rewrite Hperm.
Qed.

(** X17. The order committed by a drag and drop is the order shown: when
    ids are unique in the current domain and [reorderSessions(sessionIds)]
    returns, the popup shows the sessions of the domain in the order of
    [sessionIds]. *)
Theorem displayed_after_reorder st sessionIds written :
  NoDup (id <$> domainSessions st) →
  returned (Reorder sessionIds written) st = true →
  id <$> displayed (run (Reorder sessionIds written) st) = sessionIds.
Proof.
  intros Hnd [Hret _]%returned_write. rewrite run_write.
  change (withWrite Written (Reorder sessionIds written))
    with (Reorder sessionIds Written) in *.
  destruct (reorderSessions_returned st sessionIds Hnd Hret)
    as (Hnd' & Hlen & Hsame & ->).
  unfold displayed, displayedSessions. cbn [withSessions sessions currentDomain].
  set (cur := currentDomain st). set (l := sessions st) in *.
  set (l' := reorderLoop cur sessionIds 0 l).
  set (D' := filter (λ s, domain s = cur) l').
  assert (id <$> D' = id <$> domainSessions st) as Hids.
  { apply fmap_filter_domain. by apply reorderLoop_fmap_keeps. }
  assert (∀ s, s ∈ D' →
            ∃ k, sessionIds !! k = Some (id s) ∧ orderOrZero s = Z.of_nat k)
    as Hkey.
  { intros s [Hd [i Hi']%list_elem_of_lookup]%list_elem_of_filter.
    destruct (lookup_lt_is_Some_2 l i) as [s0 Hi].
    { rewrite <- (reorderLoop_length cur sessionIds 0 l). by eapply lookup_lt_Some. }
    destruct (reorderLoop_lookup cur sessionIds 0 l i s0 Hnd'
                (NoDup_domainIdsInjective _ _ Hnd) Hi) as (Hother & _ & Hset).
    destruct (decide (domain s0 = cur)) as [Hd0|Hd0].
    - assert (id s0 ∈ sessionIds) as [k Hk]%list_elem_of_lookup.
      { apply Hsame. apply list_elem_of_fmap_2.
        apply list_elem_of_filter. split; [done|]. by eapply list_elem_of_lookup_2. }
      fold l' in Hset. rewrite (Hset Hd0 k Hk) in Hi'. injection Hi' as <-.
      exists k. split; done.
    - fold l' in Hother. rewrite (Hother Hd0) in Hi'. congruence. }
  set (S := sortByOrder D').
  assert (S ≡ₚ D') as Hperm by apply sortByOrder_Permutation.
  assert (NoDup D') as HndD.
  { apply (NoDup_fmap_1 id). by rewrite Hids. }
  assert (∀ s t, s ∈ D' → t ∈ D' → id s = id t → s = t) as Hinj.
  { intros s t [i Hi]%list_elem_of_lookup [j Hj]%list_elem_of_lookup Hst.
    assert (i = j) as ->; [|congruence].
    eapply (NoDup_lookup (id <$> D') i j (id s)).
    - by rewrite Hids.
    - by rewrite list_lookup_fmap, Hi.
    - by rewrite list_lookup_fmap, Hj, Hst. }
  assert (∀ k x, (orderOrZero <$> S) !! k = Some x → x = Z.of_nat k) as Hseq.
  { intros k x Hk.
    assert (x = (0 + Z.of_nat k)%Z) as ->; [|lia].
    apply (sorted_distinct_bounded (orderOrZero <$> S)); [| | |done].
    - apply (StronglySorted_fmap _ (λ a b, orderOrZero a ≤ orderOrZero b)%Z);
        [done|apply sortByOrder_sorted].
    - rewrite Hperm. apply NoDup_fmap_2_strong; [|done].
      intros s t Hs Ht Hst.
      destruct (Hkey s Hs) as (k1 & Hk1 & Ho1), (Hkey t Ht) as (k2 & Hk2 & Ho2).
      apply Hinj; [done..|].
      assert (k1 = k2) as -> by lia. congruence.
    - intros y (s & -> & Hs)%list_elem_of_fmap. rewrite Hperm in Hs.
      destruct (Hkey s Hs) as (k1 & Hk1 & ->).
      apply lookup_lt_Some in Hk1.
      rewrite length_fmap, Hperm.
      assert (length D' = length sessionIds) as ->.
      { rewrite <- (length_fmap id D'), Hids, length_fmap. done. }
      lia. }
  apply list_eq_same_length with (length sessionIds); [done| |].
  - rewrite length_fmap, Hperm, <- (length_fmap id D'), Hids, length_fmap. done.
  - intros k x y Hlt Hx Hy.
    apply list_lookup_fmap_Some in Hx as (s & -> & Hs).
    assert (orderOrZero s = Z.of_nat k) as Hok.
    { apply Hseq. by rewrite list_lookup_fmap, Hs. }
    assert (s ∈ D') as HsD by (rewrite <- Hperm; by eapply list_elem_of_lookup_2).
    destruct (Hkey s HsD) as (k1 & Hk1 & Ho1).
    assert (k1 = k) as -> by lia. congruence.
Qed.

(** ** The "overwrite" button of the rename dialog *)

Lemma overwriteSessionWithCurrent_returns
    st sessionId n v (response : MessageResponse StoredSession) now j session :
  list_find (λ s, id s = sessionId) (sessions st) = Some (j, session) →
  domain session = currentDomain st →
  validateSessionName n = Valid v →
  success response = true →
  overwriteSessionWithCurrent sessionId (Some n) response now Written st
    = Returned tt
        (withActiveSessions
           (withSessions st
              (<[j := mkSession (id session) v (domain session) (createdAt session)
                        now (order session)
                        (default storedSessionDefaultValue (data response))]>
                 (sessions st)))
           (<[currentDomain st := id session]> (activeSessions st))).
Proof.
  intros Hf Hd Hv Hok. unfold overwriteSessionWithCurrent.
  rewrite Hf, decide_False by (by intros []). by rewrite Hv, Hok.
Qed.

Lemma overwriteSessionWithCurrent_threw
    st sessionId name0 (response : MessageResponse StoredSession) now e st' :
  overwriteSessionWithCurrent sessionId name0 response now Written st = Threw e st' →
  st' = st.
Proof.
  unfold overwriteSessionWithCurrent.
  destruct (list_find _ (sessions st)) as [[i session]|]; [|by intros [= _ <-]].
  case_decide; [by intros [= _ <-]|].
  destruct (match name0 with Some n => _ | None => _ end); [|by intros [= _ <-]].
  destruct (success response); [done|by intros [= _ <-]].
Qed.

(** The state in which the handler overwrites: the conflicting session,
    if any, is gone, and the selected session is still the one found under
    its id. *)
Lemma conflict_deleted st newName selected i session :
  list_find (λ s, id s = selected) (sessions st) = Some (i, session) →
  let st1 :=
    match findSessionByNameInCurrentDomain st newName (Some selected) with
    | Some conflict => stateOf (deleteSession (id conflict) Written st)
    | None => st
    end in
  currentDomain st1 = currentDomain st ∧
  currentRenameSessionId st1 = currentRenameSessionId st ∧
  sessions st1
    = match findSessionByNameInCurrentDomain st newName (Some selected) with
      | Some conflict => filter (λ s, id s ≠ id conflict) (sessions st)
      | None => sessions st
      end ∧
  ∃ j, list_find (λ s, id s = selected) (sessions st1) = Some (j, session).
Proof.
  intros Hf. cbv zeta.
  destruct (findSessionByNameInCurrentDomain st newName (Some selected))
    as [conflict|] eqn:Hc.
  - destruct (deleteSession_sessions (id conflict) Written st) as (-> & -> & ->).
    split_and!; [done..|].
    apply (list_find_filter_keeps _ (λ s, id s ≠ id conflict) _ i); [done|].
    unfold findSessionByNameInCurrentDomain in Hc.
    destruct (list_find (isNameMatch _ _ _) (sessions st)) as [[k c]|] eqn:Hk;
      [|done].
    simpl in Hc. injection Hc as ->.
    apply list_find_Some in Hk as (_ & (_ & Hne & _) & _).
    apply list_find_Some in Hf as (_ & Hid & _). congruence.
  - split_and!; [done..|]. by exists i.
Qed.

(** The handler when the write of the first deletion succeeds: the
    overwrite runs in the state without the conflicting session. *)
Lemma handleOverwriteRename_deleted
    st newName (response : MessageResponse StoredSession) now written2 :
  newName ≠ String.EmptyString →
  currentRenameSessionId st ≠ String.EmptyString →
  handleOverwriteRename newName response now Written written2 st
    = match overwriteSessionWithCurrent (currentRenameSessionId st) (Some newName)
              response now written2
              (match findSessionByNameInCurrentDomain st newName
                       (Some (currentRenameSessionId st)) with
               | Some conflict => stateOf (deleteSession (id conflict) Written st)
               | None => st
               end) with
      | Returned _ st2 => Returned tt (setCurrentRenameSessionId String.EmptyString st2)
      | Threw e st2 => Threw (mkError "overwrite session" (message e)) st2
      end.
Proof.
  intros Hname Hsel. unfold handleOverwriteRename.
  rewrite decide_False by (by intros [?|?]).
  by destruct (findSessionByNameInCurrentDomain st newName
                 (Some (currentRenameSessionId st))).
Qed.

(** X18. The "overwrite" of the rename dialog keeps the place of the
    session renamed.  When a name is given, the selected session exists in
    the current domain, the name is valid, the capture succeeds and so do
    the writes, the handler returns; the popup then shows the ids it showed
    before, in the same order, without the id of the conflicting session if
    one was found; the selected session has kept its id, order, creation
    time and domain and has the validated name, the captured payload and
    the new [lastUsed]; it is active for the current domain, and no session
    is selected any more. *)
Theorem handleOverwriteRename_keeps_place
    st newName v (response : MessageResponse StoredSession) now i session :
  newName ≠ String.EmptyString →
  currentRenameSessionId st ≠ String.EmptyString →
  list_find (λ s, id s = currentRenameSessionId st) (sessions st) = Some (i, session) →
  domain session = currentDomain st →
  validateSessionName newName = Valid v →
  success response = true →
  ∃ st',
    handleOverwriteRename newName response now Written Written st = Returned tt st' ∧
    id <$> displayed st'
      = match findSessionByNameInCurrentDomain st newName
                (Some (currentRenameSessionId st)) with
        | Some conflict => filter (λ x, x ≠ id conflict) (id <$> displayed st)
        | None => id <$> displayed st
        end ∧
    getSession st' (currentRenameSessionId st)
      = Some (mkSession (id session) v (domain session) (createdAt session) now
                (order session)
                (default storedSessionDefaultValue (data response))) ∧
    activeSessions st' !! currentDomain st = Some (currentRenameSessionId st) ∧
    currentRenameSessionId st' = String.EmptyString.
Proof.
  intros Hname Hsel Hf Hd Hv Hok.
  pose proof (conflict_deleted st newName _ i session Hf) as Hcd.
  cbv zeta in Hcd. rewrite handleOverwriteRename_deleted by done.
  set (st1 := match findSessionByNameInCurrentDomain st newName
                      (Some (currentRenameSessionId st)) with
              | Some conflict => stateOf (deleteSession (id conflict) Written st)
              | None => st
              end) in *.
  destruct Hcd as (Hcur & _ & Hs1 & j & Hj).
  rewrite (overwriteSessionWithCurrent_returns st1 _ newName v response now j session)
    by (rewrite ?Hcur; done).
  eexists. split; [reflexivity|].
  pose proof Hf as (_ & Hid & _)%list_find_Some.
  pose proof Hj as (Hj' & _)%list_find_Some.
  split_and!.
  - unfold displayed.
    cbn [setCurrentRenameSessionId withActiveSessions withSessions sessions
         currentDomain].
    rewrite Hcur.
    transitivity (id <$> displayedSessions (sessions st1) (currentDomain st)).
    { symmetry. apply displayedSessions_sameRow.
      eapply insert_sameRow; [done|]. by split_and!. }
    rewrite Hs1.
    destruct (findSessionByNameInCurrentDomain st newName
                (Some (currentRenameSessionId st))); [|done].
    apply displayedSessions_filter_id.
  - unfold getSession.
    cbn [setCurrentRenameSessionId withActiveSessions withSessions sessions].
    by rewrite (list_find_insert_found _ _ j session).
  - cbn [setCurrentRenameSessionId withActiveSessions withSessions activeSessions].
    rewrite Hcur, Hid. apply lookup_insert_eq.
  - done.
Qed.

Lemma sameRow_fmap_id l l' : Forall2 sameRow l l' → id <$> l = id <$> l'.
Proof.
  induction 1 as [|s s' l l' (Hid & _) _ IH]; [done|].
  rewrite !fmap_cons. by rewrite Hid, IH.
Qed.

Lemma overwriteSessionWithCurrent_selection
    st sessionId name0 (response : MessageResponse StoredSession) now written :
  currentRenameSessionId
    (stateOf (overwriteSessionWithCurrent sessionId name0 response now written st))
    = currentRenameSessionId st.
Proof.
  destruct (overwriteSessionWithCurrent_write st sessionId name0 response now written)
    as [-> _].
  unfold overwriteSessionWithCurrent.
  destruct (list_find _ (sessions st)) as [[i session]|]; [|done].
  case_decide; [done|].
  destruct (match name0 with Some n => _ | None => _ end); [|done].
  by destruct (success response).
Qed.

(** X19. The two steps of that handler are not one.  When a conflicting
    session was found and the handler ends on an error, whichever it is
    (the write of the deletion is rejected, the name is invalid, the
    capture fails, the write of the overwrite is rejected), the conflicting
    session has been deleted from the state all the same, no other session
    has been added or removed, and the selection is kept.  The selected
    session, and every other session left, is as it was, unless the error
    is the rejection of the write of the overwrite. *)
Theorem handleOverwriteRename_not_atomic
    st newName (response : MessageResponse StoredSession) now written1 written2
    conflict :
  newName ≠ String.EmptyString →
  currentRenameSessionId st ≠ String.EmptyString →
  findSessionByNameInCurrentDomain st newName (Some (currentRenameSessionId st))
    = Some conflict →
  hasReturned (handleOverwriteRename newName response now written1 written2 st)
    = false →
  let after :=
    stateOf (handleOverwriteRename newName response now written1 written2 st) in
  conflict ∈ sessions st ∧
  id <$> sessions after = filter (λ x, x ≠ id conflict) (id <$> sessions st) ∧
  currentRenameSessionId after = currentRenameSessionId st ∧
  (written1 ≠ Written ∨ written2 = Written →
     sessions after = filter (λ s, id s ≠ id conflict) (sessions st) ∧
     getSession after (currentRenameSessionId st)
       = getSession st (currentRenameSessionId st)).
Proof.
  intros Hname Hsel Hc Hthrown after.
  destruct (deleteSession_sessions (id conflict) written1 st) as (Hs & _ & Hr).
  assert (conflict ∈ sessions st ∧ id conflict ≠ currentRenameSessionId st)
    as [Hin Hne].
  { unfold findSessionByNameInCurrentDomain in Hc.
    destruct (list_find (isNameMatch _ _ _) (sessions st)) as [[k c]|] eqn:Hk;
      [|done].
    simpl in Hc. injection Hc as ->.
    apply list_find_Some in Hk as (Hk & (_ & Hne & _) & _).
    split; [by eapply list_elem_of_lookup_2|congruence]. }
  assert (∀ l, id <$> filter (λ s, id s ≠ id conflict) l
               = filter (λ x, x ≠ id conflict) (id <$> l)) as Hids.
  { intros l. induction l as [|s l IH]; [done|]. rewrite fmap_cons.
    destruct (decide (id s ≠ id conflict)).
    - rewrite filter_cons_True by done.
      rewrite (filter_cons_True _ (id s)) by done. by rewrite fmap_cons, IH.
    - rewrite filter_cons_False by done.
      by rewrite (filter_cons_False _ (id s)) by done. }
  assert (getSession (stateOf (deleteSession (id conflict) written1 st))
            (currentRenameSessionId st)
          = getSession st (currentRenameSessionId st)) as Hget.
  { unfold getSession. rewrite Hs. apply list_find_filter_snd.
    intros s Hid Heq. apply Hne. by rewrite <- Heq, Hid. }
  subst after. revert Hthrown. unfold handleOverwriteRename.
  rewrite decide_False by (by intros [?|?]). rewrite Hc.
  destruct written1 as [|reason].
  - (* the conflicting session is deleted and the deletion is written *)
    change (deleteSession (id conflict) Written st)
      with (Returned tt (stateOf (deleteSession (id conflict) Written st))).
    cbv iota.
    set (st1 := stateOf (deleteSession (id conflict) Written st)) in *.
    pose proof (run_keepsRows_sameRow
                  (Overwrite (currentRenameSessionId st) (Some newName) response
                     now written2) st1 I) as [_ Hrows%sameRow_fmap_id].
    pose proof (overwriteSessionWithCurrent_selection st1
                  (currentRenameSessionId st) (Some newName) response now written2)
      as Hsel2.
    simpl in Hrows.
    destruct (overwriteSessionWithCurrent _ _ _ _ _ st1) as [u st2|e st2] eqn:Ho;
      [done|]. intros _. cbn [stateOf] in *.
    split_and!.
    + done.
    + by rewrite <- Hrows, Hs, Hids.
    + by rewrite Hsel2, Hr.
    + intros [?| ->]; [done|].
      apply overwriteSessionWithCurrent_threw in Ho as ->. done.
  - (* the write of the deletion is rejected *)
    intros _.
    change (deleteSession (id conflict) (WriteFailed reason) st)
      with (@Threw _ unit (mkError "PopupService.deleteSession" reason)
              (stateOf (deleteSession (id conflict) (WriteFailed reason) st))).
    cbv iota. cbn [stateOf].
    split_and!; [done|by rewrite Hs, Hids|done|done].
Qed.

(** X20. The handler of the other copy of the controller renames by
    deleting and saving.  Once it is past the deletion of the conflicting
    session (there is none, or the write of its deletion succeeded), no
    session is left under the id that was selected, whatever happens next,
    provided the id generated differs from it: on an error the selected
    session is lost.  When the write of the deletion of a conflicting
    session is rejected, the handler ends on an error and the selected
    session is as it was.  And when the name is valid, the capture succeeds
    and so do the writes, the renamed session is shown last, under the
    generated id, after the ids shown before without the selected one and
    without that of the conflicting session. *)
Theorem handleOverwriteRenameBySaving_changes_id
    st newName (response : MessageResponse StoredSession) generatedId now1 now2
    written1 written2 written3 :
  newName ≠ String.EmptyString →
  currentRenameSessionId st ≠ String.EmptyString →
  generatedId ≠ currentRenameSessionId st →
  (findSessionByNameInCurrentDomain st newName (Some (currentRenameSessionId st))
     = None ∨ written1 = Written →
   getSession
     (stateOf (handleOverwriteRenameBySaving newName response generatedId now1 now2
                 written1 written2 written3 st))
     (currentRenameSessionId st) = None) ∧
  (∀ conflict reason,
     findSessionByNameInCurrentDomain st newName (Some (currentRenameSessionId st))
       = Some conflict →
     written1 = WriteFailed reason →
     hasReturned (handleOverwriteRenameBySaving newName response generatedId
                    now1 now2 written1 written2 written3 st) = false ∧
     getSession
       (stateOf (handleOverwriteRenameBySaving newName response generatedId
                   now1 now2 written1 written2 written3 st))
       (currentRenameSessionId st)
       = getSession st (currentRenameSessionId st)) ∧
  (∀ v, validateSessionName newName = Valid v → success response = true →
     hasReturned
       (handleOverwriteRenameBySaving newName response generatedId now1 now2
          Written Written Written st)
       = true ∧
     id <$> displayed
       (stateOf (handleOverwriteRenameBySaving newName response generatedId now1 now2
                   Written Written Written st))
       = filter (λ x, x ≠ currentRenameSessionId st)
           (match findSessionByNameInCurrentDomain st newName
                    (Some (currentRenameSessionId st)) with
            | Some conflict => filter (λ x, x ≠ id conflict) (id <$> displayed st)
            | None => id <$> displayed st
            end) ++ [generatedId]).
Proof.
  intros Hname Hsel Hgen.
  set (selected := currentRenameSessionId st).
  set (st1 := match findSessionByNameInCurrentDomain st newName (Some selected) with
              | Some conflict => stateOf (deleteSession (id conflict) Written st)
              | None => st
              end).
  assert (currentDomain st1 = currentDomain st ∧
          id <$> displayedSessions (sessions st1) (currentDomain st)
          = match findSessionByNameInCurrentDomain st newName (Some selected) with
            | Some conflict => filter (λ x, x ≠ id conflict) (id <$> displayed st)
            | None => id <$> displayed st
            end) as [Hcur1 Hshown1].
  { subst st1.
    destruct (findSessionByNameInCurrentDomain st newName (Some selected))
      as [conflict|]; [|done].
    destruct (deleteSession_sessions (id conflict) Written st) as (-> & -> & _).
    split; [done|]. apply displayedSessions_filter_id. }
  (* past the first deletion, the handler is the rest of its body *)
  assert (∀ w2 w3,
            handleOverwriteRenameBySaving newName response generatedId now1 now2
              Written w2 w3 st
            = match deleteSession selected w2 st1 with
              | Threw e st2 => Threw (mkError "overwrite session" (message e)) st2
              | Returned _ st2 =>
                  match saveCurrentSession newName response generatedId now1 now2
                          w3 st2 with
                  | Returned _ st3 =>
                      Returned tt (setCurrentRenameSessionId String.EmptyString st3)
                  | Threw e st3 =>
                      Threw (mkError "overwrite session" (message e)) st3
                  end
              end) as Hpast.
  { intros w2 w3. unfold handleOverwriteRenameBySaving.
    rewrite decide_False by (by intros [?|?]). subst st1. fold selected.
    by destruct (findSessionByNameInCurrentDomain st newName (Some selected)). }
  assert (∀ w1 w2 w3,
            findSessionByNameInCurrentDomain st newName (Some selected) = None →
            handleOverwriteRenameBySaving newName response generatedId now1 now2
              w1 w2 w3 st
            = handleOverwriteRenameBySaving newName response generatedId now1 now2
                Written w2 w3 st) as Hnone.
  { intros w1 w2 w3 Hfind. unfold handleOverwriteRenameBySaving.
    fold selected. by rewrite Hfind. }
  destruct (deleteSession_sessions selected Written st1) as (Hs2 & Hcur2 & _).
  set (st2 := stateOf (deleteSession selected Written st1)) in *.
  assert (getSession st2 selected = None) as Hgone.
  { unfold getSession. rewrite Hs2.
    destruct (list_find _ _) as [[k s]|] eqn:Hk; [|done].
    apply list_find_Some in Hk as (Hk & Hid & _).
    apply list_elem_of_lookup_2, list_elem_of_filter in Hk as [Hne _]. done. }
  assert (∀ w2 w3,
            getSession
              (stateOf (handleOverwriteRenameBySaving newName response generatedId
                          now1 now2 Written w2 w3 st)) selected = None) as Hlost.
  { intros w2 w3. rewrite Hpast.
    destruct w2 as [|reason2].
    2:{ change (deleteSession selected (WriteFailed reason2) st1)
          with (@Threw _ unit (mkError "PopupService.deleteSession" reason2) st2).
        done. }
    change (deleteSession selected Written st1) with (Returned tt st2).
    cbv iota.
    destruct (validateSessionName newName) as [v|m] eqn:Hv.
    2:{ unfold saveCurrentSession. by rewrite Hv. }
    destruct (success response) eqn:Hok.
    2:{ unfold saveCurrentSession. by rewrite Hv, Hok. }
    assert (sessions
              (stateOf
                 (match saveCurrentSession newName response generatedId now1 now2
                          w3 st2 with
                  | Returned _ st3 =>
                      Returned tt (setCurrentRenameSessionId String.EmptyString st3)
                  | Threw e st3 =>
                      Threw (mkError "overwrite session" (message e)) st3
                  end))
            = sessions
                (stateOf (saveCurrentSession newName response generatedId now1 now2
                            Written st2))) as Hsame.
    { destruct (saveCurrentSession_write st2 newName response generatedId now1
                  now2 w3) as [<- _].
      by destruct (saveCurrentSession newName response generatedId now1 now2 w3 st2). }
    unfold getSession in *. rewrite Hsame.
    rewrite (saveCurrentSession_returns st2 newName v response generatedId
               now1 now2 Hv Hok).
    cbn [stateOf sessions].
    rewrite list_find_app_old; [done|]. cbn [id]. done. }
  split_and!.
  - intros [Hfind| ->]; [rewrite Hnone by done|]; apply Hlost.
  - intros conflict reason Hfind ->.
    unfold handleOverwriteRenameBySaving.
    rewrite decide_False by (by intros [?|?]). fold selected. rewrite Hfind.
    change (deleteSession (id conflict) (WriteFailed reason) st)
      with (@Threw _ unit (mkError "PopupService.deleteSession" reason)
              (stateOf (deleteSession (id conflict) (WriteFailed reason) st))).
    cbv iota. split; [done|]. cbn [stateOf].
    destruct (deleteSession_sessions (id conflict) (WriteFailed reason) st)
      as (Hs & _ & _).
    unfold getSession. rewrite Hs. apply list_find_filter_snd.
    intros s Hid Heq.
    unfold findSessionByNameInCurrentDomain in Hfind.
    destruct (list_find (isNameMatch _ _ _) (sessions st)) as [[k c]|] eqn:Hk;
      [|done].
    simpl in Hfind. injection Hfind as ->.
    apply list_find_Some in Hk as (_ & (_ & Hne & _) & _).
    apply Hne. by rewrite <- Heq, Hid.
  - intros v Hv Hok. rewrite Hpast.
    change (deleteSession selected Written st1) with (Returned tt st2).
    cbv iota.
    rewrite (saveCurrentSession_returns st2 newName v response generatedId
               now1 now2 Hv Hok).
    split; [done|].
    unfold displayed.
    cbn [stateOf setCurrentRenameSessionId sessions currentDomain].
    rewrite displayedSessions_push.
    + rewrite fmap_app. cbn [fmap list_fmap id]. f_equal.
      rewrite Hcur2, Hcur1, Hs2, displayedSessions_filter_id. by rewrite Hshown1.
    + done.
    + intros t Ht. unfold orderOrZero at 2. cbn [order default].
      by apply saved_order_greatest.
Qed.

(** ** Orders within a domain *)

Lemma apartBy_tail R a l : apartBy R (a :: l) → apartBy R l.
Proof.
  intros Hap i j s t Hi Hj HR.
  assert (S i = S j) by (by eapply (Hap (S i) (S j) s t)). lia.
Qed.

Lemma apartBy_filter R (P : SessionData → Prop) `{∀ s, Decision (P s)} l :
  apartBy R l → apartBy R (filter P l).
Proof.
  induction l as [|a l IH]; intros Hap; [done|].
  pose proof (IH (apartBy_tail R a l Hap)) as IH'.
  destruct (decide (P a)); [|by rewrite filter_cons_False by done].
  rewrite filter_cons_True by done.
  assert (∀ t, t ∈ filter P l → ¬ R a t ∧ ¬ R t a) as Hhead.
  { intros t [_ [k Hk]%list_elem_of_lookup]%list_elem_of_filter. split; intros HR.
    - assert (0 = S k) by (by eapply (Hap 0 (S k) a t)). lia.
    - assert (S k = 0) by (by eapply (Hap (S k) 0 t a)). lia. }
  intros i j s t Hi Hj HR. destruct i as [|i], j as [|j]; simpl in Hi, Hj.
  - done.
  - injection Hi as ->. by apply list_elem_of_lookup_2, Hhead in Hj as [? _].
  - injection Hj as ->. by apply list_elem_of_lookup_2, Hhead in Hi as [_ ?].
  - f_equal. by eapply (IH' i j s t).
Qed.

Lemma apartBy_sameRow l l' :
  Forall2 sameRow l l' → apartBy sameSlot l → apartBy sameSlot l'.
Proof.
  intros Hrows Hap i j s' t' Hi Hj [Hd Ho].
  destruct (Forall2_lookup_r _ _ _ _ _ Hrows Hi) as (s & Hs & _ & Hsd & Hso).
  destruct (Forall2_lookup_r _ _ _ _ _ Hrows Hj) as (t & Ht & _ & Htd & Hto).
  apply (Hap i j s t Hs Ht). unfold sameSlot, orderOrZero in *.
  rewrite Hsd, Hso, Htd, Hto. done.
Qed.

Lemma apartBy_push st new :
  domain new = currentDomain st →
  (∀ t, t ∈ domainSessions st → (orderOrZero t < orderOrZero new)%Z) →
  apartBy sameSlot (sessions st) →
  apartBy sameSlot (sessions st ++ [new]).
Proof.
  intros Hd Hmax Hap i j s t Hi Hj [Hsd Hso].
  apply lookup_app_Some in Hi as [Hi|[Hil Hi]];
    apply lookup_app_Some in Hj as [Hj|[Hjl Hj]].
  - by eapply (Hap i j s t).
  - apply list_lookup_singleton_Some in Hj as [_ <-].
    assert (s ∈ domainSessions st) as Hs.
    { apply list_elem_of_filter. split; [congruence|by eapply list_elem_of_lookup_2]. }
    specialize (Hmax s Hs). lia.
  - apply list_lookup_singleton_Some in Hi as [_ <-].
    assert (t ∈ domainSessions st) as Ht.
    { apply list_elem_of_filter. split; [congruence|by eapply list_elem_of_lookup_2]. }
    specialize (Hmax t Ht). lia.
  - apply list_lookup_singleton_Some in Hi as [Hi _].
    apply list_lookup_singleton_Some in Hj as [Hj _]. lia.
Qed.

Lemma apartBy_reorderLoop cur sessionIds l :
  NoDup sessionIds →
  domainIdsInjective cur l →
  (∀ s, s ∈ l → domain s = cur → id s ∈ sessionIds) →
  apartBy sameSlot l →
  apartBy sameSlot (reorderLoop cur sessionIds 0 l).
Proof.
  intros Hnd Hinj Hin Hap i j s' t' Hi' Hj' [Hd Ho].
  destruct (lookup_lt_is_Some_2 l i) as [s Hi].
  { rewrite <- (reorderLoop_length cur sessionIds 0 l). by eapply lookup_lt_Some. }
  destruct (lookup_lt_is_Some_2 l j) as [t Hj].
  { rewrite <- (reorderLoop_length cur sessionIds 0 l). by eapply lookup_lt_Some. }
  destruct (reorderLoop_lookup cur sessionIds 0 l i s Hnd Hinj Hi)
    as (Hso & _ & Hss).
  destruct (reorderLoop_lookup cur sessionIds 0 l j t Hnd Hinj Hj)
    as (Hto & _ & Hts).
  destruct (decide (domain s = cur)) as [Hsc|Hsc],
           (decide (domain t = cur)) as [Htc|Htc].
  - assert (id s ∈ sessionIds) as [k1 Hk1]%list_elem_of_lookup
      by (apply Hin; [by eapply list_elem_of_lookup_2|done]).
    assert (id t ∈ sessionIds) as [k2 Hk2]%list_elem_of_lookup
      by (apply Hin; [by eapply list_elem_of_lookup_2|done]).
    rewrite (Hss Hsc k1 Hk1) in Hi'. rewrite (Hts Htc k2 Hk2) in Hj'.
    injection Hi' as <-. injection Hj' as <-.
    unfold orderOrZero in Ho. simpl in Ho.
    assert (k1 = k2) as -> by lia.
    apply (Hinj i j s t); congruence.
  - rewrite (Hto Htc) in Hj'. injection Hj' as <-.
    assert (id s ∈ sessionIds) as [k1 Hk1]%list_elem_of_lookup
      by (apply Hin; [by eapply list_elem_of_lookup_2|done]).
    rewrite (Hss Hsc k1 Hk1) in Hi'. injection Hi' as <-.
    simpl in Hd. congruence.
  - rewrite (Hso Hsc) in Hi'. injection Hi' as <-.
    assert (id t ∈ sessionIds) as [k2 Hk2]%list_elem_of_lookup
      by (apply Hin; [by eapply list_elem_of_lookup_2|done]).
    rewrite (Hts Htc k2 Hk2) in Hj'. injection Hj' as <-.
    simpl in Hd. congruence.
  - rewrite (Hso Hsc) in Hi'. rewrite (Hto Htc) in Hj'.
    injection Hi' as <-. injection Hj' as <-.
    by apply (Hap i j s t).
Qed.

(** X21. Every operation of the service keeps the orders distinct within
    each domain, when session ids are unique in the store: a save appends
    with the greatest order of the domain plus one, a reorder renumbers the
    whole domain by place, a rename with overwrite and a delete only
    remove, and the others touch no order. *)
Theorem run_preserves_ordersDistinct op st :
  idsUnique st → ordersDistinct st → ordersDistinct (run op st).
Proof.
  unfold ordersDistinct. intros Hnd Hap. rewrite run_write.
  destruct op as [n r g t1 t2 w|i r t w|r w|i n o w|i n r t w|i w|ids w];
    cbn [withWrite].
  - simpl. unfold saveCurrentSession.
    destruct (validateSessionName n) as [v|m]; [|done].
    destruct (success r); [|done]. simpl.
    apply apartBy_push; [done| |done].
    intros t Ht. unfold orderOrZero at 2. simpl.
    destruct (nextOrder_maxOrder (domainSessions st)) as [[Hnil _]|[_ Hmax]].
    + rewrite Hnil in Ht. by apply elem_of_nil in Ht.
    + specialize (Hmax t Ht). lia.
  - eapply apartBy_sameRow; [|done]. by apply run_keepsRows_sameRow.
  - eapply apartBy_sameRow; [|done]. by apply run_keepsRows_sameRow.
  - destruct o; [|eapply apartBy_sameRow; [|done]; by apply run_keepsRows_sameRow].
    simpl. unfold renameSession.
    destruct (list_find _ (sessions st)) as [[k session]|]; [|done].
    destruct (validateSessionName n) as [v|m]; [|done].
    destruct (findSessionByName _ _ _ _) as [conflict|]; simpl.
    + assert (apartBy sameSlot
                (mutateFound (λ s, id s = i) (setName v)
                   (filter (λ s, id s ≠ id conflict) (sessions st)))) as Hres.
      { eapply apartBy_sameRow.
        - apply mutateFound_sameRow. intros s. by split_and!.
        - by apply apartBy_filter. }
      by destruct (decide (activeSessions _ !! _ = _)).
    + eapply apartBy_sameRow; [|done].
      apply mutateFound_sameRow. intros s. by split_and!.
  - eapply apartBy_sameRow; [|done]. by apply run_keepsRows_sameRow.
  - change (run (Delete i Written) st) with (stateOf (deleteSession i Written st)).
    destruct (deleteSession_sessions i Written st) as (-> & _).
    by apply apartBy_filter.
  - destruct (returned (Reorder ids Written) st) eqn:Hret.
    + pose proof (idsUnique_domainSessions st Hnd) as Hnd'.
      destruct (reorderSessions_returned st ids Hnd' Hret)
        as (Hndi & _ & Hsame & ->).
      cbn [withSessions sessions].
      apply apartBy_reorderLoop; [done| | |done].
      * by apply NoDup_domainIdsInjective.
      * intros s Hs Hd. apply Hsame. apply list_elem_of_fmap_2.
        by apply list_elem_of_filter.
    + simpl in Hret. simpl. unfold reorderSessions in *.
      case_decide; [done|]. by case_decide.
Qed.

End MoreProperties.

(** * The text that is shown, the exported file and the import by code *)

Section Transfer.
Context `{Imports}.

(** ** Characters *)

Lemma chars_append a b : chars (String.append a b) = chars a ++ chars b.
Proof. induction a as [|ch a IH]; simpl; [done|]. by rewrite IH. Qed.

Lemma chars_inj a b : chars a = chars b → a = b.
Proof.
  revert b. induction a as [|ch a IH]; intros [|ch' b] Heq; simpl in Heq;
    try done.
  injection Heq as -> Heq. f_equal. by apply IH.
Qed.

Lemma escapeChar_no_markup ch :
  Forall (λ c, c ≠ "<"%char ∧ c ≠ ">"%char ∧ c ≠ "034"%char ∧ c ≠ "'"%char)
    (chars (escapeChar ch)).
Proof.
  unfold escapeChar.
  destruct (Ascii.eqb_spec ch "&"); [by repeat constructor|].
  destruct (Ascii.eqb_spec ch "<"); [by repeat constructor|].
  destruct (Ascii.eqb_spec ch ">"); [by repeat constructor|].
  destruct (Ascii.eqb_spec ch "034"); [by repeat constructor|].
  destruct (Ascii.eqb_spec ch "'"); [by repeat constructor|].
  by repeat constructor.
Qed.

(** X22. Whatever the text, what [escapeHtml] returns holds no [<], no [>]
    and no quote, single or double: a session name cannot open a tag or
    close an attribute in the list that is rendered. *)
Theorem escapeHtml_no_markup value :
  Forall (λ c, c ≠ "<"%char ∧ c ≠ ">"%char ∧ c ≠ "034"%char ∧ c ≠ "'"%char)
    (chars (escapeHtml value)).
Proof.
  induction value as [|ch rest IH]; simpl; [constructor|].
  rewrite chars_append. apply Forall_app. split; [|done].
  apply escapeChar_no_markup.
Qed.

Lemma escapeChar_inj a b ra rb :
  String.append (escapeChar a) ra = String.append (escapeChar b) rb →
  a = b ∧ ra = rb.
Proof.
  unfold escapeChar.
  destruct (Ascii.eqb_spec a "&") as [->|?];
  [|destruct (Ascii.eqb_spec a "<") as [->|?];
  [|destruct (Ascii.eqb_spec a ">") as [->|?];
  [|destruct (Ascii.eqb_spec a "034") as [->|?];
  [|destruct (Ascii.eqb_spec a "'") as [->|?]]]]];
  (destruct (Ascii.eqb_spec b "&") as [->|?];
  [|destruct (Ascii.eqb_spec b "<") as [->|?];
  [|destruct (Ascii.eqb_spec b ">") as [->|?];
  [|destruct (Ascii.eqb_spec b "034") as [->|?];
  [|destruct (Ascii.eqb_spec b "'") as [->|?]]]]]);
  simpl; intros Heq; try discriminate Heq;
  try (injection Heq as Heq; by subst);
  try (injection Heq as Heq1 Heq2; by subst).
Qed.

(** X23. [escapeHtml] loses nothing: two texts that are escaped to the same
    text are the same text. *)
Theorem escapeHtml_injective a b :
  escapeHtml a = escapeHtml b → a = b.
Proof.
  revert b. induction a as [|ch a IH]; intros [|ch' b] Heq; simpl in Heq.
  - done.
  - exfalso. unfold escapeChar in Heq.
    repeat (destruct (Ascii.eqb _ _); [discriminate Heq|]). discriminate Heq.
  - exfalso. unfold escapeChar in Heq.
    repeat (destruct (Ascii.eqb _ _); [discriminate Heq|]). discriminate Heq.
  - apply escapeChar_inj in Heq as [-> Heq]. f_equal. by apply IH.
Qed.

(** ** The name of the exported file *)

Lemma toLowerChar_clean ch :
  isForbiddenChar ch = false → isWhiteSpace ch = false →
  isForbiddenChar (toLowerChar ch) = false ∧
  isWhiteSpace (toLowerChar ch) = false.
Proof.
  destruct ch as [[] [] [] [] [] [] [] []]; cbv; intros; by split.
Qed.

Lemma toLowerChar_idemp ch : toLowerChar (toLowerChar ch) = toLowerChar ch.
Proof. destruct ch as [[] [] [] [] [] [] [] []]; reflexivity. Qed.

Lemma dashForbidden_chars fileName :
  Forall (λ ch, isForbiddenChar ch = false) (chars (dashForbidden fileName)).
Proof.
  induction fileName as [|ch rest IH]; simpl; [constructor|].
  constructor; [|done]. by destruct (isForbiddenChar ch) eqn:Hch.
Qed.

Lemma dashSpaces_chars inRun fileName :
  Forall (λ ch, isForbiddenChar ch = false) (chars fileName) →
  Forall (λ ch, isForbiddenChar ch = false ∧ isWhiteSpace ch = false)
    (chars (dashSpaces inRun fileName)).
Proof.
  revert inRun. induction fileName as [|ch rest IH]; intros inRun Hall; simpl;
    [constructor|].
  simpl in Hall. apply Forall_cons in Hall as [Hch Hall].
  destruct (isWhiteSpace ch) eqn:Hws.
  - destruct inRun; [by apply IH|]. simpl. constructor; [done|by apply IH].
  - simpl. constructor; [done|by apply IH].
Qed.

Lemma toLowerCase_chars fileName :
  Forall (λ ch, isForbiddenChar ch = false ∧ isWhiteSpace ch = false)
    (chars fileName) →
  Forall (λ ch, isForbiddenChar ch = false ∧ isWhiteSpace ch = false ∧
                toLowerChar ch = ch)
    (chars (toLowerCase fileName)).
Proof.
  induction fileName as [|ch rest IH]; intros Hall; simpl; [constructor|].
  simpl in Hall. apply Forall_cons in Hall as [[Hf Hw] Hall].
  constructor; [|by apply IH].
  destruct (toLowerChar_clean ch Hf Hw). split_and!; [done..|].
  apply toLowerChar_idemp.
Qed.

Lemma sanitizeFileName_chars fileName :
  Forall (λ ch, isForbiddenChar ch = false ∧ isWhiteSpace ch = false ∧
                toLowerChar ch = ch)
    (chars (sanitizeFileName fileName)).
Proof.
  unfold sanitizeFileName.
  apply toLowerCase_chars, dashSpaces_chars, dashForbidden_chars.
Qed.

(** X24. When [exportSessions] downloads a file, the file is not empty, its
    name holds none of the characters that file names cannot hold and no
    white space, and for the scope "current" it holds sessions of the
    current domain only. *)
Theorem exportSessions_file scope stored cur fileName content :
  exportSessions scope stored cur = Some (fileName, content) →
  content ≠ [] ∧
  Forall (λ ch, isForbiddenChar ch = false ∧ isWhiteSpace ch = false)
    (chars fileName) ∧
  (scope = ScopeCurrent → Forall (λ s, domain s = cur) content).
Proof.
  unfold exportSessions. case_decide as Hlen; [done|].
  intros [= <- <-]. split_and!.
  - intros Hnil. by rewrite Hnil in Hlen.
  - destruct scope; unfold downloadName; cbv zeta.
    + rewrite !chars_append. apply Forall_app. split; [by repeat constructor|].
      apply Forall_app. split; [|by repeat constructor].
      eapply Forall_impl; [apply sanitizeFileName_chars|].
      simpl. intros ch (? & ? & _). done.
    + by repeat constructor.
  - intros ->. simpl. apply Forall_forall.
    by intros s [? _]%list_elem_of_filter.
Qed.

Lemma dropPrefix_Some p s rest :
  dropPrefix p s = Some rest → s = String.append p rest.
Proof.
  revert s. induction p as [|a p IH]; intros s Hs; simpl in Hs.
  - by injection Hs as ->.
  - destruct s as [|b s]; [done|].
    destruct (Ascii.eqb_spec a b) as [->|]; [|done].
    change (String b s = String b (String.append p rest)).
    f_equal. by apply IH.
Qed.

Lemma stripScheme_clean fileName :
  Forall (λ ch, isForbiddenChar ch = false) (chars fileName) →
  stripScheme fileName = fileName.
Proof.
  intros Hall. unfold stripScheme.
  destruct (dropPrefix "http://" fileName) as [rest|] eqn:Hhttp.
  { apply dropPrefix_Some in Hhttp. rewrite Hhttp, chars_append in Hall.
    apply Forall_app in Hall as [Hall _]. simpl in Hall.
    do 4 apply Forall_cons in Hall as [_ Hall].
    by apply Forall_cons in Hall as [? _]. }
  destruct (dropPrefix "https://" fileName) as [rest|] eqn:Hhttps; [|done].
  apply dropPrefix_Some in Hhttps. rewrite Hhttps, chars_append in Hall.
  apply Forall_app in Hall as [Hall _]. simpl in Hall.
  do 5 apply Forall_cons in Hall as [_ Hall].
  by apply Forall_cons in Hall as [? _].
Qed.

Lemma dashForbidden_clean fileName :
  Forall (λ ch, isForbiddenChar ch = false) (chars fileName) →
  dashForbidden fileName = fileName.
Proof.
  induction fileName as [|ch rest IH]; intros Hall; simpl; [done|].
  simpl in Hall. apply Forall_cons in Hall as [-> Hall]. by rewrite IH.
Qed.

Lemma dashSpaces_clean fileName :
  Forall (λ ch, isWhiteSpace ch = false) (chars fileName) →
  dashSpaces false fileName = fileName.
Proof.
  induction fileName as [|ch rest IH]; intros Hall; simpl; [done|].
  simpl in Hall. apply Forall_cons in Hall as [-> Hall]. by rewrite IH.
Qed.

Lemma toLowerCase_clean fileName :
  Forall (λ ch, toLowerChar ch = ch) (chars fileName) →
  toLowerCase fileName = fileName.
Proof.
  induction fileName as [|ch rest IH]; intros Hall; simpl; [done|].
  simpl in Hall. apply Forall_cons in Hall as [-> Hall]. by rewrite IH.
Qed.

Lemma sanitizeFileName_clean fileName :
  Forall (λ ch, isForbiddenChar ch = false ∧ isWhiteSpace ch = false ∧
                toLowerChar ch = ch) (chars fileName) →
  sanitizeFileName fileName = fileName.
Proof.
  intros Hall. unfold sanitizeFileName.
  rewrite stripScheme_clean, dashForbidden_clean, dashSpaces_clean,
    toLowerCase_clean; [done|..];
    (eapply Forall_impl; [exact Hall|]); simpl; by intros ch (? & ? & ?).
Qed.

(** X25. [sanitizeFileName] changes nothing in a name that it has already
    cleaned: a lowercase domain without a scheme, white space or forbidden
    characters is the file's name as it is. *)
Theorem sanitizeFileName_idempotent fileName :
  sanitizeFileName (sanitizeFileName fileName) = sanitizeFileName fileName.
Proof. apply sanitizeFileName_clean, sanitizeFileName_chars. Qed.

(** ** Import by transfer code *)

(** Where a click leaves the lock, the count and the storage, case by
    case. *)
Lemma cloudImportClick_cases code reply ts stg :
  let after := cloudImportClick code reply ts stg in
  (cloudImportBlocked ts = true ∧ after = (ts, stg)) ∨
  (cloudImportBlocked ts = false ∧ trim code = "" ∧ after = (ts, stg)) ∨
  (cloudImportBlocked ts = false ∧ trim code ≠ "" ∧
   ((∃ payload, reply = ReplyOk (Some payload) ∧
       after = (mkTransfer false 0 false, importSessions payload stg)) ∨
    (reply = ReplyNotOk 429 ∧
       after = (mkTransfer true (cloudImportFailCount ts) true, stg)) ∨
    (reply = ReplyNotOk 404 ∧
       after = (mkTransfer (bool_decide (MAX_IMPORT_FAIL ≤ S (cloudImportFailCount ts))%nat)
                  (S (cloudImportFailCount ts))
                  (bool_decide (MAX_IMPORT_FAIL ≤ S (cloudImportFailCount ts))%nat),
                stg)) ∨
    (isWrongCode (code, reply) = false ∧ isRateLimited (code, reply) = false ∧
     isImported (code, reply) = false ∧
       after = (mkTransfer false (cloudImportFailCount ts) false, stg)))).
Proof.
  unfold cloudImportClick. cbv zeta.
  destruct (cloudImportBlocked ts) eqn:Hb; [by left|]. right.
  case_decide as Hcode; [by left|]. right. split_and!; [done..|].
  destruct reply as [|status|[payload|]].
  - do 3 right. unfold isWrongCode, isRateLimited, isImported. simpl. done.
  - case_decide as H429; [right; left; by subst|].
    case_decide as H404.
    + do 2 right. left. subst. split; [done|]. cbn [cloudImportFailCount].
      case_decide as Hmax.
      * by rewrite bool_decide_eq_true_2.
      * by rewrite bool_decide_eq_false_2.
    + do 3 right. unfold isWrongCode, isRateLimited, isImported. simpl.
      by rewrite !bool_decide_eq_false_2 by (by intros [_ ?]).
  - left. by exists payload.
  - do 3 right. unfold isWrongCode, isRateLimited, isImported. simpl. done.
Qed.

(** X26. A click on the import button writes to the storage only when
    imports are not blocked, a code was entered and the server answered with
    an array: the storage then holds the merge of that array, and the lock
    and the count of wrong codes are reset. *)
Theorem cloudImportClick_writes_only_payload code reply ts stg :
  (cloudImportClick code reply ts stg).2 ≠ stg →
  cloudImportBlocked ts = false ∧ trim code ≠ "" ∧
  ∃ payload, reply = ReplyOk (Some payload) ∧ payload ≠ [] ∧
    cloudImportClick code reply ts stg =
      (mkTransfer false 0 false, importSessions payload stg).
Proof.
  intros Hwritten.
  destruct (cloudImportClick_cases code reply ts stg)
    as [[_ Heq]|[(_ & _ & Heq)|(Hb & Hcode & Hcases)]].
  - by rewrite Heq in Hwritten.
  - by rewrite Heq in Hwritten.
  - destruct Hcases as [(payload & -> & Heq)|[[_ Heq]|[[_ Heq]|(_ & _ & _ & Heq)]]];
      try (by rewrite Heq in Hwritten).
    split_and!; [done..|]. exists payload. split_and!; [done| |done].
    intros ->. rewrite Heq in Hwritten. apply Hwritten. simpl.
    unfold importSessions, mergeSessions. simpl.
    by destruct stg as [[] ?].
Qed.

Lemma cloudImportClicks_cons attempt attempts ts stg :
  cloudImportClicks (attempt :: attempts) ts stg =
  cloudImportClicks attempts
    (cloudImportClick attempt.1 attempt.2 ts stg).1
    (cloudImportClick attempt.1 attempt.2 ts stg).2.
Proof.
  unfold cloudImportClicks. simpl.
  by destruct (cloudImportClick attempt.1 attempt.2 ts stg).
Qed.

Lemma cloudImportClicks_blocked attempts ts stg :
  cloudImportBlocked ts = true →
  cloudImportClicks attempts ts stg = (ts, stg).
Proof.
  induction attempts as [|attempt attempts IH]; intros Hb; [done|].
  rewrite cloudImportClicks_cons.
  destruct (cloudImportClick_cases attempt.1 attempt.2 ts stg)
    as [[_ Heq]|[(Hnb & _)|(Hnb & _)]]; [|congruence..].
  cbv zeta in Heq. rewrite Heq. by apply IH.
Qed.

Lemma cloudImportClicks_lock attempts ts stg :
  cloudImportBlocked ts = false →
  (cloudImportFailCount ts < MAX_IMPORT_FAIL)%nat →
  Forall (λ attempt, isImported attempt = false) attempts →
  let after := cloudImportClicks attempts ts stg in
  (cloudImportBlocked after.1 = true ↔
     (MAX_IMPORT_FAIL ≤ cloudImportFailCount ts + length (filter (λ attempt, isWrongCode attempt = true) attempts))%nat ∨
     Exists (λ attempt, isRateLimited attempt = true) attempts) ∧
  after.2 = stg.
Proof.
  revert ts. induction attempts as [|[code reply] attempts IH];
    intros ts Hb Hcount Hnone; cbv zeta.
  { simpl. split; [|done]. rewrite Hb. split; [done|].
    intros [?|?%Exists_nil]; [lia|done]. }
  apply Forall_cons in Hnone as [Hnot Hnone].
  rewrite cloudImportClicks_cons. cbn [fst snd].
  destruct (cloudImportClick_cases code reply ts stg)
    as [[? _]|[(_ & Hcode & Heq)|(_ & Hcode & Hcases)]]; [congruence|..].
  - cbv zeta in Heq. rewrite Heq. cbn [fst snd].
    destruct (IH ts Hb Hcount Hnone) as [IHb IHs]. split; [|done].
    rewrite IHb, Exists_cons.
    assert (isWrongCode (code, reply) = false) as Hw.
    { unfold isWrongCode. simpl. destruct reply; [done| |done].
      apply bool_decide_eq_false_2. by intros [? _]. }
    assert (isRateLimited (code, reply) = false) as Hr.
    { unfold isRateLimited. simpl. destruct reply; [done| |done].
      apply bool_decide_eq_false_2. by intros [? _]. }
    rewrite filter_cons_False by (by rewrite Hw).
    rewrite Hr. intuition discriminate.
  - destruct Hcases as [(payload & -> & _)|[[-> Heq]|[[-> Heq]|(Hw & Hr & _ & Heq)]]].
    + done.
    + cbv zeta in Heq. rewrite Heq. cbn [fst snd].
      rewrite cloudImportClicks_blocked by done. cbn [fst snd cloudImportBlocked].
      split; [|done]. split; [|done]. intros _. right. apply Exists_cons. left.
      unfold isRateLimited. simpl. by rewrite bool_decide_eq_true_2.
    + cbv zeta in Heq. rewrite Heq. cbn [fst snd].
      assert (isWrongCode (code, ReplyNotOk 404) = true) as Hw.
      { unfold isWrongCode. simpl. by rewrite bool_decide_eq_true_2. }
      assert (isRateLimited (code, ReplyNotOk 404) = false) as Hr.
      { unfold isRateLimited. simpl. apply bool_decide_eq_false_2. by intros [_ ?]. }
      rewrite filter_cons_True by done. rewrite Exists_cons, Hr.
      cbn [length].
      destruct (decide (MAX_IMPORT_FAIL ≤ S (cloudImportFailCount ts))%nat) as [Hmax|Hmax].
      * rewrite bool_decide_eq_true_2 by done.
        rewrite cloudImportClicks_blocked by done. cbn [fst snd cloudImportBlocked].
        split; [|done]. split; [|done]. intros _. left. lia.
      * rewrite bool_decide_eq_false_2 by done.
        edestruct (IH (mkTransfer false (S (cloudImportFailCount ts)) false))
          as [IHb IHs]; [done|simpl; lia|done|].
        split; [|exact IHs]. rewrite IHb. cbn [cloudImportFailCount].
        intuition (discriminate || lia).
    + cbv zeta in Heq. rewrite Heq. cbn [fst snd].
      edestruct (IH (mkTransfer false (cloudImportFailCount ts) false))
        as [IHb IHs]; [done|simpl; lia|done|].
      split; [|exact IHs]. rewrite IHb. cbn [cloudImportFailCount].
      rewrite filter_cons_False by (by rewrite Hw). rewrite Exists_cons, Hr.
      intuition discriminate.
Qed.

(** X27. Starting with the transfer dialog as [closeTransfer] leaves it,
    after any number of clicks none of which imported anything, imports are
    blocked exactly when the server answered 404 to five attempts or more,
    or 429 to one; the storage is as before. *)
Theorem cloudImport_locks_after_five_wrong_codes attempts ts stg :
  Forall (λ attempt, isImported attempt = false) attempts →
  let after := cloudImportClicks attempts (closeTransfer ts) stg in
  (cloudImportBlocked after.1 = true ↔
     (5 ≤ length (filter (λ attempt, isWrongCode attempt = true) attempts))%nat ∨
     Exists (λ attempt, isRateLimited attempt = true) attempts) ∧
  after.2 = stg.
Proof.
  intros Hnone.
  apply (cloudImportClicks_lock attempts (closeTransfer ts) stg); [done| |done].
  unfold MAX_IMPORT_FAIL. simpl. lia.
Qed.

(** X28. Each click keeps the button in step with the lock, and the count
    of wrong codes below the limit while imports are not blocked: if the
    button is disabled exactly when imports are blocked before the click,
    it is so after it. *)
Theorem cloudImportClick_button_follows_lock code reply ts stg :
  cloudImportBtnDisabled ts = cloudImportBlocked ts →
  (cloudImportBlocked ts = false →
     (cloudImportFailCount ts < MAX_IMPORT_FAIL)%nat) →
  let after := (cloudImportClick code reply ts stg).1 in
  cloudImportBtnDisabled after = cloudImportBlocked after ∧
  (cloudImportBlocked after = false →
     (cloudImportFailCount after < MAX_IMPORT_FAIL)%nat).
Proof.
  intros Hbtn Hcount. cbv zeta.
  destruct (cloudImportClick_cases code reply ts stg)
    as [[_ Heq]|[(_ & _ & Heq)|(Hb & _ & Hcases)]].
  { cbv zeta in Heq. by rewrite Heq. }
  { cbv zeta in Heq. by rewrite Heq. }
  specialize (Hcount Hb).
  destruct Hcases as [(payload & _ & Heq)|[[_ Heq]|[[_ Heq]|(_ & _ & _ & Heq)]]];
    rewrite Heq; cbn [fst cloudImportBtnDisabled cloudImportBlocked cloudImportFailCount].
  - split; [done|]. intros _. unfold MAX_IMPORT_FAIL. lia.
  - done.
  - split; [done|]. by intros ?%bool_decide_eq_false_1%Nat.nle_gt.
  - done.
Qed.

End Transfer.

(** * The further properties at the concrete instance *)

(** X1: deleting [sessionA] when the write is rejected: the call throws and
    [sessionA] is gone from the state. *)
Lemma thrown_unchanged_or_write_rejected_witness :
  run (Delete "a" (WriteFailed "QUOTA_BYTES")) exampleState = exampleState ∨
  ((∃ reason, writeResult (Delete "a" (WriteFailed "QUOTA_BYTES"))
              = WriteFailed reason) ∧
   returned (withWrite Written (Delete "a" (WriteFailed "QUOTA_BYTES")))
     exampleState = true ∧
   run (Delete "a" (WriteFailed "QUOTA_BYTES")) exampleState
     = run (withWrite Written (Delete "a" (WriteFailed "QUOTA_BYTES")))
         exampleState).
Proof.
  apply (thrown_unchanged_or_write_rejected
           (Delete "a" (WriteFailed "QUOTA_BYTES")) exampleState).
  reflexivity.
Defined.

Lemma n1_fresh_in_exampleState : "n1" ∉ id <$> sessions exampleState.
Proof.
  change ("n1" ∉ ["a"; "b"; "x"]). intros Hin.
  repeat (apply elem_of_cons in Hin as [Hin|Hin]; [discriminate Hin|]).
  by apply elem_of_nil in Hin.
Qed.

(** X2: a save in [exampleState] under the fresh id "n1". *)
Lemma getSession_after_save_witness :
  ∃ new st',
    saveCurrentSession "games" (captured "c") "n1" 100 101 Written exampleState
      = Returned new st' ∧
    getSession st' "n1" = Some new ∧
    ∀ j, j ≠ "n1" → getSession st' j = getSession exampleState j.
Proof.
  apply (getSession_after_save exampleState "games" "games" (captured "c")
           "n1" 100 101).
  - reflexivity.
  - reflexivity.
  - exact n1_fresh_in_exampleState.
Defined.

(** X4: [sessionB] renamed to a name that no session has. *)
Lemma getSession_after_rename_witness :
  getSession (run (Rename "b" " Office " false Written) exampleState) "b"
    = Some (mkSession (id sessionB) "Office" (domain sessionB) (createdAt sessionB)
              (lastUsed sessionB) (order sessionB) (payload sessionB)).
Proof.
  apply (getSession_after_rename exampleState "b" " Office " false Written "Office"
           1 sessionB).
  - reflexivity.
  - reflexivity.
  - reflexivity.
Defined.

(** X7: the export of the store of [exampleState]. *)
Lemma export_all_then_import_witness :
  (default [] (@None (list SessionData)) = [] →
     mergeSessions None
       (buildExportData ScopeAll (Some (sessions exampleState)) "example.com")
       = Some (sessions exampleState)) ∧
  ((∀ s, s ∈ sessions exampleState → domain s ≠ String.EmptyString) →
     mergeSessions (Some (sessions exampleState))
       (buildExportData ScopeAll (Some (sessions exampleState)) "example.com")
       = Some (sessions exampleState)).
Proof.
  apply (export_all_then_import (sessions exampleState) None "example.com").
  discriminate.
Defined.

(** X8: the export of [example.com] from the store of [exampleState]. *)
Lemma export_current_then_import_witness :
  mergeSessions (Some (sessions exampleState))
    (buildExportData ScopeCurrent (Some (sessions exampleState)) "example.com")
    = Some (filter (λ s, domain s ≠ "example.com") (sessions exampleState) ++
            filter (λ s, domain s = "example.com") (sessions exampleState)) ∧
  filter (λ s, domain s ≠ "example.com") (sessions exampleState) ++
  filter (λ s, domain s = "example.com") (sessions exampleState)
    ≡ₚ sessions exampleState.
Proof.
  apply (export_current_then_import (sessions exampleState) "example.com").
  - discriminate.
  - change ([sessionA; sessionB] ≠ []). discriminate.
Defined.

(** X9: [sessionA'] imported twice into the store of [exampleState]. *)
Lemma mergeSessions_idempotent_witness :
  mergeSessions (mergeSessions (Some (sessions exampleState)) [sessionA'])
      [sessionA']
    = mergeSessions (Some (sessions exampleState)) [sessionA'].
Proof.
  apply (mergeSessions_idempotent (Some (sessions exampleState)) [sessionA']).
  intros s Hs.
  apply elem_of_cons in Hs as [->|Hs]; [discriminate|].
  by apply elem_of_nil in Hs.
Defined.

(** X14: switching to [sessionB] in [exampleState]. *)
Lemma displayed_ids_kept_witness :
  id <$> displayed
           (run (@Switch exampleImports "b" (captured "c") 50 Written) exampleState)
    = id <$> displayed exampleState.
Proof.
  apply (displayed_ids_kept (@Switch exampleImports "b" (captured "c") 50 Written)
           exampleState).
  exact I.
Defined.

(** X16: a save in [exampleState]. *)
Lemma displayed_after_save_witness :
  ∃ new,
    saveCurrentSession "games" (captured "c") "n1" 100 101 Written exampleState
      = Returned new
          (run (@Save exampleImports "games" (captured "c") "n1" 100 101 Written)
             exampleState) ∧
    displayed
      (run (@Save exampleImports "games" (captured "c") "n1" 100 101 Written)
         exampleState)
      = displayed exampleState ++ [new].
Proof.
  apply (displayed_after_save exampleState "games" "games" (captured "c")
           "n1" 100 101).
  - reflexivity.
  - reflexivity.
Defined.

(** X17: [sessionB] dragged above [sessionA]. *)
Lemma displayed_after_reorder_witness :
  id <$> displayed (run (Reorder ["b"; "a"] Written) exampleState) = ["b"; "a"].
Proof.
  apply (displayed_after_reorder exampleState ["b"; "a"] Written).
  - exact exampleState_domain_ids.
  - reflexivity.
Defined.

(** X18: in [renamingB], the dialog holds the name of [sessionA]. *)
Lemma handleOverwriteRename_keeps_place_witness :
  ∃ st',
    handleOverwriteRename "work" (captured "fresh") 99 Written Written renamingB
      = Returned tt st' ∧
    id <$> displayed st'
      = match findSessionByNameInCurrentDomain renamingB "work"
                (Some (currentRenameSessionId renamingB)) with
        | Some conflict => filter (λ x, x ≠ id conflict) (id <$> displayed renamingB)
        | None => id <$> displayed renamingB
        end ∧
    getSession st' (currentRenameSessionId renamingB)
      = Some (mkSession (id sessionB) "work" (domain sessionB) (createdAt sessionB) 99
                (order sessionB)
                (default storedSessionDefaultValue (data (captured "fresh")))) ∧
    activeSessions st' !! currentDomain renamingB
      = Some (currentRenameSessionId renamingB) ∧
    currentRenameSessionId st' = String.EmptyString.
Proof.
  apply (handleOverwriteRename_keeps_place renamingB "work" "work"
           (captured "fresh") 99 1 sessionB).
  - discriminate.
  - discriminate.
  - reflexivity.
  - reflexivity.
  - reflexivity.
  - reflexivity.
Defined.

(** X19: the same click when the write of the overwrite is rejected:
    [sessionA] is gone and [sessionB] is still selected. *)
Lemma handleOverwriteRename_not_atomic_witness :
  let after :=
    stateOf (handleOverwriteRename "work" (captured "fresh") 99 Written
               (WriteFailed "QUOTA_BYTES") renamingB) in
  sessionA ∈ sessions renamingB ∧
  id <$> sessions after = filter (λ x, x ≠ id sessionA) (id <$> sessions renamingB) ∧
  currentRenameSessionId after = currentRenameSessionId renamingB ∧
  (Written ≠ Written ∨ WriteFailed "QUOTA_BYTES" = Written →
     sessions after = filter (λ s, id s ≠ id sessionA) (sessions renamingB) ∧
     getSession after (currentRenameSessionId renamingB)
       = getSession renamingB (currentRenameSessionId renamingB)).
Proof.
  apply (handleOverwriteRename_not_atomic renamingB "work" (captured "fresh") 99
           Written (WriteFailed "QUOTA_BYTES") sessionA).
  - discriminate.
  - discriminate.
  - reflexivity.
  - reflexivity.
Defined.

(** X20: the same click in the other copy of the controller, the write of
    the save being rejected. *)
Lemma handleOverwriteRenameBySaving_changes_id_witness :
  (findSessionByNameInCurrentDomain renamingB "work"
     (Some (currentRenameSessionId renamingB)) = None ∨ Written = Written →
   getSession
     (stateOf (handleOverwriteRenameBySaving "work" (captured "fresh") "n1" 100 101
                 Written Written (WriteFailed "QUOTA_BYTES") renamingB))
     (currentRenameSessionId renamingB) = None) ∧
  (∀ conflict reason,
     findSessionByNameInCurrentDomain renamingB "work"
       (Some (currentRenameSessionId renamingB)) = Some conflict →
     Written = WriteFailed reason →
     hasReturned (handleOverwriteRenameBySaving "work" (captured "fresh") "n1"
                    100 101 Written Written (WriteFailed "QUOTA_BYTES") renamingB)
       = false ∧
     getSession
       (stateOf (handleOverwriteRenameBySaving "work" (captured "fresh") "n1"
                   100 101 Written Written (WriteFailed "QUOTA_BYTES") renamingB))
       (currentRenameSessionId renamingB)
       = getSession renamingB (currentRenameSessionId renamingB)) ∧
  (∀ v, validateSessionName "work" = Valid v → success (captured "fresh") = true →
     hasReturned
       (handleOverwriteRenameBySaving "work" (captured "fresh") "n1" 100 101
          Written Written Written renamingB)
       = true ∧
     id <$> displayed
       (stateOf (handleOverwriteRenameBySaving "work" (captured "fresh") "n1" 100 101
                   Written Written Written renamingB))
       = filter (λ x, x ≠ currentRenameSessionId renamingB)
           (match findSessionByNameInCurrentDomain renamingB "work"
                    (Some (currentRenameSessionId renamingB)) with
            | Some conflict =>
                filter (λ x, x ≠ id conflict) (id <$> displayed renamingB)
            | None => id <$> displayed renamingB
            end) ++ ["n1"]).
Proof.
  apply (handleOverwriteRenameBySaving_changes_id renamingB "work"
           (captured "fresh") "n1" 100 101 Written Written
           (WriteFailed "QUOTA_BYTES")).
  - discriminate.
  - discriminate.
  - discriminate.
Defined.

Lemma exampleState_ordersDistinct : ordersDistinct exampleState.
Proof.
  intros i j s t Hi Hj [Hd Ho].
  destruct i as [|[|[|i]]], j as [|[|[|j]]]; simpl in Hi, Hj;
    try done; injection Hi as <-; injection Hj as <-;
    try discriminate Hd; discriminate Ho.
Qed.

(** X21: a save in [exampleState]. *)
Lemma run_preserves_ordersDistinct_witness :
  ordersDistinct
    (run (@Save exampleImports "games" (captured "c") "n1" 100 101 Written)
       exampleState).
Proof.
  apply (run_preserves_ordersDistinct
           (@Save exampleImports "games" (captured "c") "n1" 100 101 Written)
           exampleState).
  - exact exampleState_idsUnique.
  - exact exampleState_ordersDistinct.
Defined.

(** X23: a name that holds a tag. *)
Lemma escapeHtml_injective_witness :
  escapeHtml "<b>work</b>" = "&lt;b&gt;work&lt;/b&gt;" ∧
  "<b>work</b>" = "<b>work</b>".
Proof.
  split; [reflexivity|].
  apply (escapeHtml_injective "<b>work</b>" "<b>work</b>"). reflexivity.
Defined.

(** X24: the export of [example.com] from the store of [exampleState]. *)
Lemma exportSessions_file_witness :
  exportSessions ScopeCurrent (Some (sessions exampleState)) "example.com"
    = Some ("BitXSessions-example.com.json", [sessionA; sessionB]) ∧
  [sessionA; sessionB] ≠ [] ∧
  Forall (λ ch, isForbiddenChar ch = false ∧ isWhiteSpace ch = false)
    (chars "BitXSessions-example.com.json") ∧
  (ScopeCurrent = ScopeCurrent →
     Forall (λ s, domain s = "example.com") [sessionA; sessionB]).
Proof.
  split; [reflexivity|].
  apply (exportSessions_file ScopeCurrent (Some (sessions exampleState))
           "example.com" "BitXSessions-example.com.json" [sessionA; sessionB]).
  reflexivity.
Defined.

(** X26: a code that the server knows, entered with [exampleStorage]. *)
Lemma cloudImportClick_writes_only_payload_witness :
  cloudImportBlocked fourWrongCodes = false ∧ trim " K7 " ≠ "" ∧
  ∃ payload, ReplyOk (Some [sessionA']) = ReplyOk (Some payload) ∧ payload ≠ [] ∧
    cloudImportClick " K7 " (ReplyOk (Some [sessionA'])) fourWrongCodes exampleStorage
      = (mkTransfer false 0 false, importSessions payload exampleStorage).
Proof.
  apply (cloudImportClick_writes_only_payload " K7 " (ReplyOk (Some [sessionA']))
           fourWrongCodes exampleStorage).
  change (mkStorage (SessionsArray [sessionX; sessionA'])
            (Some (activeSessions exampleState))
          ≠ mkStorage (SessionsArray [sessionA; sessionB; sessionX])
              (Some (activeSessions exampleState))).
  intros Heq. discriminate Heq.
Defined.

(** X27: five wrong codes in a row. *)
Lemma cloudImport_locks_after_five_wrong_codes_witness :
  (cloudImportBlocked
     (cloudImportClicks (replicate 5 ("K7", ReplyNotOk 404))
        (closeTransfer fourWrongCodes) exampleStorage).1 = true ↔
     (5 ≤ length (filter (λ attempt, isWrongCode attempt = true)
                    (replicate 5 ("K7", ReplyNotOk 404))))%nat ∨
     Exists (λ attempt, isRateLimited attempt = true)
       (replicate 5 ("K7", ReplyNotOk 404))) ∧
  (cloudImportClicks (replicate 5 ("K7", ReplyNotOk 404))
     (closeTransfer fourWrongCodes) exampleStorage).2 = exampleStorage.
Proof.
  apply (cloudImport_locks_after_five_wrong_codes
           (replicate 5 ("K7", ReplyNotOk 404)) fourWrongCodes exampleStorage).
  repeat constructor.
Defined.

(** X28: the fifth wrong code. *)
Lemma cloudImportClick_button_follows_lock_witness :
  cloudImportBtnDisabled
    (cloudImportClick "K7" (ReplyNotOk 404) fourWrongCodes exampleStorage).1
    = cloudImportBlocked
        (cloudImportClick "K7" (ReplyNotOk 404) fourWrongCodes exampleStorage).1 ∧
  (cloudImportBlocked
     (cloudImportClick "K7" (ReplyNotOk 404) fourWrongCodes exampleStorage).1 = false →
   (cloudImportFailCount
      (cloudImportClick "K7" (ReplyNotOk 404) fourWrongCodes exampleStorage).1
    < MAX_IMPORT_FAIL)%nat).
Proof.
  apply (cloudImportClick_button_follows_lock "K7" (ReplyNotOk 404)
           fourWrongCodes exampleStorage).
  - reflexivity.
  - intros _. unfold MAX_IMPORT_FAIL. simpl. lia.
Defined.
